(** * SakukuWebApp: persistence, exchange rates, conversion and offline worker

    A shallow embedding of the pieces of the application that carry a
    contract:

    - [Storage]       services/storage.ts   (transactions and settings in localStorage)
    - [Currency]      services/currency.ts  (rate table with session cache and fallback)
    - [App]           App.tsx               (convertAmount)
    - [ServiceWorker] public/sw.js          (install, activate and fetch handlers)
    - [Handlers]      App.tsx               (mount effect, settings, add, delete, clear)
    - [RatesEffect]   App.tsx               (the effect that loads the exchange rates)

    JavaScript values are modelled by [jsval]; numbers are IEEE-754 doubles
    (Rocq's primitive floats), objects are finite maps from property names to
    values.  Effects (storage, clock, random identifiers, network, console)
    are threaded through a state-and-exception monad. *)

From Stdlib Require Import Floats.PrimFloat Ascii HexadecimalString HexadecimalZ.
From stdpp Require Import gmap strings list fin_maps pretty.

Set Default Proof Using "Type".
Set Warnings "-register-all,-inexact-float".
Local Open Scope string_scope.
Local Open Scope list_scope.

(** ** JavaScript values *)

Module JS.

(** The values that JSON text can denote, which are also the values the
    services build.  [undefined] is not a constructor: a property read
    yields [option jsval] and [None] stands for [undefined]. *)
Inductive jsval : Type :=
  | JNull
  | JBool (b : bool)
  | JNum (x : float)
  | JStr (s : string)
  | JArr (l : list jsval)
  | JObj (m : gmap string jsval).

Definition is_finite (x : float) : bool := negb (is_nan x || is_infinity x).

(** ToBoolean. *)
Definition truthy (v : jsval) : bool :=
  match v with
  | JNull => false
  | JBool b => b
  | JNum x => negb (is_zero x || is_nan x)
  | JStr s => negb (bool_decide (s = ""))
  | JArr _ | JObj _ => true
  end.

Definition truthy_opt (o : option jsval) : bool :=
  match o with Some v => truthy v | None => false end.

(** [a || b] where [a] may be [undefined] and [b] is a value. *)
Definition or_else (o : option jsval) (d : jsval) : jsval :=
  match o with
  | Some v => if truthy v then v else d
  | None => d
  end.

(** [v === s] for a string [s]. *)
Definition is_str (v : jsval) (s : string) : bool :=
  match v with JStr s' => bool_decide (s' = s) | _ => false end.

Definition is_str_opt (o : option jsval) (s : string) : bool :=
  match o with Some v => is_str v s | None => false end.

#[global] Instance is_JStr_dec (v : jsval) (s : string) : Decision (v = JStr s).
Proof.
  destruct v as [| | |s'| |]; try (right; discriminate).
  destruct (decide (s' = s)) as [->|Hne]; [left; reflexivity|right; congruence].
Defined.

#[global] Instance is_JNull_dec (v : jsval) : Decision (v = JNull).
Proof. destruct v; (by left) || (by right). Defined.

(** The property [k] of a value other than [null], for a name [k] that is
    neither an index nor [length]. *)
Definition field (v : jsval) (k : string) : option jsval :=
  match v with JObj m => m !! k | _ => None end.

(** The one-character strings of a string, in order (a character of the
    model is a byte, of JavaScript a UTF-16 code unit; they agree on ASCII). *)
Fixpoint chars (s : string) : list string :=
  match s with
  | EmptyString => []
  | String c r => String c EmptyString :: chars r
  end.

Definition index_props {A} (f : A → jsval) (l : list A) : gmap string jsval :=
  list_to_map (imap (λ i x, (pretty i, f x)) l).

(** Own enumerable properties: what object spread [{...v}] copies. *)
Definition own_props (v : jsval) : gmap string jsval :=
  match v with
  | JObj m => m
  | JArr l => index_props id l
  | JStr s => index_props JStr (chars s)
  | JNull | JBool _ | JNum _ => ∅
  end.

(** What [JSON.parse (JSON.stringify v)] makes of [v]: a number that is not
    finite is written as [null], negative zero is written as [0], everything
    else comes back as it was. *)
Fixpoint json_norm (v : jsval) : jsval :=
  match v with
  | JNum x => if is_finite x then (if is_zero x then JNum 0 else JNum x) else JNull
  | JArr l => JArr (map json_norm l)
  | JObj m => JObj (json_norm <$> m)
  | JNull | JBool _ | JStr _ => v
  end.

(** The names every object inherits from [Object.prototype].  What they
    hold is a function (for [__proto__], the prototype itself): a truthy
    value that is NaN as a number. *)
Definition Object_prototype : list string :=
  ["constructor"; "__defineGetter__"; "__defineSetter__"; "hasOwnProperty";
   "__lookupGetter__"; "__lookupSetter__"; "isPrototypeOf"; "propertyIsEnumerable";
   "toString"; "valueOf"; "__proto__"; "toLocaleString"].

Definition inherited (k : string) : bool := bool_decide (k ∈ Object_prototype).

(** What [obj[k]] finds in a plain object: an own property, a member of
    [Object.prototype], or nothing ([undefined]). *)
Inductive member :=
  | Own (v : jsval)
  | Inherited
  | Absent.

(** [obj[k]] for the plain object whose own properties are [m]. *)
Definition get_member (m : gmap string jsval) (k : string) : member :=
  match m !! k with
  | Some v => Own v
  | None => if inherited k then Inherited else Absent
  end.

Definition truthy_member (x : member) : bool :=
  match x with
  | Own v => truthy v
  | Inherited => true
  | Absent => false
  end.

(** The conversion of a value to a primitive throws a TypeError: a parsed
    object has no callable [toString] of its own when it has a property of
    that name (the inherited [valueOf] returns the object itself), and an
    array is joined from the strings of its elements. *)
Fixpoint ToPrimitive_throws (v : jsval) : bool :=
  match v with
  | JObj m => bool_decide (is_Some (m !! "toString"))
  | JArr l => existsb ToPrimitive_throws l
  | JNull | JBool _ | JNum _ | JStr _ => false
  end.

(** The host's built-ins the services call.  [text] is the type of
    serialised documents (the strings kept in Web Storage and the bodies of
    HTTP responses); the services never inspect such a string other than by
    testing it for emptiness and parsing it. *)
Class Runtime (text : Type) := {
  is_empty : text → bool;
  (** [JSON.parse]; [None] is a SyntaxError. *)
  JSON_parse : text → option jsval;
  JSON_stringify : jsval → text;
  (** ToNumber on a string. *)
  StringToNumber : string → float;
  (** [Array.prototype.toString]. *)
  Array_toString : list jsval → string;
  (** The empty string is not JSON text. *)
  JSON_parse_empty t : is_empty t = true → JSON_parse t = None;
  JSON_parse_stringify v : JSON_parse (JSON_stringify v) = Some (json_norm v);
  JSON_stringify_nonempty v : is_empty (JSON_stringify v) = false;
}.

Section with_runtime.
Context {text : Type} `{!Runtime text}.

(** ToNumber, for a value whose conversion to a primitive completes (see
    [ToPrimitive_throws]).  A plain object converts through its string
    form "[object Object]", an array through [Array.prototype.toString]. *)
Definition ToNumber (v : jsval) : float :=
  match v with
  | JNull => 0
  | JBool b => if b then 1 else 0
  | JNum x => x
  | JStr s => StringToNumber s
  | JArr l => StringToNumber (Array_toString l)
  | JObj _ => StringToNumber "[object Object]"
  end.

Definition ToNumber_opt (o : option jsval) : float :=
  match o with Some v => ToNumber v | None => nan end.

Definition ToNumber_member (x : member) : float :=
  match x with
  | Own v => ToNumber v
  | Inherited | Absent => nan
  end.
End with_runtime.

(** Exceptions, and computations over a state [S] that may throw.  A throw
    keeps the state changes made before it. *)
Inductive exn := TypeError | SyntaxError | Error (msg : string).

Inductive result (A : Type) := Ok (a : A) | Throw (e : exn).
Arguments Ok {A} a.
Arguments Throw {A} e.

Definition Eff (S A : Type) : Type := S → result A * S.

Definition eff_ret {S A} (a : A) : Eff S A := λ s, (Ok a, s).

Definition eff_bind {S A B} (f : A → Eff S B) (m : Eff S A) : Eff S B :=
  λ s, match m s with
       | (Ok a, s') => f a s'
       | (Throw e, s') => (Throw e, s')
       end.

#[global] Instance Eff_ret S : MRet (Eff S) := @eff_ret S.
#[global] Instance Eff_bind S : MBind (Eff S) := @eff_bind S.

Definition throw {S A} (e : exn) : Eff S A := λ s, (Throw e, s).

(** [try { body } catch (e) { handler }] *)
Definition try_catch {S A} (body : Eff S A) (handler : exn → Eff S A) : Eff S A :=
  λ s, match body s with
       | (Ok a, s') => (Ok a, s')
       | (Throw e, s') => handler e s'
       end.

Definition gets {S A} (f : S → A) : Eff S A := λ s, (Ok (f s), s).
Definition modify {S} (f : S → S) : Eff S unit := λ s, (Ok tt, f s).

(** A property read [v.k] for a name [k] that is neither an index, nor
    [length], nor inherited: only an object has it, and reading from [null]
    throws. *)
Definition get_prop {S} (v : jsval) (k : string) : Eff S (option jsval) :=
  match v with
  | JNull => throw TypeError
  | _ => mret (field v k)
  end.

(** [Number(x)], where [x] may be [undefined]: a TypeError when [x] cannot
    be converted to a primitive. *)
Definition Number_of {S} `{!Runtime text} (o : option jsval) : Eff S float :=
  match o with
  | Some v => if ToPrimitive_throws v then throw TypeError else mret (ToNumber v)
  | None => mret nan
  end.

(** A runtime for examples: a document is kept in parsed form, next to the
    strings that are not JSON text. *)
Inductive doc :=
  | Malformed (s : string)
  | Doc (v : jsval).

(** The number a string of decimal digits denotes.  The example runtime
    reads no other notation: every other string is NaN to it. *)
Fixpoint digits_value (acc : float) (s : string) : float :=
  match s with
  | EmptyString => acc
  | String c r =>
      let n := Ascii.nat_of_ascii c in
      if bool_decide (48 ≤ n ≤ 57)%nat
      then digits_value (acc * 10 + Nat.iter (n - 48)%nat (λ x, x + 1)%float 0%float)%float r
      else nan
  end.

(** The string form of the arrays the examples need: the empty array and
    an array of one string or of [null]. *)
Definition doc_array_toString (l : list jsval) : string :=
  match l with
  | [] => ""
  | [JStr s] => s
  | [JNull] => ""
  | _ => "[object Object]"
  end.

#[global, program] Instance doc_runtime : Runtime doc := {|
  is_empty d := match d with Malformed s => bool_decide (s = "") | Doc _ => false end;
  JSON_parse d := match d with Malformed _ => None | Doc v => Some v end;
  JSON_stringify v := Doc (json_norm v);
  StringToNumber s := digits_value 0 s;
  Array_toString := doc_array_toString;
|}.
Next Obligation. by intros [s|v]. Qed.
Next Obligation. done. Qed.
Next Obligation. done. Qed.

End JS.

(** ** services/storage.ts *)

Module Storage.
Import JS.

Definition STORAGE_KEY : string := "glassfinance_data_id".
Definition SETTINGS_KEY : string := "glassfinance_settings".

Inductive TransactionType := INCOME | EXPENSE.

Definition type_tag (t : TransactionType) : string :=
  match t with INCOME => "income" | EXPENSE => "expense" end.

(** The object literal built by the sanitising map in [getTransactions].
    The declared field types are not enforced at run time: a stored value
    that is truthy is kept whatever its kind, so the five fields that are
    filled with [raw || default] hold arbitrary values. *)
Record Transaction := {
  tx_id : jsval;
  tx_amount : float;
  tx_description : jsval;
  tx_category : jsval;
  tx_date : jsval;
  tx_type : TransactionType;
  tx_currency : jsval;
}.

(** The transaction as the object handed to [JSON.stringify]. *)
Definition tx_to_js (t : Transaction) : jsval :=
  JObj (<["id" := tx_id t]> (<["amount" := JNum (tx_amount t)]>
       (<["description" := tx_description t]> (<["category" := tx_category t]>
       (<["date" := tx_date t]> (<["type" := JStr (type_tag (tx_type t))]>
       (<["currency" := tx_currency t]> ∅))))))).

Definition DEFAULT_SETTINGS : gmap string jsval :=
  <["currency" := JStr "IDR"]> (<["language" := JStr "id"]>
  (<["theme" := JStr "dark"]> (<["username" := JStr "User"]>
  (<["avatar" := JNull]> ∅)))).

Section with_runtime.
Context {text : Type} `{!Runtime text}.

(** The part of the browser the storage service touches.
    [has_crypto_randomUUID] tells whether [crypto.randomUUID] is there to
    be called; [random_uuids n] is what its [n]-th call returns and
    [iso_times n] what the [n]-th evaluation of
    [new Date().toISOString()] returns. *)
Record Browser := {
  localStorage : gmap string text;
  has_crypto_randomUUID : bool;
  random_uuids : nat → string;
  uuid_calls : nat;
  iso_times : nat → string;
  time_reads : nat;
  console : list string;
}.

Definition localStorage_getItem (k : string) : Eff Browser (option text) :=
  gets (λ b, localStorage b !! k).

(** [localStorage.setItem(k, v)], for a write the browser accepts.  A
    write it refuses (the quota is exceeded, or storage is disabled) throws
    in the browser and is not modelled: what is stated about a function
    that writes describes the state its accepted writes leave. *)
Definition localStorage_setItem (k : string) (v : text) : Eff Browser unit :=
  modify (λ b, {| localStorage := <[k := v]> (localStorage b);
                  has_crypto_randomUUID := has_crypto_randomUUID b;
                  random_uuids := random_uuids b; uuid_calls := uuid_calls b;
                  iso_times := iso_times b; time_reads := time_reads b;
                  console := console b |}).

(** [crypto.randomUUID()]: a TypeError where the browser has no such
    function. *)
Definition crypto_randomUUID : Eff Browser jsval :=
  λ b, if has_crypto_randomUUID b
       then (Ok (JStr (random_uuids b (uuid_calls b))),
             {| localStorage := localStorage b;
                has_crypto_randomUUID := has_crypto_randomUUID b;
                random_uuids := random_uuids b; uuid_calls := S (uuid_calls b);
                iso_times := iso_times b; time_reads := time_reads b;
                console := console b |})
       else (Throw TypeError, b).

Definition new_Date_toISOString : Eff Browser jsval :=
  λ b, (Ok (JStr (iso_times b (time_reads b))),
        {| localStorage := localStorage b;
           has_crypto_randomUUID := has_crypto_randomUUID b;
           random_uuids := random_uuids b; uuid_calls := uuid_calls b;
           iso_times := iso_times b; time_reads := S (time_reads b);
           console := console b |}).

Definition console_error (msg : string) : Eff Browser unit :=
  modify (λ b, {| localStorage := localStorage b;
                  has_crypto_randomUUID := has_crypto_randomUUID b;
                  random_uuids := random_uuids b; uuid_calls := uuid_calls b;
                  iso_times := iso_times b; time_reads := time_reads b;
                  console := console b ++ [msg] |}).

Definition parse (d : text) : Eff Browser jsval :=
  match JSON_parse d with
  | Some v => mret v
  | None => throw SyntaxError
  end.

(** [a || b()] : the right operand is evaluated only when [a] is falsy. *)
Definition or_else_do (o : option jsval) (d : Eff Browser jsval) : Eff Browser jsval :=
  if truthy_opt o then mret (default JNull o) else d.

(** [Number(x) || 0] *)
Definition number_or_zero (x : float) : float :=
  if is_zero x || is_nan x then 0%float else x.

(** The arrow function passed to [parsed.map]; the fields are evaluated
    in the order the literal lists them. *)
Definition sanitize (t : jsval) : Eff Browser Transaction :=
  i ← get_prop t "id";
  i ← or_else_do i crypto_randomUUID;
  a ← get_prop t "amount";
  a ← Number_of a;
  d ← get_prop t "description";
  c ← get_prop t "category";
  dt ← get_prop t "date";
  dt ← or_else_do dt new_Date_toISOString;
  ty ← get_prop t "type";
  cu ← get_prop t "currency";
  mret {| tx_id := i;
          tx_amount := number_or_zero a;
          tx_description := or_else d (JStr "Tanpa Keterangan");
          tx_category := or_else c (JStr "Lainnya");
          tx_date := dt;
          tx_type := if is_str_opt ty "income" then INCOME else EXPENSE;
          tx_currency := or_else cu (JStr "IDR") |}.

Definition getTransactions : Eff Browser (list Transaction) :=
  data ← localStorage_getItem STORAGE_KEY;
  match data with
  | None => mret []
  | Some d =>
      if is_empty d then mret []
      else
        try_catch
          (parsed ← parse d;
           match parsed with
           | JArr l => mapM sanitize l
           | _ => mret []
           end)
          (λ e, _ ← console_error "Failed to parse transactions"; mret [])
  end.

Definition stringify_transactions (l : list Transaction) : text :=
  JSON_stringify (JArr (tx_to_js <$> l)).

Definition saveTransaction (transaction : Transaction) : Eff Browser (list Transaction) :=
  current ← getTransactions;
  let updated := transaction :: current in
  _ ← localStorage_setItem STORAGE_KEY (stringify_transactions updated);
  mret updated.

Definition overrideTransactions (transactions : list Transaction) : Eff Browser unit :=
  localStorage_setItem STORAGE_KEY (stringify_transactions transactions).

(** [t.id !== id] for a string [id]. *)
Definition id_differs (i : string) (t : Transaction) : bool :=
  negb (is_str (tx_id t) i).

Definition deleteTransaction (i : string) : Eff Browser (list Transaction) :=
  current ← getTransactions;
  let updated := List.filter (id_differs i) current in
  _ ← localStorage_setItem STORAGE_KEY (stringify_transactions updated);
  mret updated.

Definition clearAllTransactions : Eff Browser unit :=
  localStorage_setItem STORAGE_KEY (stringify_transactions []).

Definition getSettings : Eff Browser (gmap string jsval) :=
  data ← localStorage_getItem SETTINGS_KEY;
  match data with
  | None => mret DEFAULT_SETTINGS
  | Some d =>
      if is_empty d then mret DEFAULT_SETTINGS
      else
        try_catch
          (parsed ← parse d; mret (own_props parsed ∪ DEFAULT_SETTINGS))
          (λ _, mret DEFAULT_SETTINGS)
  end.

Definition saveSettings (settings : gmap string jsval) : Eff Browser unit :=
  localStorage_setItem SETTINGS_KEY (JSON_stringify (JObj settings)).

(** The browser once [ts] was written under the transaction key, and once
    [s] was written under the settings key. *)
Definition stored (ts : list Transaction) (b : Browser) : Browser :=
  (localStorage_setItem STORAGE_KEY (stringify_transactions ts) b).2.

Definition settings_stored (s : gmap string jsval) (b : Browser) : Browser :=
  (saveSettings s b).2.
End with_runtime.

Arguments Browser text : clear implicits.

(** *** The contract of the service, in the words of its specification *)

(** The entry has no usable value for [k]. *)
Definition lacks (k : string) (raw : jsval) : bool := negb (truthy_opt (field raw k)).

(** The entry makes the arrow function of [getTransactions] throw: it is
    [null]; or it has no usable [id] and the browser has no
    [crypto.randomUUID] ([crypto] tells whether it has); or [Number]
    cannot convert its [amount]. *)
Definition unreadable (crypto : bool) (raw : jsval) : bool :=
  bool_decide (raw = JNull)
  || (lacks "id" raw && negb crypto)
  || match field raw "amount" with Some a => ToPrimitive_throws a | None => false end.

(** Number of entries of [l] without a usable value for [k]. *)
Definition lacking (k : string) (l : list jsval) : nat :=
  length (List.filter (lacks k) l).

Section with_runtime.
Context {text : Type} `{!Runtime text}.

(** The defaulting table: what a raw entry becomes, given the identifier
    [fresh] generated for it and the current time [now]. *)
Definition defaulted (fresh now : string) (raw : jsval) : Transaction :=
  {| tx_id := or_else (field raw "id") (JStr fresh);
     tx_amount := number_or_zero (ToNumber_opt (field raw "amount"));
     tx_description := or_else (field raw "description") (JStr "Tanpa Keterangan");
     tx_category := or_else (field raw "category") (JStr "Lainnya");
     tx_date := or_else (field raw "date") (JStr now);
     tx_type := if is_str_opt (field raw "type") "income" then INCOME else EXPENSE;
     tx_currency := or_else (field raw "currency") (JStr "IDR") |}.

(** The browser after [n] more identifiers were generated and the time
    was read [m] more times. *)
Definition drawn (n m : nat) (b : Browser text) : Browser text :=
  {| localStorage := localStorage b;
     has_crypto_randomUUID := has_crypto_randomUUID b;
     random_uuids := random_uuids b; uuid_calls := uuid_calls b + n;
     iso_times := iso_times b; time_reads := time_reads b + m;
     console := console b |}.

(** The [i]-th entry of the stored list [l], sanitised in browser state
    [b]: the identifier and the time it may need are the next ones not
    used by the entries before it. *)
Definition defaulted_at (b : Browser text) (l : list jsval) (i : nat) (raw : jsval)
    : Transaction :=
  defaulted (random_uuids b (uuid_calls b + lacking "id" (take i l)))
            (iso_times b (time_reads b + lacking "date" (take i l))) raw.
End with_runtime.

(** A value that is kept by a write to storage followed by a read: it
    survives serialisation and is not replaced by a default. *)
Definition kept_value (v : jsval) : Prop := truthy v = true ∧ json_norm v = v.

(** A finite amount other than negative zero. *)
Definition kept_amount (a : float) : Prop :=
  is_finite a = true ∧ (is_zero a = true → a = 0%float).

Record persistable (t : Transaction) : Prop := {
  persistable_id : kept_value (tx_id t);
  persistable_amount : kept_amount (tx_amount t);
  persistable_description : kept_value (tx_description t);
  persistable_category : kept_value (tx_category t);
  persistable_date : kept_value (tx_date t);
  persistable_currency : kept_value (tx_currency t);
}.

(** A non-empty string. *)
Definition text_field (v : jsval) : Prop := ∃ s, v = JStr s ∧ s ≠ "".

(** A transaction as the declared types and the entry form have it: the
    five textual fields are non-empty strings and the amount is a finite
    number (other than negative zero, which is written as 0). *)
Record well_typed (t : Transaction) : Prop := {
  well_typed_id : text_field (tx_id t);
  well_typed_amount : kept_amount (tx_amount t);
  well_typed_description : text_field (tx_description t);
  well_typed_category : text_field (tx_category t);
  well_typed_date : text_field (tx_date t);
  well_typed_currency : text_field (tx_currency t);
}.

(** The transaction key is unused, or holds a list of persistable
    transactions as [JSON.stringify] writes it: the states the service
    itself produces from transactions of that kind. *)
Definition app_written {text : Type} `{!Runtime text} (b : Browser text) : Prop :=
  match localStorage b !! STORAGE_KEY with
  | None => True
  | Some d => ∃ ts, Forall persistable ts ∧ d = stringify_transactions ts
  end.

End Storage.

(** ** services/currency.ts *)

Module Currency.
Import JS.

Definition FRANKFURTER_API_URL : string := "https://api.frankfurter.app".

(** The declared members of [CurrencyCode]. *)
Definition CurrencyCode (c : string) : Prop := c = "IDR" ∨ c = "USD" ∨ c = "EUR".

Definition FALLBACK_RATES : gmap string float :=
  list_to_map
    [("USD", 1); ("EUR", 1.07); ("JPY", 0.0063); ("GBP", 1.27); ("AUD", 0.66);
     ("CAD", 0.73); ("CHF", 1.11); ("CNY", 0.14); ("IDR", 0.000062)]%float.

(** [60 * 60 * 1000] *)
Definition ONE_HOUR : float := (60 * 60 * 1000)%float.

Definition cacheKey (base : string) : string := "exchange_rates_" +:+ base.

Definition latest_url (base : string) : string :=
  FRANKFURTER_API_URL +:+ "/latest?from=" +:+ base.

(** [FALLBACK_RATES[base] || 1], as the number the rates are divided by.
    For a base that names a member of [Object.prototype] the lookup finds
    that member, which is truthy and NaN as a number. *)
Definition fallback_baseRate (base : string) : float :=
  match FALLBACK_RATES !! base with
  | Some r => if is_zero r || is_nan r then 1%float else r
  | None => if inherited base then nan else 1%float
  end.

(** The table built by the [for ... in] loop of the catch branch. *)
Definition relativeFallbackRates (base : string) : gmap string jsval :=
  (λ r, JNum (r / fallback_baseRate base)) <$> FALLBACK_RATES.

(** In strict code [delete v[k]] throws when [k] names a property that is
    not configurable: [length] of an array or of a string, and the indices
    of a string. *)
Definition delete_throws (v : jsval) (k : string) : bool :=
  match v with
  | JArr _ => bool_decide (k = "length")
  | JStr s => bool_decide (k = "length") || bool_decide (is_Some (own_props (JStr s) !! k))
  | JNull | JBool _ | JNum _ | JObj _ => false
  end.

(** [{ ...data.rates, [base]: 1 }], once [delete data.rates[base]] has run. *)
Definition ratesWithBase (base : string) (rates : jsval) : gmap string jsval :=
  <[base := JNum 1]> (delete base (own_props rates)).

(** The object [{ rates, timestamp }] written to the cache. *)
Definition cache_entry (rates : gmap string jsval) (timestamp : float) : jsval :=
  JObj (<["rates" := JObj rates]> (<["timestamp" := JNum timestamp]> ∅)).

Section with_runtime.
Context {text : Type} `{!Runtime text}.

(** What [fetch] settles to. *)
Inductive FetchOutcome :=
  | NetworkError
  | Response (ok : bool) (body : text).

(** The part of the browser the rate service touches.  [clock n] is what
    the [n]-th call of [Date.now()] returns; [network n u] is how the
    [n]-th [fetch] of the session settles when it asks for [u];
    [fetched] lists the URLs requested so far, oldest first. *)
Record World := {
  sessionStorage : gmap string text;
  clock : nat → float;
  clock_reads : nat;
  network : nat → string → FetchOutcome;
  fetched : list string;
  console : list string;
}.

Definition sessionStorage_getItem (k : string) : Eff World (option text) :=
  gets (λ w, sessionStorage w !! k).

Definition sessionStorage_setItem (k : string) (v : text) : Eff World unit :=
  modify (λ w, {| sessionStorage := <[k := v]> (sessionStorage w);
                  clock := clock w; clock_reads := clock_reads w;
                  network := network w; fetched := fetched w;
                  console := console w |}).

Definition Date_now : Eff World float :=
  λ w, (Ok (clock w (clock_reads w)),
        {| sessionStorage := sessionStorage w;
           clock := clock w; clock_reads := S (clock_reads w);
           network := network w; fetched := fetched w;
           console := console w |}).

Definition console_write (msg : string) : Eff World unit :=
  modify (λ w, {| sessionStorage := sessionStorage w;
                  clock := clock w; clock_reads := clock_reads w;
                  network := network w; fetched := fetched w;
                  console := console w ++ [msg] |}).

(** The world after a request for [u] was sent. *)
Definition requested (u : string) (w : World) : World :=
  {| sessionStorage := sessionStorage w;
     clock := clock w; clock_reads := clock_reads w;
     network := network w; fetched := fetched w ++ [u];
     console := console w |}.

(** [await fetch(u)]: records the request; a network error rejects. *)
Definition fetch (u : string) : Eff World (bool * text) :=
  λ w, match network w (length (fetched w)) u with
       | NetworkError => (Throw TypeError, requested u w)
       | Response ok body => (Ok (ok, body), requested u w)
       end.

Definition parse (d : text) : Eff World jsval :=
  match JSON_parse d with
  | Some v => mret v
  | None => throw SyntaxError
  end.

(** The cache lookup that opens [getLatestRates]: [Some rates] when the
    cached table is served, [None] when the network is to be asked.
    [JSON.parse] and the destructuring are outside the [try]. *)
Definition cache_lookup (base : string) : Eff World (option (option jsval)) :=
  cachedData ← sessionStorage_getItem (cacheKey base);
  match cachedData with
  | None => mret None
  | Some d =>
      if is_empty d then mret None
      else
        parsed ← parse d;
        rates ← get_prop parsed "rates";
        timestamp ← get_prop parsed "timestamp";
        now ← Date_now;
        if (now - ToNumber_opt timestamp <? ONE_HOUR)%float
        then _ ← console_write "Using cached exchange rates"; mret (Some rates)
        else mret None
  end.

Definition fetching_msg (base : string) : string :=
  "Fetching latest exchange rates for base: " +:+ base.

(** The body of the [try] block. *)
Definition fetch_rates (base : string) : Eff World (option jsval) :=
  _ ← console_write (fetching_msg base);
  response ← fetch (latest_url base);
  if negb response.1 then throw (Error "Failed to fetch exchange rates")
  else
    data ← parse response.2;
    rates ← get_prop data "rates";
    match rates with
    | None | Some JNull => throw TypeError
    | Some r =>
        if delete_throws r base then throw TypeError
        else
          now ← Date_now;
          _ ← sessionStorage_setItem (cacheKey base)
                (JSON_stringify (cache_entry (ratesWithBase base r) now));
          mret (Some (JObj (ratesWithBase base r)))
    end.

(** The [catch] block. *)
Definition use_fallback (base : string) : Eff World (option jsval) :=
  _ ← console_write "Error fetching exchange rates:";
  _ ← console_write "Using fallback exchange rates";
  mret (Some (JObj (relativeFallbackRates base))).

(** The value the returned promise resolves to ([None] is [undefined]);
    a [Throw] is a rejection.  A call runs to its end before the next one
    starts: what happens at an [await] is what the oracles of the world
    answer. *)
Definition getLatestRates (base : string) : Eff World (option jsval) :=
  hit ← cache_lookup base;
  match hit with
  | Some rates => mret rates
  | None => try_catch (fetch_rates base) (λ _, use_fallback base)
  end.

(** The world after the clock was read, and after a line was written to
    the console. *)
Definition ticked (w : World) : World := (Date_now w).2.
Definition logged (msg : string) (w : World) : World := (console_write msg w).2.

(** The world after [table] was cached for [base] with time stamp [ts]. *)
Definition cached (base : string) (table : gmap string jsval) (ts : float)
    (w : World) : World :=
  (sessionStorage_setItem (cacheKey base) (JSON_stringify (cache_entry table ts)) w).2.

(** The time stamp as it is read back from the cache. *)
Definition stored_timestamp (ts : float) : float := ToNumber (json_norm (JNum ts)).

(** What the next call of [Date.now()] returns. *)
Definition next_now (w : World) : float := clock w (clock_reads w).

(** Two worlds with the same session storage, network, request log and
    clock. *)
Definition same_session (w w' : World) : Prop :=
  sessionStorage w' = sessionStorage w ∧ network w' = network w
  ∧ fetched w' = fetched w ∧ clock w' = clock w.


(** The cache holds, for every base, only what [getLatestRates] writes
    there: a document with an object of rates whose entry for the base
    is 1. *)
Definition cache_wf (w : World) : Prop :=
  ∀ base d, sessionStorage w !! cacheKey base = Some d →
    ∃ m ts, JSON_parse d = Some (JObj (<["rates" := JObj m]> (<["timestamp" := ts]> ∅)))
            ∧ m !! base = Some (JNum 1).

(** The world after [getLatestRates] was called for each of [bases] in
    turn; the clock and the network answer as the world's oracles say. *)
Fixpoint after_calls (bases : list string) (w : World) : World :=
  match bases with
  | [] => w
  | base :: rest => after_calls rest (getLatestRates base w).2
  end.

(** The rate request was answered with a document the service accepts. *)
Definition fetch_succeeds (w : World) (base : string) (r : jsval) : Prop :=
  ∃ body data,
    network w (length (fetched w)) (latest_url base) = Response true body
    ∧ JSON_parse body = Some (JObj data)
    ∧ data !! "rates" = Some r ∧ r ≠ JNull ∧ delete_throws r base = false.

(** The network call or the reading of its response fails. *)
Definition fetch_fails (w : World) (base : string) : Prop :=
  match network w (length (fetched w)) (latest_url base) with
  | NetworkError => True
  | Response ok body => ok = false ∨ JSON_parse body = None
  end.
End with_runtime.

Arguments World text : clear implicits.
Arguments FetchOutcome text : clear implicits.

End Currency.

(** ** App.tsx *)

Module App.
Import JS.

Section with_runtime.
Context {text : Type} `{!Runtime text}.

(** The two pieces of component state [convertAmount] closes over. *)
Record RatesState := {
  exchangeRates : option (gmap string jsval);
  isLoadingRates : bool;
}.

(** [!exchangeRates || isLoadingRates] *)
Definition rates_unavailable (st : RatesState) : bool :=
  match exchangeRates st with None => true | Some _ => false end || isLoadingRates st.

Definition warning (from to : string) (loading : bool) : string :=
  "Exchange rates not found for conversion from " +:+ from +:+ " to " +:+ to
  +:+ ". Rates loading: " +:+ (if loading then "true" else "false")
  +:+ ". Using original amount.".

(** The number returned, and the warnings written to the console.  A rate
    is looked up as a property, so a name that objects inherit is found
    without an entry ([get_member]).  The arithmetic is that of a table
    whose entries convert to a number ([ExchangeRates] is
    [Record<string, number>]); an entry with [ToPrimitive_throws] has no
    quotient. *)
Definition convertAmount (st : RatesState) (amount : float) (from to : string)
    : float * list string :=
  if bool_decide (from = to) || rates_unavailable st
  then ((if bool_decide (from = to) then amount else 0)%float, [])
  else
    let rates := default ∅ (exchangeRates st) in
    let fromRate := get_member rates from in
    let toRate := get_member rates to in
    if truthy_member fromRate && truthy_member toRate
    then
      let amountInBase := (amount / ToNumber_member fromRate)%float in
      let finalAmount := (amountInBase * ToNumber_member toRate)%float in
      (finalAmount, [])
    else (amount, [warning from to (isLoadingRates st)]).
End with_runtime.

End App.

(** ** public/sw.js *)

Module ServiceWorker.

Definition STATIC_CACHE : string := "sakuku-static-v1.2.0".
Definition DYNAMIC_CACHE : string := "sakuku-dynamic-v1.2.0".

Definition STATIC_ASSETS : list string :=
  ["/"; "/index.html"; "/manifest.json"; "/icon-192.png"; "/icon-512.png"].

Record URL := {
  protocol : string;
  hostname : string;
  pathname : string;
}.

(** The string a cache is keyed by. *)
Definition href (u : URL) : string := protocol u +:+ "//" +:+ hostname u +:+ pathname u.

Record Request := {
  method : string;
  url : URL;
  mode : string;
}.

Record Response := {
  ok : bool;
  body : string;
}.

(** A named cache maps request URLs to responses; [CacheStorage] keeps the
    caches in the order they were created, which is the order
    [caches.match] searches them in. *)
Definition CacheStorage : Type := list (string * gmap string Response).

(** The worker's surroundings: its cache storage, its own origin (against
    which a path such as ['/index.html'] is resolved) and what the network
    answers for a URL, [None] when it is unreachable. *)
Record Worker := {
  caches : CacheStorage;
  origin_protocol : string;
  origin_hostname : string;
  network : string → option Response;
}.

Definition with_caches (w : Worker) (c : CacheStorage) : Worker :=
  {| caches := c; origin_protocol := origin_protocol w;
     origin_hostname := origin_hostname w; network := network w |}.

(** The URL a path denotes in the worker's scope. *)
Definition resolve (w : Worker) (path : string) : URL :=
  {| protocol := origin_protocol w; hostname := origin_hostname w; pathname := path |}.

(** [s.includes(sub)] *)
Definition includes (s sub : string) : bool :=
  match String.index 0 sub s with Some _ => true | None => false end.

(** [caches.open(name)]: creates the cache when there is none of that name. *)
Definition caches_open (name : string) (c : CacheStorage) : CacheStorage :=
  match list_find (λ e, e.1 = name) c with
  | Some _ => c
  | None => c ++ [(name, ∅)]
  end.

Definition cache_of (name : string) (c : CacheStorage) : gmap string Response :=
  match list_find (λ e, e.1 = name) c with
  | Some (_, e) => e.2
  | None => ∅
  end.

(** [cache.put(key, response)] on the cache called [name]. *)
Definition cache_put (name key : string) (r : Response) (c : CacheStorage) : CacheStorage :=
  (λ e : string * gmap string Response,
     if bool_decide (e.1 = name) then (e.1, <[key := r]> e.2) else e) <$> c.

(** [cache.match(key)] on the cache called [name]. *)
Definition cache_match (name key : string) (c : CacheStorage) : option Response :=
  cache_of name c !! key.

(** [caches.match(key)]: the first cache, in creation order, that has it. *)
Fixpoint caches_match (key : string) (c : CacheStorage) : option Response :=
  match c with
  | [] => None
  | (_, e) :: rest =>
      match e !! key with
      | Some r => Some r
      | None => caches_match key rest
      end
  end.

(** The install handler.  [cache.addAll] requests every asset and stores
    them only when every request was answered with an ok response; [None]
    is a failed installation. *)
Definition install (w : Worker) : option Worker :=
  let opened := caches_open STATIC_CACHE (caches w) in
  let keys := (λ p, href (resolve w p)) <$> STATIC_ASSETS in
  responses ← mapM (λ k, r ← network w k; if ok r then Some (k, r) else None) keys;
  Some (with_caches w (foldl (λ c kr, cache_put STATIC_CACHE kr.1 kr.2 c) opened responses)).

(** The activate handler: every cache of another name is deleted. *)
Definition activate (w : Worker) : Worker :=
  with_caches w
    (List.filter (λ e, negb (negb (bool_decide (e.1 = STATIC_CACHE))
                             && negb (bool_decide (e.1 = DYNAMIC_CACHE)))) (caches w)).

(** What the fetch handler does with an event: it returns without
    responding, or it responds with a promise that settles to a response or
    to [undefined] (which the browser turns into a network error). *)
Inductive Handled :=
  | PassThrough
  | RespondWith (r : option Response).

Definition is_api_host (h : string) : bool :=
  includes h "googleapis.com" || includes h "generativelanguage.googleapis.com".

(** Network first, for the API hosts. *)
Definition api_strategy (key : string) (w : Worker) : Handled * Worker :=
  match network w key with
  | Some response =>
      if ok response
      then (RespondWith (Some response),
            with_caches w (cache_put DYNAMIC_CACHE key response (caches_open DYNAMIC_CACHE (caches w))))
      else (RespondWith (Some response), w)
  | None => (RespondWith (caches_match key (caches w)), w)
  end.

(** Network first, for navigations. *)
Definition navigate_strategy (key : string) (w : Worker) : Handled * Worker :=
  match network w key with
  | Some response =>
      (RespondWith (Some response),
       with_caches w (cache_put DYNAMIC_CACHE key response (caches_open DYNAMIC_CACHE (caches w))))
  | None =>
      let opened := caches_open DYNAMIC_CACHE (caches w) in
      (RespondWith
         (match cache_match DYNAMIC_CACHE key opened with
          | Some r => Some r
          | None => cache_match DYNAMIC_CACHE (href (resolve w "/index.html")) opened
          end),
       with_caches w opened)
  end.

(** Cache first, for everything else. *)
Definition static_strategy (key : string) (w : Worker) : Handled * Worker :=
  match caches_match key (caches w) with
  | Some cachedResponse => (RespondWith (Some cachedResponse), w)
  | None =>
      match network w key with
      | Some response =>
          if negb (ok response) then (RespondWith (Some response), w)
          else (RespondWith (Some response),
                with_caches w (cache_put DYNAMIC_CACHE key response
                                 (caches_open DYNAMIC_CACHE (caches w))))
      | None => (RespondWith (caches_match key (caches w)), w)
      end
  end.

(** The fetch handler. *)
Definition on_fetch (request : Request) (w : Worker) : Handled * Worker :=
  if negb (bool_decide (method request = "GET")) then (PassThrough, w)
  else if bool_decide (protocol (url request) = "chrome-extension:") then (PassThrough, w)
  else if is_api_host (hostname (url request)) then api_strategy (href (url request)) w
  else if bool_decide (mode request = "navigate") then navigate_strategy (href (url request)) w
  else static_strategy (href (url request)) w.

(** A worker that was just installed and activated in a browser without
    caches, at origin [https://sakuku.app], while the network served the
    shell document [shell] for every shell asset. *)
Definition shell : Response := {| ok := true; body := "<!doctype html><title>Sakuku</title>" |}.

Definition fresh_worker (net : string → option Response) : Worker :=
  {| caches := []; origin_protocol := "https:"; origin_hostname := "sakuku.app";
     network := net |}.

Definition go_offline (w : Worker) : Worker :=
  {| caches := caches w; origin_protocol := origin_protocol w;
     origin_hostname := origin_hostname w; network := λ _, None |}.

Definition installed_worker : option Worker :=
  activate <$> install (fresh_worker (λ _, Some shell)).

Definition root_navigation : Request :=
  {| method := "GET";
     url := {| protocol := "https:"; hostname := "sakuku.app"; pathname := "/" |};
     mode := "navigate" |}.

End ServiceWorker.

(** ** Concrete states, on the example runtime *)

Module Examples.
Import JS.

Module OfStorage.
Import Storage.

(** A browser holding [ls], whose identifier generator counts up. *)
Definition browser (ls : gmap string doc) : Browser doc :=
  {| localStorage := ls; has_crypto_randomUUID := true;
     random_uuids := pretty; uuid_calls := 0;
     iso_times := λ n, "2025-01-01T00:00:0" +:+ pretty n +:+ ".000Z"; time_reads := 0;
     console := [] |}.

(** The same browser without [crypto.randomUUID]. *)
Definition old_browser (ls : gmap string doc) : Browser doc :=
  {| localStorage := ls; has_crypto_randomUUID := false;
     random_uuids := pretty; uuid_calls := 0;
     iso_times := λ n, "2025-01-01T00:00:0" +:+ pretty n +:+ ".000Z"; time_reads := 0;
     console := [] |}.

Definition salary : Transaction :=
  {| tx_id := JStr "a1"; tx_amount := 5000000; tx_description := JStr "Salary";
     tx_category := JStr "Income"; tx_date := JStr "2025-01-01T09:00:00.000Z";
     tx_type := INCOME; tx_currency := JStr "IDR" |}.

Definition lunch : Transaction :=
  {| tx_id := JStr "7c9e6679"; tx_amount := 25000; tx_description := JStr "Lunch";
     tx_category := JStr "Food"; tx_date := JStr "2025-01-01T12:00:00.000Z";
     tx_type := EXPENSE; tx_currency := JStr "IDR" |}.


Definition salary_entry : jsval :=
  JObj (<["id" := JStr "a1"]> (<["amount" := JNum 5000000]>
       (<["type" := JStr "income"]> ∅))).

(** [[{"id":"a1","amount":5000000,"type":"income"},{}]] *)
Definition two_entries : doc := Doc (JArr [salary_entry; JObj ∅]).

(** [[{"id":"a1","amount":5000000,"type":"income"},null]] *)
Definition entry_and_null : doc := Doc (JArr [salary_entry; JNull]).

Definition light_theme : gmap string jsval := {[ "theme" := JStr "light" ]}.
End OfStorage.

Module OfCurrency.
Import Currency.

(** A session that starts with an empty cache at 1 January 2025, the
    clock advancing one second per reading. *)
Definition session (net : nat → string → FetchOutcome doc) : World doc :=
  {| sessionStorage := ∅;
     clock := λ n, (1735689600000 + Nat.iter n (λ x, x + 1000) 0)%float;
     clock_reads := 0; network := net; fetched := []; console := [] |}.

Definition usd_rates : jsval :=
  JObj (<["EUR" := JNum 0.92]> (<["IDR" := JNum 16000]> ∅)).

Definition usd_response : gmap string jsval :=
  <["amount" := JNum 1]> (<["base" := JStr "USD"]> (<["rates" := usd_rates]> ∅)).

Definition online : nat → string → FetchOutcome doc :=
  λ _ _, Response true (Doc (JObj usd_response)).

Definition offline : nat → string → FetchOutcome doc := λ _ _, NetworkError.
End OfCurrency.

Module OfApp.
Import App.

Definition usd_table : gmap string jsval :=
  <["USD" := JNum 1]> (<["EUR" := JNum 0.92]> ∅).

Definition loaded : RatesState :=
  {| exchangeRates := Some usd_table; isLoadingRates := false |}.

(** The table of an earlier load is still in place while the next load
    is under way. *)
Definition reloading : RatesState :=
  {| exchangeRates := Some usd_table; isLoadingRates := true |}.
End OfApp.

End Examples.

(** ** App.tsx: the handlers that change the list and the settings *)

Module Handlers.
Import JS Storage.

Inductive ConfirmType := single | bulk | all.

(** [confirmState]; [None] is [null], or an absent [ids]. *)
Record ConfirmState := {
  isOpen : bool;
  confirm_type : option ConfirmType;
  confirm_id : option string;
  confirm_ids : option (list string);
}.

(** [{ isOpen: false, type: null, id: null }] *)
Definition closed : ConfirmState :=
  {| isOpen := false; confirm_type := None; confirm_id := None; confirm_ids := None |}.

(** [Omit<Transaction, 'id'>] *)
Record NewTransaction := {
  new_amount : float;
  new_description : jsval;
  new_category : jsval;
  new_date : jsval;
  new_type : TransactionType;
  new_currency : jsval;
}.

(** [{ ...newTx, id }] *)
Definition with_id (newTx : NewTransaction) (i : jsval) : Transaction :=
  {| tx_id := i; tx_amount := new_amount newTx; tx_description := new_description newTx;
     tx_category := new_category newTx; tx_date := new_date newTx;
     tx_type := new_type newTx; tx_currency := new_currency newTx |}.

(** [v.toString(16)] for an integer [v]. *)
Definition toString16 (v : Z) : string := NilZero.string_of_int (Z.to_hex_int v).

(** The first character of [v.toString(16)]. *)
Definition hex_char (v : Z) : ascii :=
  match toString16 v with String c _ => c | EmptyString => "0"%char end.

Definition is_hex (c : ascii) : bool :=
  bool_decide (c ∈ String.list_ascii_of_string "0123456789abcdef").

(** What the fallback generator makes of a character of its template: an
    [x] becomes a hexadecimal digit, a [y] one of 8, 9, a, b, and any other
    character stays. *)
Definition generated_from (template_char c : ascii) : Prop :=
  if bool_decide (template_char = "x"%char) then is_hex c = true
  else if bool_decide (template_char = "y"%char)
       then c ∈ String.list_ascii_of_string "89ab"
       else c = template_char.

(** [finalIds.has(t.id)] for the set of the strings [ids]. *)
Definition has (ids : list string) (v : jsval) : bool :=
  match v with JStr s => bool_decide (s ∈ ids) | _ => false end.

Definition UUID_TEMPLATE : string := "xxxxxxxx-xxxx-4xxx-yxxx-xxxxxxxxxxxx".

(** [template.replace(/[xy]/g, c => ...)]: every [x] and [y] is replaced
    by what the callback returns for it, from left to right; [rnd n] is the
    value of [Math.random() * 16 | 0] at the [n]-th call. *)
Fixpoint replace_xy (rnd : nat → Z) (n : nat) (template : string) : string * nat :=
  match template with
  | EmptyString => (EmptyString, n)
  | String c rest =>
      if bool_decide (c = "x"%char) || bool_decide (c = "y"%char)
      then
        let r := rnd n in
        let v := if bool_decide (c = "x"%char) then r else Z.lor (Z.land r 3) 8 in
        let '(s, n') := replace_xy rnd (S n) rest in
        (toString16 v +:+ s, n')
      else
        let '(s, n') := replace_xy rnd n rest in
        (String c s, n')
  end.

Section with_runtime.
Context {text : Type} `{!Runtime text}.

(** The page: the browser, the component state the handlers read and set,
    and the class list of the document element.  [random16 n] is the
    [n]-th value of [Math.random() * 16 | 0]. *)
Record Page := {
  browser : Browser text;
  random16 : nat → Z;
  random_calls : nat;
  transactions : list Transaction;
  settings : gmap string jsval;
  isModalOpen : bool;
  confirmState : ConfirmState;
  light_mode : bool;
}.

(** [typeof crypto !== 'undefined' && crypto.randomUUID] *)
Definition has_randomUUID (p : Page) : bool := has_crypto_randomUUID (browser p).

Definition set_browser (b : Browser text) (p : Page) : Page :=
  {| browser := b; random16 := random16 p;
     random_calls := random_calls p; transactions := transactions p;
     settings := settings p; isModalOpen := isModalOpen p;
     confirmState := confirmState p; light_mode := light_mode p |}.

(** A call into the storage service. *)
Definition in_browser {A} (m : Eff (Browser text) A) : Eff Page A :=
  λ p, ((m (browser p)).1, set_browser (m (browser p)).2 p).

Definition setTransactions (ts : list Transaction) : Eff Page unit :=
  modify (λ p, {| browser := browser p;
                  random16 := random16 p; random_calls := random_calls p;
                  transactions := ts; settings := settings p;
                  isModalOpen := isModalOpen p; confirmState := confirmState p;
                  light_mode := light_mode p |}).

Definition setSettings (s : gmap string jsval) : Eff Page unit :=
  modify (λ p, {| browser := browser p;
                  random16 := random16 p; random_calls := random_calls p;
                  transactions := transactions p; settings := s;
                  isModalOpen := isModalOpen p; confirmState := confirmState p;
                  light_mode := light_mode p |}).

Definition setIsModalOpen (o : bool) : Eff Page unit :=
  modify (λ p, {| browser := browser p;
                  random16 := random16 p; random_calls := random_calls p;
                  transactions := transactions p; settings := settings p;
                  isModalOpen := o; confirmState := confirmState p;
                  light_mode := light_mode p |}).

Definition setConfirmState (c : ConfirmState) : Eff Page unit :=
  modify (λ p, {| browser := browser p;
                  random16 := random16 p; random_calls := random_calls p;
                  transactions := transactions p; settings := settings p;
                  isModalOpen := isModalOpen p; confirmState := c;
                  light_mode := light_mode p |}).

(** [applyTheme]: the class [light-mode] is added for the theme [light]
    and removed for any other. *)
Definition applyTheme (theme : option jsval) : Eff Page unit :=
  modify (λ p, {| browser := browser p;
                  random16 := random16 p; random_calls := random_calls p;
                  transactions := transactions p; settings := settings p;
                  isModalOpen := isModalOpen p; confirmState := confirmState p;
                  light_mode := is_str_opt theme "light" |}).

(** The fallback of [generateUUID] for browsers without
    [crypto.randomUUID]. *)
Definition uuid_polyfill : Eff Page jsval :=
  λ p, let '(s, n) := replace_xy (random16 p) (random_calls p) UUID_TEMPLATE in
       (Ok (JStr s),
        {| browser := browser p;
           random16 := random16 p; random_calls := n;
           transactions := transactions p; settings := settings p;
           isModalOpen := isModalOpen p; confirmState := confirmState p;
           light_mode := light_mode p |}).

Definition generateUUID : Eff Page jsval :=
  λ p, if has_randomUUID p then in_browser crypto_randomUUID p else uuid_polyfill p.

(** The effect run when the component is mounted. *)
Definition load_initial_data : Eff Page unit :=
  ts ← in_browser getTransactions;
  _ ← setTransactions ts;
  savedSettings ← in_browser getSettings;
  _ ← setSettings savedSettings;
  applyTheme (savedSettings !! "theme").

(** [handleUpdateSettings] runs this, inside a view transition where the
    browser has them. *)
Definition updateSettingsLogic (newSettings : gmap string jsval) : Eff Page unit :=
  _ ← setSettings newSettings;
  _ ← in_browser (saveSettings newSettings);
  applyTheme (newSettings !! "theme").

Definition handleAddTransaction (newTx : NewTransaction) : Eff Page unit :=
  i ← generateUUID;
  updated ← in_browser (saveTransaction (with_id newTx i));
  _ ← setTransactions updated;
  setIsModalOpen false.

Definition initiateDeleteTransaction (i : string) : Eff Page unit :=
  setConfirmState {| isOpen := true; confirm_type := Some single;
                     confirm_id := Some i; confirm_ids := None |}.

Definition initiateDeleteMultiple (ids : list string) : Eff Page unit :=
  setConfirmState {| isOpen := true; confirm_type := Some bulk;
                     confirm_id := None; confirm_ids := Some ids |}.

Definition initiateClearAllData : Eff Page unit :=
  setConfirmState {| isOpen := true; confirm_type := Some all;
                     confirm_id := None; confirm_ids := None |}.

(** [ids.forEach(id => { updated = deleteTransaction(id); })] *)
Fixpoint delete_each (ids : list string) : Eff (Browser text) unit :=
  match ids with
  | [] => mret tt
  | i :: rest => _ ← deleteTransaction i; delete_each rest
  end.

(** The three branches of [handleConfirmAction] read the state of the
    render the handler belongs to. *)
Definition confirmed_action (p : Page) : Eff Page unit :=
  match confirm_type (confirmState p), confirm_id (confirmState p),
        confirm_ids (confirmState p) with
  | Some single, Some i, _ =>
      if bool_decide (i = "") then mret tt
      else updated ← in_browser (deleteTransaction i); setTransactions updated
  | Some bulk, _, Some ids =>
      _ ← in_browser (delete_each ids);
      let remaining := List.filter (λ t, negb (has ids (tx_id t))) (transactions p) in
      _ ← in_browser (overrideTransactions remaining);
      setTransactions remaining
  | Some all, _, _ =>
      _ ← in_browser clearAllTransactions;
      setTransactions []
  | _, _, _ => mret tt
  end.

Definition handleConfirmAction : Eff Page unit :=
  λ p, (_ ← confirmed_action p; setConfirmState closed) p.

Definition handleCancelAction : Eff Page unit := setConfirmState closed.

(** What the user can do to the list. *)
Inductive action :=
  | Add (newTx : NewTransaction)
  | AskDelete (i : string)
  | AskDeleteMany (ids : list string)
  | AskClear
  | Confirm
  | Cancel.

Definition perform (a : action) : Eff Page unit :=
  match a with
  | Add newTx => handleAddTransaction newTx
  | AskDelete i => initiateDeleteTransaction i
  | AskDeleteMany ids => initiateDeleteMultiple ids
  | AskClear => initiateClearAllData
  | Confirm => handleConfirmAction
  | Cancel => handleCancelAction
  end.

Fixpoint perform_all (l : list action) (p : Page) : Page :=
  match l with
  | [] => p
  | a :: rest => perform_all rest (perform a p).2
  end.

(** The transaction key holds the list [ts] as the service writes it; a
    key never written holds the empty list. *)
Definition holds (b : Browser text) (ts : list Transaction) : Prop :=
  localStorage b !! STORAGE_KEY = Some (stringify_transactions ts)
  ∨ (localStorage b !! STORAGE_KEY = None ∧ ts = []).

(** The list on screen is the list in storage, made of transactions that
    are read back as they are. *)
Definition in_sync (p : Page) : Prop :=
  Forall persistable (transactions p) ∧ holds (browser p) (transactions p).

(** What the entry form hands over: fields that survive a write and a
    read. *)
Record acceptable (newTx : NewTransaction) : Prop := {
  acceptable_amount : kept_amount (new_amount newTx);
  acceptable_description : kept_value (new_description newTx);
  acceptable_category : kept_value (new_category newTx);
  acceptable_date : kept_value (new_date newTx);
  acceptable_currency : kept_value (new_currency newTx);
}.

Definition acceptable_action (a : action) : Prop :=
  match a with Add newTx => acceptable newTx | _ => True end.

(** The identifiers [crypto.randomUUID] returns are not empty, and
    [Math.random() * 16 | 0] is an integer from 0 to 15. *)
Definition sound_generators (p : Page) : Prop :=
  (∀ n, random_uuids (browser p) n ≠ "") ∧ (∀ n, (0 ≤ random16 p n < 16)%Z).
End with_runtime.

Arguments Page text : clear implicits.

End Handlers.

(** ** App.tsx: the effect that loads the exchange rates *)

Module RatesEffect.
Import JS Currency App.

Section with_runtime.
Context {text : Type} `{!Runtime text}.

(** The state the rates effect sets, beside the world the rate service
    runs in. *)
Record RatesPage := {
  rates : RatesState;
  world : World text;
}.

(** A call into the rate service. *)
Definition in_world {A} (m : Eff (World text) A) : Eff RatesPage A :=
  λ p, ((m (world p)).1, {| rates := rates p; world := (m (world p)).2 |}).

Definition setIsLoadingRates (loading : bool) : Eff RatesPage unit :=
  modify (λ p, {| rates := {| exchangeRates := exchangeRates (rates p);
                              isLoadingRates := loading |};
                  world := world p |}).

(** What [convertAmount] sees of the value [setExchangeRates] was given:
    no table for a falsy value, else the properties a currency code can
    name (own properties other than [length]). *)
Definition table_of (v : option jsval) : option (gmap string jsval) :=
  match v with
  | Some v => if truthy v then Some (own_props v) else None
  | None => None
  end.

Definition setExchangeRates (v : option jsval) : Eff RatesPage unit :=
  modify (λ p, {| rates := {| exchangeRates := table_of v;
                              isLoadingRates := isLoadingRates (rates p) |};
                  world := world p |}).

(** The effect run when [settings.currency] changes, for a currency that
    is a string: nothing happens for the empty string, and a rejection of
    [getLatestRates] ends the effect where it is. *)
Definition fetchRates (currency : string) : Eff RatesPage unit :=
  if bool_decide (currency = "") then mret tt
  else
    _ ← setIsLoadingRates true;
    fetched_rates ← in_world (getLatestRates currency);
    _ ← setExchangeRates fetched_rates;
    setIsLoadingRates false.
End with_runtime.

Arguments RatesPage text : clear implicits.

End RatesEffect.

(** ** Further example data *)

Module MoreExamples.
Import JS.

Module OfHandlers.
Import Storage Handlers.

(** A browser with an unused storage, whose identifiers are [id-0],
    [id-1], ... *)
Definition device : Browser doc :=
  {| localStorage := ∅; has_crypto_randomUUID := true;
     random_uuids := λ n, "id-" +:+ pretty n; uuid_calls := 0;
     iso_times := λ n, "2025-01-01T00:00:0" +:+ pretty n +:+ ".000Z"; time_reads := 0;
     console := [] |}.

Definition coffee : NewTransaction :=
  {| new_amount := 18000; new_description := JStr "Coffee"; new_category := JStr "Food";
     new_date := JStr "2025-01-02T08:00:00.000Z"; new_type := EXPENSE;
     new_currency := JStr "IDR" |}.

(** A page that shows the list [ts], which is also what its storage
    holds, with the confirmation dialog in state [c]. *)
Definition page_showing (ts : list Transaction) (c : ConfirmState) : Page doc :=
  {| browser := stored ts device;
     random16 := λ n, (Z.of_nat n `mod` 16)%Z; random_calls := 0;
     transactions := ts; settings := DEFAULT_SETTINGS; isModalOpen := false;
     confirmState := c; light_mode := false |}.

(** The same in a browser without [crypto.randomUUID]. *)
Definition old_device : Browser doc :=
  {| localStorage := ∅; has_crypto_randomUUID := false;
     random_uuids := λ n, "id-" +:+ pretty n; uuid_calls := 0;
     iso_times := λ n, "2025-01-01T00:00:0" +:+ pretty n +:+ ".000Z"; time_reads := 0;
     console := [] |}.

Definition old_browser_page (ts : list Transaction) : Page doc :=
  {| browser := stored ts old_device;
     random16 := λ n, (Z.of_nat n `mod` 16)%Z; random_calls := 0;
     transactions := ts; settings := DEFAULT_SETTINGS; isModalOpen := false;
     confirmState := closed; light_mode := false |}.

Definition asking_single (i : string) : ConfirmState :=
  {| isOpen := true; confirm_type := Some single; confirm_id := Some i;
     confirm_ids := None |}.

Definition asking_bulk (ids : list string) : ConfirmState :=
  {| isOpen := true; confirm_type := Some bulk; confirm_id := None;
     confirm_ids := Some ids |}.
End OfHandlers.

Module OfWorker.
Import ServiceWorker.

Definition logo : Response := {| ok := true; body := "<svg/>" |}.

Definition not_found : Response := {| ok := false; body := "Not Found" |}.

Definition logo_request : Request :=
  {| method := "GET";
     url := {| protocol := "https:"; hostname := "sakuku.app"; pathname := "/logo.svg" |};
     mode := "no-cors" |}.

Definition api_request : Request :=
  {| method := "GET";
     url := {| protocol := "https:"; hostname := "generativelanguage.googleapis.com";
               pathname := "/v1beta/models" |};
     mode := "cors" |}.
End OfWorker.

Module OfRates.
Import Currency App RatesEffect.

(** A session whose cache entry for USD is not JSON text. *)
Definition corrupted : World doc :=
  {| sessionStorage := {[ cacheKey "USD" := Malformed "{" ]};
     clock := λ n, (1735689600000 + Nat.iter n (λ x, x + 1000) 0)%float;
     clock_reads := 0; network := Examples.OfCurrency.online; fetched := [];
     console := [] |}.

(** The page before any table was loaded. *)
Definition first_render (w : World doc) : RatesPage doc :=
  {| rates := {| exchangeRates := None; isLoadingRates := false |}; world := w |}.
End OfRates.

End MoreExamples.

(** * Properties *)

Module EffProofs.
Import JS.

(** Unfolding of the monad's operations. *)
Ltac run :=
  repeat (progress (unfold mbind, mret, Eff_bind, Eff_ret, eff_bind, eff_ret, throw,
                    try_catch, gets, modify; simpl)).

Lemma bind_run {S A B} (m : Eff S A) (f : A → Eff S B) (s : S) :
  (m ≫= f) s = match m s with
               | (Ok a, s') => f a s'
               | (Throw e, s') => (Throw e, s')
               end.
Proof. reflexivity. Qed.

Lemma ret_run {S A} (a : A) (s : S) : (mret a : Eff S A) s = (Ok a, s).
Proof. reflexivity. Qed.

Lemma mapM_cons {S A B} (f : A → Eff S B) (x : A) (l : list A) :
  mapM f (x :: l) = y ← f x; k ← mapM f l; mret (y :: k).
Proof. reflexivity. Qed.

Lemma match_not_null {X} (v : jsval) (a b : X) :
  v ≠ JNull → match v with JNull => a | _ => b end = b.
Proof. by destruct v. Qed.

Lemma get_prop_run {S} (v : jsval) (k : string) (s : S) :
  get_prop v k s = match v with
                   | JNull => (Throw TypeError, s)
                   | _ => (Ok (field v k), s)
                   end.
Proof. by destruct v. Qed.
End EffProofs.

(** ** The storage service *)

Module StorageProofs.
Import JS Storage EffProofs.

Section with_runtime.
Context {text : Type} `{!Runtime text}.
Implicit Types (b : Browser text) (l : list jsval) (t : Transaction).

Lemma drawn_0 b : drawn 0 0 b = b.
Proof. destruct b; unfold drawn; simpl. by rewrite !Nat.add_0_r. Qed.

Lemma drawn_drawn n m n' m' b : drawn n' m' (drawn n m b) = drawn (n + n') (m + m') b.
Proof. unfold drawn; simpl. f_equal; lia. Qed.

Lemma get_prop_field raw k b :
  raw ≠ JNull → get_prop raw k b = (Ok (field raw k), b).
Proof. by destruct raw. Qed.

Lemma or_else_do_run o (d : Eff (Browser text) jsval) b :
  or_else_do o d b = if truthy_opt o then (Ok (default JNull o), b) else d b.
Proof. unfold or_else_do. by destruct (truthy_opt o). Qed.

Lemma or_else_truthy o d : truthy_opt o = true → or_else o d = default JNull o.
Proof. destruct o as [v|]; simpl; [|done]. by intros ->. Qed.

Lemma or_else_falsy o d : truthy_opt o = false → or_else o d = d.
Proof. destruct o as [v|]; simpl; [|done]. by intros ->. Qed.

Lemma unreadable_false crypto raw :
  unreadable crypto raw = false ↔
    raw ≠ JNull
    ∧ (lacks "id" raw = true → crypto = true)
    ∧ match field raw "amount" with Some a => ToPrimitive_throws a | None => false end
      = false.
Proof.
  unfold unreadable. rewrite !orb_false_iff, bool_decide_eq_false, andb_false_iff,
    negb_false_iff.
  split.
  - intros [[Hnn Hid] Ha]. split; [done|]. split; [|done].
    intros Hl. destruct Hid as [Hid|Hid]; congruence.
  - intros (Hnn & Hid & Ha). split; [split; [done|]|done].
    destruct (lacks "id" raw); [right; by apply Hid|by left].
Qed.

(** One readable entry: the defaulting table applies, and an identifier
    or a time is consumed exactly when the entry lacks one. *)
Lemma sanitize_readable raw b :
  unreadable (has_crypto_randomUUID b) raw = false →
  sanitize raw b =
    (Ok (defaulted (random_uuids b (uuid_calls b)) (iso_times b (time_reads b)) raw),
     drawn (if lacks "id" raw then 1 else 0) (if lacks "date" raw then 1 else 0) b).
Proof.
  intros (Hnn & Hid & Ha)%unreadable_false. unfold sanitize, defaulted.
  rewrite bind_run, get_prop_field by done. cbv beta iota.
  rewrite bind_run, or_else_do_run. unfold lacks in *.
  assert (∀ n b0, has_crypto_randomUUID b0 = has_crypto_randomUUID b →
          random_uuids b0 = random_uuids b → uuid_calls b0 = uuid_calls b + n →
          iso_times b0 = iso_times b → time_reads b0 = time_reads b →
          localStorage b0 = localStorage b → Storage.console b0 = Storage.console b →
          ∀ i, (a ← get_prop raw "amount";
             a ← Number_of a;
             d ← get_prop raw "description";
             c ← get_prop raw "category";
             dt ← get_prop raw "date";
             dt ← or_else_do dt new_Date_toISOString;
             ty ← get_prop raw "type";
             cu ← get_prop raw "currency";
             mret {| tx_id := i;
                     tx_amount := number_or_zero a;
                     tx_description := or_else d (JStr "Tanpa Keterangan");
                     tx_category := or_else c (JStr "Lainnya");
                     tx_date := dt;
                     tx_type := if is_str_opt ty "income" then INCOME else EXPENSE;
                     tx_currency := or_else cu (JStr "IDR") |}) b0
          = (Ok {| tx_id := i;
                   tx_amount := number_or_zero (ToNumber_opt (field raw "amount"));
                   tx_description := or_else (field raw "description")
                                       (JStr "Tanpa Keterangan");
                   tx_category := or_else (field raw "category") (JStr "Lainnya");
                   tx_date := or_else (field raw "date")
                                (JStr (iso_times b (time_reads b)));
                   tx_type := if is_str_opt (field raw "type") "income"
                              then INCOME else EXPENSE;
                   tx_currency := or_else (field raw "currency") (JStr "IDR") |},
             drawn n (if negb (truthy_opt (field raw "date")) then 1 else 0) b)) as Hrest.
  { intros n b0 Hc Hu Hn Hi Ht Hl Hco i.
    rewrite bind_run, get_prop_field by done. cbv beta iota. rewrite bind_run.
    assert (Number_of (field raw "amount") b0
            = (Ok (ToNumber_opt (field raw "amount")), b0)) as ->.
    { unfold Number_of. destruct (field raw "amount") as [a|]; [|done]. by rewrite Ha. }
    cbv beta iota.
    rewrite bind_run, get_prop_field by done. cbv beta iota.
    rewrite bind_run, get_prop_field by done. cbv beta iota.
    rewrite bind_run, get_prop_field by done. cbv beta iota.
    rewrite bind_run, or_else_do_run.
    destruct (truthy_opt (field raw "date")) eqn:Hdt; cbn [negb].
    - rewrite bind_run, get_prop_field by done. cbv beta iota.
      rewrite bind_run, get_prop_field by done. cbv beta iota.
      rewrite ret_run, (or_else_truthy _ _ Hdt). f_equal.
      destruct b0, b; unfold drawn; simpl in *; subst.
      f_equal; lia.
    - cbn [new_Date_toISOString]. cbv beta iota.
      rewrite bind_run, get_prop_field by done. cbv beta iota.
      rewrite bind_run, get_prop_field by done. cbv beta iota.
      rewrite ret_run, (or_else_falsy _ _ Hdt), Hi, Ht. f_equal.
      destruct b0, b; unfold drawn; simpl in *; subst.
      f_equal; lia. }
  destruct (truthy_opt (field raw "id")) eqn:Hi; cbn [negb].
  - cbv beta iota. rewrite (Hrest 0) by (done || (simpl; lia)).
    by rewrite (or_else_truthy _ _ Hi).
  - specialize (Hid eq_refl).
    unfold crypto_randomUUID. rewrite Hid at 1. cbv beta iota.
    rewrite (Hrest 1) by (done || (simpl; lia)).
    by rewrite (or_else_falsy _ _ Hi).
Qed.

(** An entry that is not readable makes the arrow function throw. *)
Lemma sanitize_unreadable raw b :
  unreadable (has_crypto_randomUUID b) raw = true →
  ∃ b', sanitize raw b = (Throw TypeError, b') ∧ localStorage b' = localStorage b.
Proof.
  intros Hun. destruct (decide (raw = JNull)) as [->|Hnn]; [by exists b|].
  unfold unreadable in Hun. rewrite (bool_decide_eq_false_2 _ Hnn) in Hun.
  cbn [orb] in Hun. unfold sanitize.
  rewrite bind_run, get_prop_field by done. cbv beta iota.
  rewrite bind_run, or_else_do_run. unfold lacks in Hun.
  destruct (truthy_opt (field raw "id")) eqn:Hi; cbn [negb andb orb] in Hun.
  - cbv beta iota. rewrite bind_run, get_prop_field by done. cbv beta iota.
    rewrite bind_run. unfold Number_of.
    destruct (field raw "amount") as [a|]; [|done]. rewrite Hun. by exists b.
  - unfold crypto_randomUUID.
    destruct (has_crypto_randomUUID b) eqn:Hc; cbn [negb orb] in Hun; [|by exists b].
    cbv beta iota. rewrite bind_run, get_prop_field by done. cbv beta iota.
    rewrite bind_run. unfold Number_of.
    destruct (field raw "amount") as [a|]; [|done]. rewrite Hun. by eexists.
Qed.

Lemma sanitize_null b : sanitize JNull b = (Throw TypeError, b).
Proof. reflexivity. Qed.

Lemma lacking_cons k raw l :
  lacking k (raw :: l) = (if lacks k raw then 1 else 0) + lacking k l.
Proof. unfold lacking. simpl. by destruct (lacks k raw). Qed.

Lemma defaulted_at_cons b raw0 l i raw :
  defaulted_at b (raw0 :: l) (S i) raw =
  defaulted_at (drawn (if lacks "id" raw0 then 1 else 0)
                      (if lacks "date" raw0 then 1 else 0) b) l i raw.
Proof.
  unfold defaulted_at. simpl. rewrite !lacking_cons, !Nat.add_assoc. reflexivity.
Qed.

(** The whole list, when every entry is readable. *)
Lemma mapM_sanitize l b :
  Forall (λ raw, unreadable (has_crypto_randomUUID b) raw = false) l →
  mapM sanitize l b =
    (Ok (imap (defaulted_at b l) l), drawn (lacking "id" l) (lacking "date" l) b).
Proof.
  intros Hl. revert b Hl. induction l as [|raw l IH]; intros b Hl.
  - simpl. by rewrite drawn_0.
  - apply Forall_cons in Hl as [Hraw Hl].
    rewrite mapM_cons, bind_run, (sanitize_readable raw b Hraw). cbv beta iota.
    rewrite bind_run, IH by done. cbv beta iota.
    rewrite ret_run, drawn_drawn, imap_cons, !lacking_cons. do 3 f_equal.
    + unfold defaulted_at, lacking. simpl. by rewrite !Nat.add_0_r.
    + apply imap_ext. intros i x _. simpl. by rewrite defaulted_at_cons.
Qed.

(** An entry that is not readable makes the map throw. *)
Lemma mapM_sanitize_unreadable l b :
  Exists (λ raw, unreadable (has_crypto_randomUUID b) raw = true) l →
  ∃ b', mapM sanitize l b = (Throw TypeError, b').
Proof.
  revert b. induction l as [|raw l IH]; intros b Hex.
  - by apply Exists_nil in Hex.
  - rewrite mapM_cons, bind_run.
    destruct (unreadable (has_crypto_randomUUID b) raw) eqn:Hraw.
    + destruct (sanitize_unreadable raw b Hraw) as (b' & -> & _). eauto.
    + apply Exists_cons in Hex as [Hex|Hex]; [congruence|].
      rewrite sanitize_readable by done. cbv beta iota. rewrite bind_run.
      destruct (IH (drawn (if lacks "id" raw then 1 else 0)
                          (if lacks "date" raw then 1 else 0) b) Hex) as [b' ->].
      eauto.
Qed.

(** A [null] entry makes the map throw. *)
Lemma mapM_sanitize_null l b :
  JNull ∈ l → ∃ b', mapM sanitize l b = (Throw TypeError, b').
Proof.
  intros Hin. apply mapM_sanitize_unreadable, Exists_exists. by exists JNull.
Qed.

(** *** getTransactions *)

Lemma getTransactions_run b :
  getTransactions b =
    match localStorage b !! STORAGE_KEY with
    | None => (Ok [], b)
    | Some d =>
        if is_empty d then (Ok [], b)
        else match JSON_parse d with
             | Some (JArr l) =>
                 match mapM sanitize l b with
                 | (Ok ts, b') => (Ok ts, b')
                 | (Throw _, b') =>
                     (Ok [], (console_error "Failed to parse transactions" b').2)
                 end
             | Some _ => (Ok [], b)
             | None => (Ok [], (console_error "Failed to parse transactions" b).2)
             end
    end.
Proof.
  unfold getTransactions, localStorage_getItem. rewrite bind_run. unfold gets.
  destruct (localStorage b !! STORAGE_KEY) as [d|]; [|done].
  destruct (is_empty d); [done|].
  unfold try_catch, parse. rewrite bind_run.
  by destruct (JSON_parse d) as [[| | | |l|]|].
Qed.

Lemma sanitize_localStorage raw b : localStorage (sanitize raw b).2 = localStorage b.
Proof.
  destruct (unreadable (has_crypto_randomUUID b) raw) eqn:Hraw.
  - by destruct (sanitize_unreadable raw b Hraw) as (b' & -> & ?).
  - by rewrite sanitize_readable.
Qed.

Lemma mapM_sanitize_localStorage l b :
  localStorage (mapM sanitize l b).2 = localStorage b.
Proof.
  revert b. induction l as [|raw l IH]; intros b; [done|].
  rewrite mapM_cons, bind_run.
  pose proof (sanitize_localStorage raw b) as Hs.
  destruct (sanitize raw b) as [[t|e] b1]; simpl in Hs; [|done].
  rewrite bind_run. specialize (IH b1).
  destruct (mapM sanitize l b1) as [[ts|e] b2]; simpl in *; congruence.
Qed.

Lemma getTransactions_absent b :
  localStorage b !! STORAGE_KEY = None → getTransactions b = (Ok [], b).
Proof. intros Hb. by rewrite getTransactions_run, Hb. Qed.

(** Reading never throws and never writes. *)
Lemma getTransactions_total b :
  ∃ ts b', getTransactions b = (Ok ts, b') ∧ localStorage b' = localStorage b.
Proof.
  rewrite getTransactions_run.
  destruct (localStorage b !! STORAGE_KEY) as [d|]; [|by eauto].
  destruct (is_empty d); [by eauto|].
  destruct (JSON_parse d) as [[| | | |l|]|]; try by eauto.
  pose proof (mapM_sanitize_localStorage l b) as Hl.
  destruct (mapM sanitize l b) as [[ts|e] b']; simpl in *; eauto.
Qed.

Lemma lacking_app k l1 l2 : lacking k (l1 ++ l2) = lacking k l1 + lacking k l2.
Proof. unfold lacking. by rewrite List.filter_app, length_app. Qed.

Lemma lacking_take_lt k l i j raw :
  i < j → l !! i = Some raw → lacks k raw = true →
  lacking k (take i l) < lacking k (take j l).
Proof.
  intros Hij Hi Hk.
  replace j with (S i + (j - S i)) by lia.
  rewrite <- take_take_drop, lacking_app, (take_S_r _ _ _ Hi), lacking_app.
  rewrite (lacking_cons k raw []), Hk. lia.
Qed.

(** Two entries without an identifier are given different ones, as long
    as the generator does not repeat itself. *)
Lemma fresh_ids_distinct b l i j ri rj :
  Inj (=) (=) (random_uuids b) →
  i ≠ j → l !! i = Some ri → l !! j = Some rj →
  lacks "id" ri = true → lacks "id" rj = true →
  tx_id (defaulted_at b l i ri) ≠ tx_id (defaulted_at b l j rj).
Proof.
  intros Hinj Hij Hi Hj Hli Hlj. unfold defaulted_at, defaulted. cbn [tx_id].
  assert (∀ o d, truthy_opt o = false → or_else o d = d) as Hor.
  { intros [v|] d; simpl; [|done]. by intros ->. }
  rewrite !Hor by by apply negb_true_iff.
  intros [= Heq]. apply Hinj in Heq.
  destruct (decide (i < j)) as [Hlt|Hge].
  - pose proof (lacking_take_lt "id" l i j ri Hlt Hi Hli). lia.
  - assert (j < i) as Hlt by lia.
    pose proof (lacking_take_lt "id" l j i rj Hlt Hj Hlj). lia.
Qed.

(** The defaulting table, rule by rule. *)
Lemma defaulted_rules fresh now raw :
  let t := defaulted fresh now raw in
  tx_id t = match field raw "id" with
            | Some v => if truthy v then v else JStr fresh
            | None => JStr fresh
            end
  ∧ (field raw "amount" = None → tx_amount t = 0%float)
  ∧ (∀ x, field raw "amount" = Some (JNum x) →
       tx_amount t = if is_zero x || is_nan x then 0%float else x)
  ∧ (truthy_opt (field raw "description") = false
     → tx_description t = JStr "Tanpa Keterangan")
  ∧ (truthy_opt (field raw "category") = false → tx_category t = JStr "Lainnya")
  ∧ (truthy_opt (field raw "date") = false → tx_date t = JStr now)
  ∧ (tx_type t = INCOME ↔ field raw "type" = Some (JStr "income"))
  ∧ (tx_type t = EXPENSE ↔ field raw "type" ≠ Some (JStr "income"))
  ∧ (truthy_opt (field raw "currency") = false → tx_currency t = JStr "IDR")
  ∧ (∀ k v, field raw k = Some v → truthy v = true →
       (k = "description" → tx_description t = v)
       ∧ (k = "category" → tx_category t = v)
       ∧ (k = "date" → tx_date t = v)
       ∧ (k = "currency" → tx_currency t = v)).
Proof.
  assert (∀ o d, truthy_opt o = false → or_else o d = d) as Hfalsy.
  { intros [v|] d; simpl; [|done]. by intros ->. }
  assert (∀ v d, truthy v = true → or_else (Some v) d = v) as Htruthy.
  { intros v d Hv. simpl. by rewrite Hv. }
  assert (is_str_opt (field raw "type") "income" = true
          ↔ field raw "type" = Some (JStr "income")) as Htype.
  { destruct (field raw "type") as [[| | |s| |]|]; simpl; try by split.
    rewrite bool_decide_eq_true. split; [by intros ->|by intros [= ->]]. }
  cbv zeta. unfold defaulted. cbn [tx_id tx_amount tx_description tx_category tx_date
                                    tx_type tx_currency].
  split; [done|]. split; [by intros ->|]. split; [by intros x ->|].
  split; [apply Hfalsy|]. split; [apply Hfalsy|]. split; [apply Hfalsy|].
  split; [|split; [|split]].
  - rewrite <- Htype. by destruct (is_str_opt _ _).
  - rewrite <- Htype. by destruct (is_str_opt _ _).
  - apply Hfalsy.
  - intros k v Hk Hv. repeat split; intros ->; rewrite Hk; by apply Htruthy.
Qed.

(** C3, in the form that holds of the code.  Whatever is stored under the transaction key,
    [getTransactions] returns without throwing.  When the stored text is
    malformed or does not denote a list, the result is the empty list.
    When it denotes a list all of whose entries are readable, every entry
    is turned into a transaction by the defaulting table [defaulted]: a
    missing or falsy [id] is replaced by the next identifier of the
    generator, a missing or unusable [amount] becomes 0, a missing or
    falsy [description] or [category] becomes the placeholder, a missing
    or falsy [date] becomes the current time, [type] is income exactly
    when the stored value is the income tag, and a missing or falsy
    [currency] becomes IDR; a stored value that is truthy is kept as it
    is.  The identifiers given to different entries differ as long as
    the generator does not repeat itself.  When some entry is not
    readable, the result is the empty list.  An entry is not readable when
    it is [null], when [Number] cannot convert its [amount], or when it
    has no usable [id] in a browser without [crypto.randomUUID]. *)
Theorem getTransactions_sanitizes b raw :
  localStorage b !! STORAGE_KEY = Some raw →
  (∃ ts b', getTransactions b = (Ok ts, b'))
  ∧ match JSON_parse raw with
    | Some (JArr l) =>
        (Forall (λ entry, unreadable (has_crypto_randomUUID b) entry = false) l →
         getTransactions b =
           (Ok (imap (defaulted_at b l) l), drawn (lacking "id" l) (lacking "date" l) b)
         ∧ (Inj (=) (=) (random_uuids b) →
            ∀ i j ri rj, i ≠ j → l !! i = Some ri → l !! j = Some rj →
              lacks "id" ri = true → lacks "id" rj = true →
              tx_id (defaulted_at b l i ri) ≠ tx_id (defaulted_at b l j rj)))
        ∧ (Exists (λ entry, unreadable (has_crypto_randomUUID b) entry = true) l →
           (getTransactions b).1 = Ok [])
        ∧ (∀ entry,
             unreadable (has_crypto_randomUUID b) entry = true ↔
               entry = JNull
               ∨ (lacks "id" entry = true ∧ has_crypto_randomUUID b = false)
               ∨ (∃ a, field entry "amount" = Some a ∧ ToPrimitive_throws a = true))
    | _ => (getTransactions b).1 = Ok []
    end.
Proof.
  intros Hraw. split.
  { destruct (getTransactions_total b) as (ts & b' & Hget & _). eauto. }
  rewrite getTransactions_run, Hraw.
  destruct (JSON_parse raw) as [v|] eqn:Hparse.
  - assert (is_empty raw = false) as ->.
    { destruct (is_empty raw) eqn:He; [|done].
      apply JSON_parse_empty in He. congruence. }
    destruct v as [| | | |l|]; try done.
    split; [|split].
    + intros Hl. rewrite mapM_sanitize by done. split; [done|].
      intros Hinj i j ri rj. by apply fresh_ids_distinct.
    + intros Hex. by destruct (mapM_sanitize_unreadable l b Hex) as [b' ->].
    + intros entry. unfold unreadable.
      rewrite !orb_true_iff, andb_true_iff, bool_decide_eq_true, negb_true_iff.
      split.
      * intros [[?|?]|Ha]; [by left|by right; left|]. right. right.
        destruct (field entry "amount") as [a|]; [by exists a|done].
      * intros [?|[?|(a & -> & Ha)]]; [by left; left|by left; right|by right].
  - by destruct (is_empty raw).
Qed.

(** A list with a [null] entry is read as the empty list. *)
Lemma getTransactions_null_entry b raw l :
  localStorage b !! STORAGE_KEY = Some raw →
  JSON_parse raw = Some (JArr l) → JNull ∈ l →
  (getTransactions b).1 = Ok [].
Proof.
  intros Hraw Hparse Hin. rewrite getTransactions_run, Hraw, Hparse.
  destruct (is_empty raw); [done|].
  by destruct (mapM_sanitize_null l b Hin) as [b' ->].
Qed.

(** *** Writing and reading back *)

Lemma field_stored t k :
  field (json_norm (tx_to_js t)) k = json_norm <$> (own_props (tx_to_js t) !! k).
Proof. unfold tx_to_js. simpl. by rewrite lookup_fmap. Qed.

Lemma or_else_kept v d : kept_value v → or_else (Some (json_norm v)) d = v.
Proof. intros [Ht Hn]. simpl. by rewrite Hn, Ht. Qed.

Lemma number_kept a : kept_amount a → number_or_zero (ToNumber (json_norm (JNum a))) = a.
Proof.
  intros [Hfin Hz]. simpl. rewrite Hfin. unfold number_or_zero.
  destruct (is_zero a) eqn:Ha; simpl.
  - by rewrite Hz.
  - rewrite Ha. simpl. unfold is_finite in Hfin.
    by destruct (is_nan a).
Qed.

Lemma text_field_kept v : text_field v → kept_value v.
Proof.
  intros (s & -> & Hs). split; [|done]. simpl. by rewrite bool_decide_eq_false_2.
Qed.

Lemma well_typed_persistable t : well_typed t → persistable t.
Proof. intros [? ? ? ? ? ?]. split; auto using text_field_kept. Qed.

(** What was written for a persistable transaction is readable in every
    browser: it has an identifier, and its amount is a number. *)
Lemma stored_readable crypto t :
  persistable t → unreadable crypto (json_norm (tx_to_js t)) = false.
Proof.
  intros [[Hid1 Hid2] Ham Hde Hca Hda Hcu]. apply unreadable_false.
  split; [done|]. unfold lacks. rewrite !field_stored.
  replace (own_props (tx_to_js t) !! "id") with (Some (tx_id t)) by reflexivity.
  replace (own_props (tx_to_js t) !! "amount") with (Some (JNum (tx_amount t)))
    by reflexivity.
  cbn [fmap option_fmap option_map truthy_opt]. rewrite Hid2, Hid1. split; [done|].
  simpl. by destruct (is_finite (tx_amount t)), (is_zero (tx_amount t)).
Qed.

(** A persistable transaction is read back as it was written, without
    any default being applied. *)
Lemma sanitize_stored t b :
  persistable t → sanitize (json_norm (tx_to_js t)) b = (Ok t, b).
Proof.
  intros Ht. pose proof Ht as [Hid Ham Hde Hca Hda Hcu].
  rewrite sanitize_readable by by apply stored_readable.
  unfold defaulted, lacks. rewrite !field_stored.
  replace (own_props (tx_to_js t) !! "id") with (Some (tx_id t)) by reflexivity.
  replace (own_props (tx_to_js t) !! "amount") with (Some (JNum (tx_amount t))) by reflexivity.
  replace (own_props (tx_to_js t) !! "description") with (Some (tx_description t)) by reflexivity.
  replace (own_props (tx_to_js t) !! "category") with (Some (tx_category t)) by reflexivity.
  replace (own_props (tx_to_js t) !! "date") with (Some (tx_date t)) by reflexivity.
  replace (own_props (tx_to_js t) !! "type") with (Some (JStr (type_tag (tx_type t)))) by reflexivity.
  replace (own_props (tx_to_js t) !! "currency") with (Some (tx_currency t)) by reflexivity.
  cbn [fmap option_fmap option_map ToNumber_opt].
  rewrite !or_else_kept, number_kept by done.
  destruct Hid as [Hid1 Hid2], Hda as [Hda1 Hda2].
  cbn [truthy_opt]. rewrite Hid2, Hda2, Hid1, Hda1. cbn [negb].
  rewrite drawn_0. destruct t as [i a d c dt [] cu]; reflexivity.
Qed.

Lemma mapM_sanitize_stored ts b :
  Forall persistable ts →
  mapM sanitize (map json_norm (tx_to_js <$> ts)) b = (Ok ts, b).
Proof.
  induction 1 as [|t ts Ht Hts IH]; [done|].
  cbn [fmap list_fmap map]. rewrite mapM_cons, bind_run, sanitize_stored by done.
  cbv beta iota. fold (fmap (M:=list) tx_to_js ts). by rewrite bind_run, IH.
Qed.

Lemma getTransactions_stored ts b :
  Forall persistable ts → getTransactions (stored ts b) = (Ok ts, stored ts b).
Proof.
  intros Hts. rewrite getTransactions_run. unfold stored at 1. simpl.
  rewrite lookup_insert_eq. unfold stringify_transactions.
  rewrite JSON_stringify_nonempty, JSON_parse_stringify. simpl.
  fold (stringify_transactions ts). fold (stored ts b).
  by rewrite mapM_sanitize_stored.
Qed.


Lemma filter_id_differs i ts :
  List.filter (id_differs i) ts = filter (λ t, tx_id t ≠ JStr i) ts.
Proof.
  induction ts as [|t ts IH]; [done|].
  simpl. rewrite filter_cons, IH. unfold id_differs.
  destruct (decide (tx_id t ≠ JStr i)) as [Hne|Heq].
  - destruct (tx_id t) as [| | |s'| |]; try done. simpl.
    rewrite bool_decide_eq_false_2; [done|congruence].
  - apply dec_stable in Heq. rewrite Heq. simpl.
    by rewrite bool_decide_eq_true_2.
Qed.

(** A list the service wrote is read as it is, and nothing changes. *)
Lemma getTransactions_holding b ts :
  Forall persistable ts →
  localStorage b !! STORAGE_KEY = Some (stringify_transactions ts) →
  getTransactions b = (Ok ts, b).
Proof.
  intros Hts Hb. rewrite getTransactions_run, Hb. unfold stringify_transactions.
  rewrite JSON_stringify_nonempty, JSON_parse_stringify. simpl.
  by rewrite mapM_sanitize_stored.
Qed.

(** C8, in the form that holds of the code.  When storage holds a list of
    transactions as the service writes it, each of them kept by a write and
    a read, [deleteTransaction id] returns and stores that list without
    the transactions whose [id] is [id]: a transaction is in the result
    exactly when it was stored and its [id] differs, the result keeps the
    order of the stored list, and the list read back from storage
    afterwards is that same result, field for field. *)
Theorem deleteTransaction_removes_matching b ts i :
  Forall persistable ts →
  localStorage b !! STORAGE_KEY = Some (stringify_transactions ts) →
  let updated := filter (λ t, tx_id t ≠ JStr i) ts in
  deleteTransaction i b = (Ok updated, stored updated b)
  ∧ (∀ t, t ∈ updated ↔ t ∈ ts ∧ tx_id t ≠ JStr i)
  ∧ sublist updated ts
  ∧ localStorage (stored updated b) !! STORAGE_KEY = Some (stringify_transactions updated)
  ∧ getTransactions (stored updated b) = (Ok updated, stored updated b).
Proof.
  intros Hts Hb. cbv zeta.
  pose proof (getTransactions_holding b ts Hts Hb) as Hget.
  split; [|split; [|split; [|split]]].
  - unfold deleteTransaction. by rewrite bind_run, Hget, filter_id_differs.
  - intros t. rewrite list_elem_of_filter. tauto.
  - apply sublist_filter.
  - apply lookup_insert_eq.
  - apply getTransactions_stored.
    rewrite Forall_forall in Hts |- *. intros t Ht.
    apply list_elem_of_filter in Ht as [_ Ht]. by apply Hts.
Qed.

(** C9.  After [saveSettings s], [getSettings] returns [s] merged over
    the defaults: a field of [s] has the value [s] gives it, and a field
    absent from [s] has its default.  The values of [s] are values that
    survive serialisation, as strings and [null] do. *)
Theorem saveSettings_then_getSettings b (s : gmap string jsval) :
  map_Forall (λ _ v, json_norm v = v) s →
  saveSettings s b = (Ok (), settings_stored s b)
  ∧ getSettings (settings_stored s b) = (Ok (s ∪ DEFAULT_SETTINGS), settings_stored s b)
  ∧ ∀ k, (s ∪ DEFAULT_SETTINGS) !! k
         = match s !! k with Some v => Some v | None => DEFAULT_SETTINGS !! k end.
Proof.
  intros Hs. split; [done|]. split.
  - unfold getSettings, localStorage_getItem, gets. rewrite bind_run.
    unfold settings_stored at 1. simpl. rewrite lookup_insert_eq.
    rewrite JSON_stringify_nonempty.
    unfold try_catch, parse. rewrite bind_run, JSON_parse_stringify.
    simpl. replace (json_norm <$> s) with s; [done|].
    apply map_eq. intros k. rewrite lookup_fmap.
    destruct (s !! k) as [v|] eqn:Hk; [|done].
    simpl. by rewrite (Hs k v Hk).
  - intros k. rewrite lookup_union.
    destruct (s !! k), (DEFAULT_SETTINGS !! k); done.
Qed.
(** *** Transactions written by the service stay readable *)

Lemma getTransactions_app_written b :
  app_written b → ∃ ts, getTransactions b = (Ok ts, b) ∧ Forall persistable ts.
Proof.
  unfold app_written. intros Hb. rewrite getTransactions_run.
  destruct (localStorage b !! STORAGE_KEY) as [d|]; [|by exists []].
  destruct Hb as (ts & Hts & ->). exists ts. split; [|done].
  unfold stringify_transactions.
  rewrite JSON_stringify_nonempty, JSON_parse_stringify. simpl.
  by rewrite mapM_sanitize_stored.
Qed.

Lemma stored_app_written ts b : Forall persistable ts → app_written (stored ts b).
Proof.
  intros Hts. unfold app_written, stored. simpl. rewrite lookup_insert_eq. eauto.
Qed.

Lemma saveTransaction_app_written tx b :
  persistable tx → app_written b → app_written (saveTransaction tx b).2.
Proof.
  intros Htx Hb. destruct (getTransactions_app_written b Hb) as (ts & Hget & Hts).
  unfold saveTransaction. rewrite bind_run, Hget. cbv beta iota zeta.
  apply (stored_app_written (tx :: ts) b). by constructor.
Qed.

Lemma deleteTransaction_app_written i b :
  app_written b → app_written (deleteTransaction i b).2.
Proof.
  intros Hb. destruct (getTransactions_app_written b Hb) as (ts & Hget & Hts).
  unfold deleteTransaction. rewrite bind_run, Hget. cbv beta iota zeta.
  apply (stored_app_written (List.filter (id_differs i) ts) b).
  rewrite Forall_forall in Hts |- *. intros t Ht.
  apply list_elem_of_In, List.filter_In in Ht as [Ht _].
  by apply Hts, list_elem_of_In.
Qed.

Lemma clearAllTransactions_then_getTransactions b :
  getTransactions (clearAllTransactions b).2 = (Ok [], (clearAllTransactions b).2).
Proof. apply (getTransactions_stored [] b). constructor. Qed.
End with_runtime.

(** *** On the example runtime *)

Lemma lunch_persistable : persistable Examples.OfStorage.lunch.
Proof.
  split; try (split; reflexivity).
  split; [reflexivity|]. intros Hz. vm_compute in Hz. discriminate.
Defined.

Lemma salary_persistable : persistable Examples.OfStorage.salary.
Proof.
  split; try (split; reflexivity).
  split; [reflexivity|]. intros Hz. vm_compute in Hz. discriminate.
Defined.

(** A stored list with a [null] entry: the document is a list, and no entry
    of it is returned. *)
Lemma null_entry_discards_the_list :
  JSON_parse Examples.OfStorage.entry_and_null
  = Some (JArr [Examples.OfStorage.salary_entry; JNull])
  ∧ (getTransactions
       (Examples.OfStorage.browser {[STORAGE_KEY := Examples.OfStorage.entry_and_null]})).1
    = Ok [].
Proof. split; by vm_compute. Qed.

Lemma getTransactions_sanitizes_witness :
  (getTransactions
     (Examples.OfStorage.browser {[STORAGE_KEY := Examples.OfStorage.two_entries]})).1
  = Ok [ {| tx_id := JStr "a1"; tx_amount := 5000000;
            tx_description := JStr "Tanpa Keterangan"; tx_category := JStr "Lainnya";
            tx_date := JStr "2025-01-01T00:00:00.000Z"; tx_type := INCOME;
            tx_currency := JStr "IDR" |};
         {| tx_id := JStr "0"; tx_amount := 0;
            tx_description := JStr "Tanpa Keterangan"; tx_category := JStr "Lainnya";
            tx_date := JStr "2025-01-01T00:00:01.000Z"; tx_type := EXPENSE;
            tx_currency := JStr "IDR" |} ]
  ∧ (getTransactions
       (Examples.OfStorage.old_browser
          {[STORAGE_KEY := Examples.OfStorage.two_entries]})).1 = Ok [].
Proof.
  split.
  - pose proof (getTransactions_sanitizes
                  (Examples.OfStorage.browser
                     {[STORAGE_KEY := Examples.OfStorage.two_entries]})
                  Examples.OfStorage.two_entries eq_refl) as Hspec.
    destruct Hspec as [_ Hspec].
    cbn [JSON_parse doc_runtime Examples.OfStorage.two_entries] in Hspec.
    destruct Hspec as [Hall _]. destruct Hall as [-> _].
    + repeat (constructor; [reflexivity|]). constructor.
    + by vm_compute.
  - pose proof (getTransactions_sanitizes
                  (Examples.OfStorage.old_browser
                     {[STORAGE_KEY := Examples.OfStorage.two_entries]})
                  Examples.OfStorage.two_entries eq_refl) as Hspec.
    destruct Hspec as [_ Hspec].
    cbn [JSON_parse doc_runtime Examples.OfStorage.two_entries] in Hspec.
    destruct Hspec as (_ & Hsome & _). apply Hsome.
    apply Exists_cons_tl, Exists_cons_hd. reflexivity.
Defined.



(** A stored list with a [null] entry: deleting an identifier that no
    entry has returns the empty list and stores it, so the entry [a1] is
    gone. *)
Lemma absent_id_delete_loses_entries :
  let b := Examples.OfStorage.browser {[STORAGE_KEY := Examples.OfStorage.entry_and_null]} in
  JSON_parse Examples.OfStorage.entry_and_null
  = Some (JArr [Examples.OfStorage.salary_entry; JNull])
  ∧ field Examples.OfStorage.salary_entry "id" = Some (JStr "a1")
  ∧ (deleteTransaction "zzz" b).1 = Ok []
  ∧ localStorage (deleteTransaction "zzz" b).2 !! STORAGE_KEY
    = Some (stringify_transactions []).
Proof. repeat split; by vm_compute. Qed.

Lemma deleteTransaction_removes_matching_witness :
  let b := stored [Examples.OfStorage.lunch; Examples.OfStorage.salary]
             (Examples.OfStorage.browser ∅) in
  deleteTransaction "7c9e6679" b
  = (Ok [Examples.OfStorage.salary], stored [Examples.OfStorage.salary] b)
  ∧ getTransactions (stored [Examples.OfStorage.salary] b)
    = (Ok [Examples.OfStorage.salary], stored [Examples.OfStorage.salary] b).
Proof.
  intros b.
  destruct (deleteTransaction_removes_matching b
              [Examples.OfStorage.lunch; Examples.OfStorage.salary] "7c9e6679")
    as (Hdel & _ & _ & _ & Hkept).
  - repeat (constructor; [apply lunch_persistable || apply salary_persistable|]).
    constructor.
  - reflexivity.
  - split; [exact Hdel|exact Hkept].
Defined.

Lemma saveSettings_then_getSettings_witness :
  let b := Examples.OfStorage.browser ∅ in
  getSettings (settings_stored Examples.OfStorage.light_theme b)
  = (Ok (Examples.OfStorage.light_theme ∪ DEFAULT_SETTINGS),
     settings_stored Examples.OfStorage.light_theme b).
Proof.
  intros b.
  refine (proj1 (proj2 (saveSettings_then_getSettings b Examples.OfStorage.light_theme _))).
  intros k v Hk. unfold Examples.OfStorage.light_theme in Hk.
  apply lookup_singleton_Some in Hk as [_ <-]. reflexivity.
Defined.
End StorageProofs.

(** ** The rate service *)

Module CurrencyProofs.
Import JS Currency EffProofs.

Section with_runtime.
Context {text : Type} `{!Runtime text}.
Implicit Types (w : World text) (base : string).

(** The cache lookup, case by case. *)
Lemma cache_lookup_run base w :
  cache_lookup base w =
    match sessionStorage w !! cacheKey base with
    | None => (Ok None, w)
    | Some d =>
        if is_empty d then (Ok None, w)
        else match JSON_parse d with
             | None => (Throw SyntaxError, w)
             | Some JNull => (Throw TypeError, w)
             | Some parsed =>
                 if (next_now w - ToNumber_opt (field parsed "timestamp") <? ONE_HOUR)%float
                 then (Ok (Some (field parsed "rates")),
                       logged "Using cached exchange rates" (ticked w))
                 else (Ok None, ticked w)
             end
    end.
Proof.
  unfold cache_lookup, sessionStorage_getItem, gets. rewrite bind_run.
  destruct (sessionStorage w !! cacheKey base) as [d|]; [|done].
  destruct (is_empty d); [done|].
  unfold parse. rewrite bind_run.
  destruct (JSON_parse d) as [parsed|]; [|done].
  rewrite ret_run. cbv beta iota.
  rewrite bind_run, get_prop_run.
  destruct (decide (parsed = JNull)) as [->|Hnn]; [done|].
  rewrite !match_not_null by done. cbv beta iota.
  rewrite bind_run, get_prop_run, match_not_null by done. cbv beta iota.
  rewrite bind_run. unfold Date_now at 1. cbv beta iota.
  fold (next_now w). fold (ticked w).
  by destruct (next_now w - _ <? ONE_HOUR)%float.
Qed.

(** The [try] block, case by case. *)
Lemma fetch_rates_run base w :
  fetch_rates base w =
    let w0 := requested (latest_url base) (logged (fetching_msg base) w) in
    match network w (length (fetched w)) (latest_url base) with
    | NetworkError => (Throw TypeError, w0)
    | Response false _ => (Throw (Error "Failed to fetch exchange rates"), w0)
    | Response true body =>
        match JSON_parse body with
        | None => (Throw SyntaxError, w0)
        | Some JNull => (Throw TypeError, w0)
        | Some data =>
            match field data "rates" with
            | None | Some JNull => (Throw TypeError, w0)
            | Some r =>
                if delete_throws r base then (Throw TypeError, w0)
                else (Ok (Some (JObj (ratesWithBase base r))),
                      cached base (ratesWithBase base r) (next_now w) (ticked w0))
            end
        end
    end.
Proof.
  unfold fetch_rates. rewrite bind_run. unfold console_write at 1, modify. cbv beta iota zeta.
  rewrite bind_run. unfold requested, logged, console_write, modify, fetch. cbn [snd fetched network].
  destruct (network w (length (fetched w)) (latest_url base)) as [|[] body]; try done.
  cbn [fst snd negb]. unfold parse. rewrite bind_run.
  destruct (JSON_parse body) as [data|]; [|done].
  rewrite ret_run. cbv beta iota. rewrite bind_run, get_prop_run.
  destruct (decide (data = JNull)) as [->|Hnn]; [done|].
  rewrite !match_not_null by done. cbv beta iota.
  destruct (field data "rates") as [r|]; [|done].
  destruct (decide (r = JNull)) as [->|Hr]; [done|].
  rewrite !match_not_null by done.
  destruct (delete_throws r base); [done|].
  reflexivity.
Qed.

Lemma getLatestRates_run base w :
  getLatestRates base w =
    match cache_lookup base w with
    | (Ok (Some rates), w') => (Ok rates, w')
    | (Ok None, w') =>
        match fetch_rates base w' with
        | (Ok r, w'') => (Ok r, w'')
        | (Throw _, w'') =>
            (Ok (Some (JObj (relativeFallbackRates base))),
             logged "Using fallback exchange rates"
               (logged "Error fetching exchange rates:" w''))
        end
    | (Throw e, w') => (Throw e, w')
    end.
Proof.
  unfold getLatestRates. rewrite bind_run.
  by destruct (cache_lookup base w) as [[[rates|]|e] w'].
Qed.

(** A lookup that does not serve the cache leaves the session as it was. *)
Lemma cache_lookup_miss base w wa :
  cache_lookup base w = (Ok None, wa) → same_session w wa.
Proof.
  rewrite cache_lookup_run. unfold same_session.
  destruct (sessionStorage w !! cacheKey base) as [d|]; [|by intros [= <-]].
  destruct (is_empty d); [by intros [= <-]|].
  destruct (JSON_parse d) as [parsed|]; [|done].
  destruct (decide (parsed = JNull)) as [->|Hnn]; [done|].
  rewrite match_not_null by done.
  destruct (_ <? _)%float; [done|]. by intros [= <-].
Qed.

Lemma fetch_fails_same w w' base :
  same_session w w' → fetch_fails w base → fetch_fails w' base.
Proof. intros (_ & Hn & Hf & _). unfold fetch_fails. by rewrite Hn, Hf. Qed.

Lemma fetch_succeeds_same w w' base r :
  same_session w w' → fetch_succeeds w base r → fetch_succeeds w' base r.
Proof. intros (_ & Hn & Hf & _). unfold fetch_succeeds. by rewrite Hn, Hf. Qed.

Lemma fetch_rates_fails base w :
  fetch_fails w base →
  ∃ e, fetch_rates base w
       = (Throw e, requested (latest_url base) (logged (fetching_msg base) w)).
Proof.
  unfold fetch_fails. rewrite fetch_rates_run. cbv zeta.
  destruct (network w (length (fetched w)) (latest_url base)) as [|[] body].
  - eauto.
  - intros [?| ->]; [done|]. eauto.
  - eauto.
Qed.

Lemma fetch_rates_succeeds base w r :
  fetch_succeeds w base r →
  fetch_rates base w
  = (Ok (Some (JObj (ratesWithBase base r))),
     cached base (ratesWithBase base r) (next_now w)
       (ticked (requested (latest_url base) (logged (fetching_msg base) w)))).
Proof.
  intros (body & data & Hnet & Hparse & Hrates & Hnn & Hdel).
  rewrite fetch_rates_run, Hnet, Hparse. cbv zeta. cbn [field].
  rewrite Hrates, match_not_null, Hdel by done. reflexivity.
Qed.

(** The [try] block completes only on a successful fetch. *)
Lemma fetch_rates_Ok base w res w' :
  fetch_rates base w = (Ok res, w') → ∃ r, fetch_succeeds w base r.
Proof.
  rewrite fetch_rates_run. cbv zeta. unfold fetch_succeeds.
  destruct (network w (length (fetched w)) (latest_url base)) as [|[] body]; try done.
  destruct (JSON_parse body) as [data|] eqn:Hparse; [|done].
  destruct data as [| | | | |m]; try done. cbn [field].
  destruct (m !! "rates") as [r|] eqn:Hr; [|done].
  destruct (decide (r = JNull)) as [->|Hnn]; [done|].
  rewrite match_not_null by done.
  destruct (delete_throws r base) eqn:Hdel; [done|].
  intros _. exists r, body, m. done.
Qed.

(** When it throws, nothing was cached. *)
Lemma fetch_rates_Throw base w e w' :
  fetch_rates base w = (Throw e, w') →
  w' = requested (latest_url base) (logged (fetching_msg base) w).
Proof.
  rewrite fetch_rates_run. cbv zeta.
  destruct (network w (length (fetched w)) (latest_url base)) as [|[] body];
    try by intros [= _ <-].
  destruct (JSON_parse body) as [data|]; [|by intros [= _ <-]].
  destruct (decide (data = JNull)) as [->|Hd]; [by intros [= _ <-]|].
  rewrite match_not_null by done.
  destruct (field data "rates") as [r|]; [|by intros [= _ <-]].
  destruct (decide (r = JNull)) as [->|Hr]; [by intros [= _ <-]|].
  rewrite match_not_null by done.
  destruct (delete_throws r base); [by intros [= _ <-]|done].
Qed.

(** *** The fallback table *)

Lemma fallback_entries :
  map_to_list FALLBACK_RATES ≡ₚ
    [("USD", 1); ("EUR", 1.07); ("JPY", 0.0063); ("GBP", 1.27); ("AUD", 0.66);
     ("CAD", 0.73); ("CHF", 1.11); ("CNY", 0.14); ("IDR", 0.000062)]%float.
Proof.
  unfold FALLBACK_RATES. apply map_to_list_to_map.
  apply (bool_decide_unpack _). by vm_compute.
Qed.

(** A rate of the table divided by itself is exactly 1, and no rate of
    the table is falsy. *)
Lemma fallback_rate_self c r :
  FALLBACK_RATES !! c = Some r →
  (is_zero r || is_nan r) = false ∧ (r / r)%float = 1%float.
Proof.
  intros Hc. apply elem_of_map_to_list in Hc.
  rewrite fallback_entries in Hc.
  repeat (apply elem_of_cons in Hc as [[= -> ->]|Hc]; [by vm_compute|]).
  by apply elem_of_nil in Hc.
Qed.

Lemma fallback_baseRate_in_table base r :
  FALLBACK_RATES !! base = Some r → fallback_baseRate base = r.
Proof.
  intros Hb. unfold fallback_baseRate. rewrite Hb.
  by destruct (fallback_rate_self base r Hb) as [-> _].
Qed.

Lemma relativeFallbackRates_base base :
  is_Some (FALLBACK_RATES !! base) →
  relativeFallbackRates base !! base = Some (JNum 1).
Proof.
  intros [r Hb]. unfold relativeFallbackRates.
  rewrite lookup_fmap, Hb, (fallback_baseRate_in_table base r Hb). simpl.
  by destruct (fallback_rate_self base r Hb) as [_ ->].
Qed.

Lemma CurrencyCode_in_table base : CurrencyCode base → is_Some (FALLBACK_RATES !! base).
Proof. by intros [->|[->| ->]]. Qed.

(** *** The cache *)

Lemma cache_entry_read table ts :
  ∃ m, json_norm (cache_entry table ts) = JObj m
       ∧ m !! "rates" = Some (json_norm (JObj table))
       ∧ m !! "timestamp" = Some (json_norm (JNum ts))
       ∧ m = <["rates" := JObj (json_norm <$> table)]>
               (<["timestamp" := json_norm (JNum ts)]> ∅).
Proof.
  eexists. split; [reflexivity|].
  rewrite !lookup_fmap. split; [done|]. split; [done|].
  by rewrite !fmap_insert, fmap_empty.
Qed.

(** The lookup of an entry written by [getLatestRates]. *)
Lemma cache_lookup_cached base table ts w :
  sessionStorage w !! cacheKey base = Some (JSON_stringify (cache_entry table ts)) →
  cache_lookup base w =
    if (next_now w - stored_timestamp ts <? ONE_HOUR)%float
    then (Ok (Some (Some (json_norm (JObj table)))),
          logged "Using cached exchange rates" (ticked w))
    else (Ok None, ticked w).
Proof.
  intros Hc. rewrite cache_lookup_run, Hc, JSON_stringify_nonempty, JSON_parse_stringify.
  destruct (cache_entry_read table ts) as (m & -> & Hr & Ht & _).
  cbn [field]. rewrite Hr, Ht. reflexivity.
Qed.

Lemma stored_timestamp_finite ts :
  is_finite ts = true → is_zero ts = false → stored_timestamp ts = ts.
Proof. intros Hf Hz. unfold stored_timestamp. simpl. by rewrite Hf, Hz. Qed.

(** C4.  When a call of [getLatestRates base] that does not find a fresh
    cache entry fetches successfully, it issues one network call and
    caches the table with the time [t1] read after the fetch.  A later
    call in a session that still holds this entry compares the clock to
    the stored time stamp: when the difference is less than one hour the
    cached table is returned and no network call is made, otherwise a
    new network call is issued. *)
Theorem cache_valid_for_one_hour base w r :
  (cache_lookup base w).1 = Ok None →
  fetch_succeeds w base r →
  ∃ w1 t1,
    getLatestRates base w = (Ok (Some (JObj (ratesWithBase base r))), w1)
    ∧ fetched w1 = fetched w ++ [latest_url base]
    ∧ t1 = clock w1 (pred (clock_reads w1))
    ∧ sessionStorage w1 !! cacheKey base
      = Some (JSON_stringify (cache_entry (ratesWithBase base r) t1))
    ∧ ∀ w2, sessionStorage w2 !! cacheKey base = sessionStorage w1 !! cacheKey base →
        if (next_now w2 - stored_timestamp t1 <? ONE_HOUR)%float
        then ∃ w2', getLatestRates base w2
                    = (Ok (Some (json_norm (JObj (ratesWithBase base r)))), w2')
                    ∧ fetched w2' = fetched w2
        else ∃ res w2', getLatestRates base w2 = (Ok res, w2')
                        ∧ fetched w2' = fetched w2 ++ [latest_url base].
Proof.
  intros Hmiss Hnet.
  destruct (cache_lookup base w) as [res wa] eqn:Hlook. simpl in Hmiss. subst res.
  pose proof (cache_lookup_miss _ _ _ Hlook) as Hsame.
  pose proof (fetch_succeeds_same _ _ _ _ Hsame Hnet) as Hnet'.
  destruct Hsame as (Hs & Hn & Hf & Hc).
  eexists _, (next_now wa).
  split; [by rewrite getLatestRates_run, Hlook, (fetch_rates_succeeds _ _ _ Hnet')|].
  split; [simpl; by rewrite Hf|].
  split; [done|].
  assert (sessionStorage
            (cached base (ratesWithBase base r) (next_now wa)
               (ticked (requested (latest_url base) (logged (fetching_msg base) wa))))
          !! cacheKey base
          = Some (JSON_stringify (cache_entry (ratesWithBase base r) (next_now wa)))) as Hentry.
  { simpl. by rewrite lookup_insert_eq. }
  split; [done|].
  intros w2 Hw2. rewrite Hentry in Hw2.
  rewrite getLatestRates_run, (cache_lookup_cached _ _ _ _ Hw2).
  destruct (next_now w2 - stored_timestamp (next_now wa) <? ONE_HOUR)%float.
  - eauto.
  - destruct (fetch_rates base (ticked w2)) as [[res|e] w2'] eqn:Hfetch.
    + exists res, w2'. split; [done|].
      destruct (fetch_rates_Ok _ _ _ _ Hfetch) as [r' Hr'].
      rewrite (fetch_rates_succeeds _ _ _ Hr') in Hfetch.
      by injection Hfetch as _ <-.
    + eexists _, _. split; [done|].
      by rewrite (fetch_rates_Throw _ _ _ _ Hfetch).
Qed.

(** *** The rate of the base *)

Lemma cache_wf_same w w' :
  sessionStorage w' = sessionStorage w → cache_wf w → cache_wf w'.
Proof. intros Hs Hwf base d. rewrite Hs. apply Hwf. Qed.

Lemma cacheKey_inj : Inj (=) (=) cacheKey.
Proof. intros b1 b2 Hk. unfold cacheKey in Hk. by simplify_eq. Qed.

(** Writing a fetched table keeps the cache well formed. *)
Lemma cache_wf_cached base r ts w :
  cache_wf w → cache_wf (cached base (ratesWithBase base r) ts w).
Proof.
  intros Hwf base' d. unfold cached. simpl.
  destruct (decide (base' = base)) as [->|Hne].
  - rewrite lookup_insert_eq. intros [= <-].
    rewrite JSON_parse_stringify.
    destruct (cache_entry_read (ratesWithBase base r) ts) as (m & -> & _ & _ & ->).
    eexists _, _. split; [done|].
    unfold ratesWithBase. by rewrite lookup_fmap, lookup_insert_eq.
  - rewrite lookup_insert_ne; [apply Hwf|].
    intros Hk. by apply cacheKey_inj in Hk.
Qed.

Lemma cache_wf_empty w : sessionStorage w = ∅ → cache_wf w.
Proof. intros Hw base d. by rewrite Hw, lookup_empty. Qed.

(** A call keeps the cache well formed, and so does any sequence of calls
    in a session that starts with an empty cache. *)
Lemma getLatestRates_cache_wf base w : cache_wf w → cache_wf (getLatestRates base w).2.
Proof.
  intros Hwf.
  assert (∀ wa, sessionStorage wa = sessionStorage w →
          cache_wf (match fetch_rates base wa with
                    | (Ok r, w'') => (Ok r, w'')
                    | (Throw _, w'') =>
                        (Ok (Some (JObj (relativeFallbackRates base))),
                         logged "Using fallback exchange rates"
                           (logged "Error fetching exchange rates:" w''))
                    end).2) as Hfetch.
  { intros wa Hwa. apply (cache_wf_same w wa) in Hwf; [|done].
    destruct (fetch_rates base wa) as [[res|e] w''] eqn:Hf.
    - destruct (fetch_rates_Ok _ _ _ _ Hf) as [r Hr].
      rewrite (fetch_rates_succeeds _ _ _ Hr) in Hf. injection Hf as _ <-.
      apply cache_wf_cached. by apply (cache_wf_same wa).
    - rewrite (fetch_rates_Throw _ _ _ _ Hf). by apply (cache_wf_same wa). }
  rewrite getLatestRates_run, cache_lookup_run.
  destruct (sessionStorage w !! cacheKey base) as [d|] eqn:Hd; [|by apply Hfetch].
  destruct (Hwf base d Hd) as (m & ts & Hparse & Hm).
  destruct (is_empty d); [by apply Hfetch|].
  rewrite Hparse. cbn [field].
  destruct (_ <? _)%float; [|by apply Hfetch].
  by apply (cache_wf_same w).
Qed.

Lemma after_calls_cache_wf bases w :
  sessionStorage w = ∅ → cache_wf (after_calls bases w).
Proof.
  intros Hw. apply cache_wf_empty in Hw. revert w Hw.
  induction bases as [|base rest IH]; intros w Hw; [done|].
  simpl. by apply IH, getLatestRates_cache_wf.
Qed.


(** C6.  When the network call or the reading of its response fails,
    [getLatestRates base] does not throw: it returns the static table
    with every entry divided by the static rate of [base], in which the
    entry for [base] is 1. *)
Theorem fallback_on_failure base w :
  (cache_lookup base w).1 = Ok None →
  fetch_fails w base →
  ∃ w',
    getLatestRates base w = (Ok (Some (JObj (relativeFallbackRates base))), w')
    ∧ (∀ c, relativeFallbackRates base !! c
            = (λ r, JNum (r / fallback_baseRate base)) <$> FALLBACK_RATES !! c)
    ∧ (∀ rb, FALLBACK_RATES !! base = Some rb →
             fallback_baseRate base = rb
             ∧ relativeFallbackRates base !! base = Some (JNum 1)).
Proof.
  intros Hmiss Hfail.
  destruct (cache_lookup base w) as [res wa] eqn:Hlook. simpl in Hmiss. subst res.
  pose proof (cache_lookup_miss _ _ _ Hlook) as Hsame.
  destruct (fetch_rates_fails base wa (fetch_fails_same _ _ _ Hsame Hfail)) as [e He].
  eexists. split; [by rewrite getLatestRates_run, Hlook, He|]. split.
  - intros c. unfold relativeFallbackRates. by rewrite lookup_fmap.
  - intros rb Hrb. split; [by apply fallback_baseRate_in_table|].
    by apply relativeFallbackRates_base.
Qed.

(** Whatever a call does, the cache changes only on a successful fetch. *)
Lemma cache_written_only_on_success base w res w' :
  getLatestRates base w = (res, w') →
  sessionStorage w' ≠ sessionStorage w →
  ∃ r, fetch_succeeds w base r.
Proof.
  rewrite getLatestRates_run, cache_lookup_run.
  assert (∀ wa, same_session w wa →
          (match fetch_rates base wa with
           | (Ok r, w'') => (Ok r, w'')
           | (Throw _, w'') =>
               (Ok (Some (JObj (relativeFallbackRates base))),
                logged "Using fallback exchange rates"
                  (logged "Error fetching exchange rates:" w''))
           end) = (res, w') →
          sessionStorage w' ≠ sessionStorage w → ∃ r, fetch_succeeds w base r) as Hfetch.
  { intros wa Hsame. destruct (fetch_rates base wa) as [[r0|e] w''] eqn:Hf.
    - intros _ _. destruct (fetch_rates_Ok _ _ _ _ Hf) as [r Hr]. exists r.
      destruct Hsame as (Hs & Hn & Hfd & Hc).
      unfold fetch_succeeds in *. by rewrite <- Hn, <- Hfd.
    - rewrite (fetch_rates_Throw _ _ _ _ Hf). intros [= _ <-]. simpl.
      by destruct Hsame as [-> _]. }
  assert (same_session w w) as Hww by done.
  assert (same_session w (ticked w)) as Hwt by done.
  destruct (sessionStorage w !! cacheKey base) as [d|]; [|by apply Hfetch].
  destruct (is_empty d); [by apply Hfetch|].
  destruct (JSON_parse d) as [parsed|]; [|by intros [= _ <-]].
  destruct (decide (parsed = JNull)) as [->|Hnn]; [by intros [= _ <-]|].
  rewrite match_not_null by done.
  destruct (_ <? _)%float; [by intros [= _ <-]|by apply Hfetch].
Qed.

(** C10.  A call of [getLatestRates base] that ends in the fallback
    leaves the session cache as it was.  If there was no entry for
    [base], the next call asks the network again; a later call that does
    not ask the network is served from an entry that was there before
    the failure, never from the fallback.  In general the cache changes
    only when the fetch succeeded. *)
Theorem fallback_is_not_cached base w :
  (cache_lookup base w).1 = Ok None →
  fetch_fails w base →
  ∃ w',
    getLatestRates base w = (Ok (Some (JObj (relativeFallbackRates base))), w')
    ∧ sessionStorage w' = sessionStorage w
    ∧ fetched w' = fetched w ++ [latest_url base]
    ∧ (∀ w2, sessionStorage w2 = sessionStorage w' →
         sessionStorage w !! cacheKey base = None →
         ∃ res w2', getLatestRates base w2 = (Ok res, w2')
                    ∧ fetched w2' = fetched w2 ++ [latest_url base])
    ∧ (∀ w2 res w2', sessionStorage w2 = sessionStorage w' →
         getLatestRates base w2 = (res, w2') → fetched w2' = fetched w2 →
         is_Some (sessionStorage w !! cacheKey base))
    ∧ (∀ v res v', getLatestRates base v = (res, v') →
         sessionStorage v' ≠ sessionStorage v → ∃ r, fetch_succeeds v base r).
Proof.
  intros Hmiss Hfail.
  destruct (cache_lookup base w) as [res wa] eqn:Hlook. simpl in Hmiss. subst res.
  pose proof (cache_lookup_miss _ _ _ Hlook) as Hsame.
  destruct (fetch_rates_fails base wa (fetch_fails_same _ _ _ Hsame Hfail)) as [e He].
  destruct Hsame as (Hs & Hn & Hf & Hc).
  assert (∀ v, sessionStorage v !! cacheKey base = None →
          ∃ res v', getLatestRates base v = (Ok res, v')
                    ∧ fetched v' = fetched v ++ [latest_url base]) as Hnone.
  { intros v Hv. rewrite getLatestRates_run, cache_lookup_run, Hv.
    destruct (fetch_rates base v) as [[r0|e0] v'] eqn:Hfv.
    - exists r0, v'. split; [done|].
      destruct (fetch_rates_Ok _ _ _ _ Hfv) as [r Hr].
      rewrite (fetch_rates_succeeds _ _ _ Hr) in Hfv. by injection Hfv as _ <-.
    - eexists _, _. split; [done|]. by rewrite (fetch_rates_Throw _ _ _ _ Hfv). }
  eexists. split; [by rewrite getLatestRates_run, Hlook, He|].
  split; [done|]. split; [simpl; by rewrite Hf|]. split; [|split].
  - intros w2 Hw2 Hw. apply Hnone. simpl in Hw2. by rewrite Hw2, Hs.
  - intros w2 res w2' Hw2 Hcall Hsamelog. simpl in Hw2.
    destruct (sessionStorage w !! cacheKey base) as [d|] eqn:Hd; [by eauto|].
    destruct (Hnone w2) as (res' & v' & Hcall' & Hlog); [by rewrite Hw2, Hs|].
    rewrite Hcall in Hcall'. injection Hcall' as _ <-.
    rewrite Hsamelog in Hlog. apply (f_equal length) in Hlog.
    rewrite length_app in Hlog. simpl in Hlog. lia.
  - apply cache_written_only_on_success.
Qed.
End with_runtime.

(** *** On the example runtime *)

Lemma usd_fetch_succeeds :
  fetch_succeeds (Examples.OfCurrency.session Examples.OfCurrency.online) "USD"
    Examples.OfCurrency.usd_rates.
Proof.
  exists (Doc (JObj Examples.OfCurrency.usd_response)), Examples.OfCurrency.usd_response.
  repeat split; try reflexivity. discriminate.
Defined.

Lemma cache_valid_for_one_hour_witness :
  let w := Examples.OfCurrency.session Examples.OfCurrency.online in
  let table := ratesWithBase "USD" Examples.OfCurrency.usd_rates in
  ∃ w1 t1,
    getLatestRates "USD" w = (Ok (Some (JObj table)), w1)
    ∧ fetched w1 = fetched w ++ [latest_url "USD"]
    ∧ t1 = clock w1 (pred (clock_reads w1))
    ∧ sessionStorage w1 !! cacheKey "USD" = Some (JSON_stringify (cache_entry table t1))
    ∧ ∀ w2, sessionStorage w2 !! cacheKey "USD" = sessionStorage w1 !! cacheKey "USD" →
        if (next_now w2 - stored_timestamp t1 <? ONE_HOUR)%float
        then ∃ w2', getLatestRates "USD" w2 = (Ok (Some (json_norm (JObj table))), w2')
                    ∧ fetched w2' = fetched w2
        else ∃ res w2', getLatestRates "USD" w2 = (Ok res, w2')
                        ∧ fetched w2' = fetched w2 ++ [latest_url "USD"].
Proof.
  exact (cache_valid_for_one_hour "USD"
           (Examples.OfCurrency.session Examples.OfCurrency.online)
           Examples.OfCurrency.usd_rates eq_refl usd_fetch_succeeds).
Defined.


Lemma fallback_on_failure_witness :
  ∃ w',
    getLatestRates "EUR" (Examples.OfCurrency.session Examples.OfCurrency.offline)
    = (Ok (Some (JObj (relativeFallbackRates "EUR"))), w')
    ∧ (∀ c, relativeFallbackRates "EUR" !! c
            = (λ r, JNum (r / fallback_baseRate "EUR")) <$> FALLBACK_RATES !! c)
    ∧ (∀ rb, FALLBACK_RATES !! "EUR" = Some rb →
             fallback_baseRate "EUR" = rb
             ∧ relativeFallbackRates "EUR" !! "EUR" = Some (JNum 1)).
Proof.
  exact (fallback_on_failure "EUR"
           (Examples.OfCurrency.session Examples.OfCurrency.offline) eq_refl I).
Defined.

Lemma fallback_is_not_cached_witness :
  let w := Examples.OfCurrency.session Examples.OfCurrency.offline in
  ∃ w',
    getLatestRates "EUR" w = (Ok (Some (JObj (relativeFallbackRates "EUR"))), w')
    ∧ sessionStorage w' = sessionStorage w
    ∧ fetched w' = fetched w ++ [latest_url "EUR"].
Proof.
  intros w.
  destruct (fallback_is_not_cached "EUR" w eq_refl I) as (w' & Hcall & Hs & Hf & _).
  exists w'. split; [exact Hcall|]. split; [exact Hs|exact Hf].
Defined.
End CurrencyProofs.

(** ** Conversion *)

Module AppProofs.
Import JS App.

Section with_runtime.
Context {text : Type} `{!Runtime text}.
Implicit Types (st : RatesState) (A : float) (X Y : string).

Lemma convertAmount_same st A X : convertAmount st A X X = (A, []).
Proof. unfold convertAmount. by rewrite bool_decide_eq_true_2. Qed.

Lemma convertAmount_unavailable st A X Y :
  X ≠ Y → rates_unavailable st = true → convertAmount st A X Y = (0%float, []).
Proof.
  intros Hne Hun. unfold convertAmount.
  by rewrite bool_decide_eq_false_2, Hun.
Qed.

Lemma rates_available st rates :
  exchangeRates st = Some rates → isLoadingRates st = false →
  rates_unavailable st = false.
Proof. intros Hr Hl. unfold rates_unavailable. by rewrite Hr, Hl. Qed.

(** A rate is missing when the lookup finds nothing truthy: an own entry
    that is falsy, or no own entry under a name that is not inherited. *)
Lemma truthy_member_false rates k :
  truthy_member (get_member rates k) = false ↔
    match rates !! k with
    | Some v => truthy v = false
    | None => inherited k = false
    end.
Proof.
  unfold get_member. destruct (rates !! k) as [v|]; [done|].
  by destruct (inherited k).
Qed.

Lemma convertAmount_available st rates A X Y :
  X ≠ Y → exchangeRates st = Some rates → isLoadingRates st = false →
  convertAmount st A X Y =
    if truthy_member (get_member rates X) && truthy_member (get_member rates Y)
    then ((A / ToNumber_member (get_member rates X))
          * ToNumber_member (get_member rates Y), [])%float
    else (A, [warning X Y false]).
Proof.
  intros Hne Hr Hl. unfold convertAmount.
  by rewrite bool_decide_eq_false_2, (rates_available st rates), Hr, Hl.
Qed.

(** C1, in the form that holds of the code.  Converting an amount to its own currency returns it
    unchanged, whatever the state of the rates.  Between different
    currencies the result is 0 whenever no table is in place or a load
    is under way, the first one or any later one.  Otherwise, when both
    rates are numbers of the table and truthy (neither 0 nor NaN) the
    result is [(A / rate[X]) * rate[Y]]; when one of them is missing (a
    falsy entry, or no entry under a name that objects do not inherit)
    the amount is returned unchanged and a warning is written, without a
    throw; and a currency without an entry whose name objects inherit
    ([constructor], [toString], ...) counts as a rate that is there: with
    the other rate in the table the result is computed with NaN in its
    place, and no warning is written. *)
Theorem convertAmount_cases st A X Y :
  (X = Y → convertAmount st A X Y = (A, []))
  ∧ (X ≠ Y → rates_unavailable st = true → convertAmount st A X Y = (0%float, []))
  ∧ (∀ rates, X ≠ Y → exchangeRates st = Some rates → isLoadingRates st = false →
       (∀ rx ry, rates !! X = Some (JNum rx) → rates !! Y = Some (JNum ry) →
          truthy (JNum rx) = true → truthy (JNum ry) = true →
          convertAmount st A X Y = ((A / rx) * ry, [])%float)
       ∧ (truthy_member (get_member rates X) && truthy_member (get_member rates Y) = false →
          convertAmount st A X Y = (A, [warning X Y false]))
       ∧ (∀ k, truthy_member (get_member rates k) = false ↔
            match rates !! k with
            | Some v => truthy v = false
            | None => inherited k = false
            end)
       ∧ (∀ ry, rates !! X = None → inherited X = true →
          rates !! Y = Some (JNum ry) → truthy (JNum ry) = true →
          convertAmount st A X Y = ((A / nan) * ry, [])%float)
       ∧ (∀ rx, rates !! Y = None → inherited Y = true →
          rates !! X = Some (JNum rx) → truthy (JNum rx) = true →
          convertAmount st A X Y = ((A / rx) * nan, [])%float)).
Proof.
  split; [intros ->; apply convertAmount_same|].
  split; [apply convertAmount_unavailable|].
  intros rates Hne Hr Hl. rewrite (convertAmount_available st rates) by done.
  unfold get_member.
  split; [|split; [|split; [|split]]].
  - intros rx ry -> -> Hx Hy. simpl in *. by rewrite Hx, Hy.
  - by intros ->.
  - intros k. apply truthy_member_false.
  - intros ry -> -> -> Hy. simpl in *. by rewrite Hy.
  - intros rx -> -> -> Hx. simpl in *. by rewrite Hx.
Qed.
End with_runtime.

(** With the table of an earlier load in place and both rates in it, a
    hundred euros are shown as zero dollars while rates are loaded again. *)
Lemma convertAmount_zero_while_reloading :
  exchangeRates Examples.OfApp.reloading = Some Examples.OfApp.usd_table
  ∧ Examples.OfApp.usd_table !! "EUR" = Some (JNum 0.92)
  ∧ Examples.OfApp.usd_table !! "USD" = Some (JNum 1)
  ∧ convertAmount (text:=doc) Examples.OfApp.reloading 100 "EUR" "USD" = (0%float, [])
  ∧ (0 ≠ 100 / 0.92 * 1)%float.
Proof.
  repeat split; try reflexivity.
  intros Heq. apply (f_equal is_zero) in Heq. vm_compute in Heq. discriminate.
Qed.

Lemma convertAmount_cases_witness :
  convertAmount (text:=doc) Examples.OfApp.loaded 100 "EUR" "USD"
  = (100 / 0.92 * 1, [])%float
  ∧ convertAmount (text:=doc) Examples.OfApp.loaded 100 "JPY" "USD"
    = (100%float, [warning "JPY" "USD" false])
  ∧ convertAmount (text:=doc) Examples.OfApp.loaded 100 "toString" "USD"
    = (100 / nan * 1, [])%float.
Proof.
  split; [|split].
  - refine (proj1 (proj2 (proj2 (convertAmount_cases Examples.OfApp.loaded 100 "EUR" "USD"))
                    Examples.OfApp.usd_table _ eq_refl eq_refl) 0.92%float 1%float
                  eq_refl eq_refl eq_refl eq_refl).
    discriminate.
  - refine (proj1 (proj2 (proj2 (proj2 (convertAmount_cases Examples.OfApp.loaded 100
                                          "JPY" "USD"))
                            Examples.OfApp.usd_table _ eq_refl eq_refl)) eq_refl).
    discriminate.
  - refine (proj1 (proj2 (proj2 (proj2 (proj2 (proj2 (convertAmount_cases
                                                        Examples.OfApp.loaded 100
                                                        "toString" "USD"))
                                          Examples.OfApp.usd_table _ eq_refl eq_refl))))
                  1%float eq_refl eq_refl eq_refl eq_refl).
    discriminate.
Defined.
End AppProofs.

(** ** The offline worker *)

Module ServiceWorkerProofs.
Import ServiceWorker.

(** When the network is unreachable, the answer to a navigation is read from
    the dynamic cache alone. *)
Lemma navigate_offline key w :
  network w key = None →
  (navigate_strategy key w).1 =
    RespondWith
      (match cache_match DYNAMIC_CACHE key (caches_open DYNAMIC_CACHE (caches w)) with
       | Some r => Some r
       | None => cache_match DYNAMIC_CACHE (href (resolve w "/index.html"))
                   (caches_open DYNAMIC_CACHE (caches w))
       end).
Proof. intros Hnet. unfold navigate_strategy. by rewrite Hnet. Qed.

Lemma cache_of_open_other name c :
  cache_of name (caches_open name c) = cache_of name c.
Proof.
  unfold caches_open, cache_of.
  destruct (list_find (λ e, e.1 = name) c) as [[i e]|] eqn:Hfind.
  - by rewrite Hfind.
  - assert (list_find (λ e : string * gmap string Response, e.1 = name) (c ++ [(name, ∅)])
            = Some (length c, (name, ∅))) as ->; [|done].
    apply list_find_Some. split; [by rewrite lookup_app_r, Nat.sub_diag|].
    split; [done|]. intros j y Hj Hlt.
    rewrite lookup_app_l in Hj by done.
    apply list_find_None in Hfind. rewrite Forall_forall in Hfind.
    apply Hfind. by eapply list_elem_of_lookup_2.
Qed.

(** A navigation that the dynamic cache has not seen is left unanswered
    offline, whatever the static cache holds. *)
Lemma navigate_offline_ignores_static_cache (request : Request) w :
  method request = "GET" →
  protocol (url request) ≠ "chrome-extension:" →
  is_api_host (hostname (url request)) = false →
  mode request = "navigate" →
  network w (href (url request)) = None →
  cache_of DYNAMIC_CACHE (caches w) !! href (url request) = None →
  cache_of DYNAMIC_CACHE (caches w) !! href (resolve w "/index.html") = None →
  (on_fetch request w).1 = RespondWith None.
Proof.
  intros Hm Hp Hapi Hmode Hnet Hreq Hindex. unfold on_fetch.
  rewrite (bool_decide_eq_true_2 _ Hm), (bool_decide_eq_false_2 _ Hp), Hapi,
    (bool_decide_eq_true_2 _ Hmode). simpl.
  rewrite navigate_offline by done. unfold cache_match.
  by rewrite cache_of_open_other, Hreq, Hindex.
Qed.

(** C2.  What the worker does offline: right after installation the root document and [/index.html] are in the static
    cache, and yet an offline navigation to the root is answered with
    [undefined], a network error, because the navigation branch looks into
    the dynamic cache only. *)
Lemma offline_root_navigation_after_install :
  ∃ w, installed_worker = Some w
       ∧ cache_match STATIC_CACHE "https://sakuku.app/" (caches w) = Some shell
       ∧ cache_match STATIC_CACHE "https://sakuku.app/index.html" (caches w) = Some shell
       ∧ (on_fetch root_navigation (go_offline w)).1 = RespondWith None.
Proof. eexists. split; [by vm_compute|]. by vm_compute. Qed.

(** The same request in a cache-first mode is answered from the static
    cache. *)
Lemma offline_root_subresource_after_install :
  ∃ w, installed_worker = Some w
       ∧ (on_fetch {| method := "GET"; url := url root_navigation; mode := "no-cors" |}
            (go_offline w)).1 = RespondWith (Some shell).
Proof. eexists. split; [by vm_compute|]. by vm_compute. Qed.
End ServiceWorkerProofs.

(** ** More of services/storage.ts *)

Module MoreStorage.
Import JS Storage EffProofs StorageProofs.

Section with_runtime.
Context {text : Type} `{!Runtime text}.
Implicit Types (b : Browser text) (l : list jsval) (t : Transaction).

(** Settings are read from their own key: a write under the transaction
    key does not change what [getSettings] returns. *)
Lemma getSettings_after_stored ts b :
  (getSettings (stored ts b)).1 = (getSettings b).1.
Proof.
  unfold getSettings, localStorage_getItem, gets. rewrite !bind_run.
  unfold stored. simpl. rewrite lookup_insert_ne by done.
  destruct (localStorage b !! SETTINGS_KEY) as [d|]; [|done].
  destruct (is_empty d); [done|].
  unfold try_catch, parse. rewrite !bind_run.
  by destruct (JSON_parse d).
Qed.

(** X1.  Once the browser has accepted its write,
    [clearAllTransactions] has written an explicit empty list: the
    transaction key is present and holds the empty list, [getTransactions]
    returns no transaction, and what [getSettings] returns is not
    changed. *)
Theorem clearAllTransactions_spec b :
  let b' := (clearAllTransactions b).2 in
  is_Some (localStorage b' !! STORAGE_KEY)
  ∧ localStorage b' !! STORAGE_KEY = Some (stringify_transactions [])
  ∧ getTransactions b' = (Ok [], b')
  ∧ (getSettings b').1 = (getSettings b).1.
Proof.
  cbv zeta. split; [|split; [|split]].
  - simpl. rewrite lookup_insert_eq. eauto.
  - simpl. by rewrite lookup_insert_eq.
  - apply (getTransactions_stored [] b). constructor.
  - apply (getSettings_after_stored [] b).
Qed.

(** X2.  A list written by [overrideTransactions] is the list
    [getTransactions] returns next, when its transactions are kept by a write
    and a read; the settings are not changed by the write. *)
Theorem overrideTransactions_then_getTransactions ts b :
  Forall persistable ts →
  let b' := (overrideTransactions ts b).2 in
  overrideTransactions ts b = (Ok (), b')
  ∧ getTransactions b' = (Ok ts, b')
  ∧ (getSettings b').1 = (getSettings b).1.
Proof.
  intros Hts. cbv zeta. split; [done|]. split.
  - by apply (getTransactions_stored ts b).
  - apply (getSettings_after_stored ts b).
Qed.

(** The list read from a stored list of readable entries. *)
Lemma getTransactions_list b raw l :
  localStorage b !! STORAGE_KEY = Some raw →
  JSON_parse raw = Some (JArr l) →
  Forall (λ entry, unreadable (has_crypto_randomUUID b) entry = false) l →
  getTransactions b =
    (Ok (imap (defaulted_at b l) l), drawn (lacking "id" l) (lacking "date" l) b).
Proof.
  intros Hraw Hparse Hl. rewrite getTransactions_run, Hraw, Hparse.
  destruct (is_empty raw) eqn:He.
  { apply JSON_parse_empty in He. congruence. }
  by rewrite mapM_sanitize.
Qed.

(** X3.  [getTransactions] never throws and never writes to
    [localStorage], whatever the storage holds.  On a storage the service
    itself wrote it leaves the whole browser as it was (no identifier and no
    time is drawn) and every transaction it returns is kept by a further
    write and read. *)
Theorem getTransactions_is_a_read b :
  ∃ ts b',
    getTransactions b = (Ok ts, b')
    ∧ localStorage b' = localStorage b
    ∧ (app_written b → b' = b ∧ Forall persistable ts).
Proof.
  destruct (getTransactions_total b) as (ts & b' & Hget & Hls).
  exists ts, b'. split; [done|]. split; [done|].
  intros Hb. destruct (getTransactions_app_written b Hb) as (ts' & Hget' & Hts).
  rewrite Hget in Hget'. by injection Hget' as -> ->.
Qed.

Lemma lacking_lt k l i entry :
  l !! i = Some entry → lacks k entry = true →
  (lacking k (take i l) < lacking k l)%nat.
Proof.
  intros Hi Hk. rewrite <- (take_drop (S i) l) at 2.
  rewrite lacking_app, (take_S_r _ _ _ Hi), lacking_app, (lacking_cons k entry []), Hk.
  lia.
Qed.

Lemma or_else_lacking raw k d : lacks k raw = true → or_else (field raw k) d = d.
Proof.
  unfold lacks. intros Hk%negb_true_iff.
  destruct (field raw k) as [v|]; simpl in *; [by rewrite Hk|done].
Qed.

(** The list read from a stored list with an entry that is not
    readable. *)
Lemma getTransactions_unreadable b raw l :
  localStorage b !! STORAGE_KEY = Some raw →
  JSON_parse raw = Some (JArr l) →
  Exists (λ entry, unreadable (has_crypto_randomUUID b) entry = true) l →
  ∃ b', getTransactions b = (Ok [], b') ∧ localStorage b' = localStorage b.
Proof.
  intros Hraw Hparse Hl.
  destruct (getTransactions_total b) as (ts & b' & Hget & Hls).
  exists b'. split; [|done]. rewrite Hget. do 2 f_equal.
  revert Hget. rewrite getTransactions_run, Hraw, Hparse.
  destruct (is_empty raw) eqn:He.
  { apply JSON_parse_empty in He. congruence. }
  destruct (mapM_sanitize_unreadable l b Hl) as [b'' ->]. by intros [= <- _].
Qed.

(** X4.  The identifier [getTransactions] generates for a stored entry
    without one is not written back.  In a browser with
    [crypto.randomUUID] whose identifiers are pairwise distinct,
    [deleteTransaction] called with the identifier the entry was shown
    under does not delete the entry: the list it returns still has it,
    under another identifier.  In a browser without [crypto.randomUUID]
    the list with such an entry reads as empty, so [deleteTransaction],
    whatever the identifier, returns the empty list and stores it.  (For a
    stored list whose entries are not [null] and have amounts [Number]
    can convert.) *)
Theorem entry_without_id_survives_delete b raw l i entry :
  localStorage b !! STORAGE_KEY = Some raw →
  JSON_parse raw = Some (JArr l) →
  Forall (λ e, unreadable true e = false) l →
  Inj (=) (=) (random_uuids b) →
  l !! i = Some entry →
  lacks "id" entry = true →
  if has_crypto_randomUUID b
  then
    ∃ ts1 b1 u t1,
      getTransactions b = (Ok ts1, b1)
      ∧ ts1 !! i = Some t1 ∧ tx_id t1 = JStr u
      ∧ ∃ ts2 b2 t2,
          deleteTransaction u b1 = (Ok ts2, b2)
          ∧ t2 ∈ ts2
          ∧ t2 = defaulted_at b1 l i entry
          ∧ tx_id t2 ≠ JStr u
  else
    ∀ u, ∃ b2,
      deleteTransaction u b = (Ok [], b2)
      ∧ localStorage b2 !! STORAGE_KEY = Some (stringify_transactions []).
Proof.
  intros Hraw Hparse Hl Hinj Hi Hlacks.
  destruct (has_crypto_randomUUID b) eqn:Hcrypto.
  - pose (b1 := drawn (lacking "id" l) (lacking "date" l) b).
    pose (u := random_uuids b (uuid_calls b + lacking "id" (take i l))).
    exists (imap (defaulted_at b l) l), b1, u, (defaulted_at b l i entry).
    split; [apply getTransactions_list with raw; by rewrite ?Hcrypto|].
    split; [by rewrite list_lookup_imap, Hi|].
    split; [unfold defaulted_at, defaulted; cbn [tx_id]; by rewrite or_else_lacking|].
    assert (tx_id (defaulted_at b1 l i entry) ≠ JStr u) as Hne.
    { unfold defaulted_at, defaulted; cbn [tx_id]. rewrite or_else_lacking by done.
      subst u b1. simpl. intros [= Heq%Hinj].
      pose proof (lacking_lt "id" l i entry Hi Hlacks). lia. }
    assert (getTransactions b1
            = (Ok (imap (defaulted_at b1 l) l),
               drawn (lacking "id" l) (lacking "date" l) b1)) as Hget2.
    { apply getTransactions_list with raw; [done|done|].
      subst b1. cbn [has_crypto_randomUUID drawn]. by rewrite Hcrypto. }
    eexists _, _, (defaulted_at b1 l i entry).
    split; [unfold deleteTransaction; by rewrite bind_run, Hget2|].
    split; [|done].
    apply list_elem_of_In, List.filter_In. split.
    + apply list_elem_of_In, list_elem_of_lookup. exists i.
      by rewrite list_lookup_imap, Hi.
    + unfold id_differs. apply negb_true_iff.
      destruct (tx_id (defaulted_at b1 l i entry)) as [| | |s| |]; try done.
      simpl. apply bool_decide_eq_false_2. congruence.
  - intros u.
    destruct (getTransactions_unreadable b raw l Hraw Hparse) as (b' & Hget & _).
    { apply Exists_exists. exists entry. split; [by eapply list_elem_of_lookup_2|].
      rewrite Hcrypto. unfold unreadable. rewrite Hlacks. cbn.
      by rewrite orb_true_r. }
    eexists. unfold deleteTransaction. rewrite bind_run, Hget. cbv beta iota zeta.
    split; [reflexivity|]. cbn. by rewrite lookup_insert_eq.
Qed.

(** X5.  When the stored list has a [null] entry, [getTransactions]
    returns the empty list, so the next [saveTransaction] returns the new
    transaction alone and overwrites the stored list with it. *)
Theorem null_entry_then_save b raw l tx :
  localStorage b !! STORAGE_KEY = Some raw →
  JSON_parse raw = Some (JArr l) →
  JNull ∈ l →
  ∃ b',
    saveTransaction tx b = (Ok [tx], b')
    ∧ localStorage b' !! STORAGE_KEY = Some (stringify_transactions [tx]).
Proof.
  intros Hraw Hparse Hnull.
  pose proof (getTransactions_null_entry b raw l Hraw Hparse Hnull) as Hget.
  destruct (getTransactions b) as [r b1] eqn:Hb. simpl in Hget. subst r.
  eexists. unfold saveTransaction. rewrite bind_run, Hb. cbv beta iota zeta.
  split; [done|]. simpl. by rewrite lookup_insert_eq.
Qed.

(** X6.  [getSettings] never throws and leaves the browser as it was.
    The settings it returns have every key of [DEFAULT_SETTINGS]; each value
    comes from the defaults or from the stored document; they are exactly
    the defaults when the key is absent or holds malformed text, [null], a
    boolean or a number; and a field of a stored object wins over its
    default. *)
Theorem getSettings_backfills b :
  ∃ s,
    getSettings b = (Ok s, b)
    ∧ (∀ k, is_Some (DEFAULT_SETTINGS !! k) → is_Some (s !! k))
    ∧ (∀ k v, s !! k = Some v →
         DEFAULT_SETTINGS !! k = Some v
         ∨ ∃ d parsed, localStorage b !! SETTINGS_KEY = Some d
                       ∧ JSON_parse d = Some parsed ∧ own_props parsed !! k = Some v)
    ∧ (match localStorage b !! SETTINGS_KEY with
       | None => s = DEFAULT_SETTINGS
       | Some d =>
           match JSON_parse d with
           | None | Some JNull | Some (JBool _) | Some (JNum _) => s = DEFAULT_SETTINGS
           | Some (JObj m) => ∀ k v, m !! k = Some v → s !! k = Some v
           | Some _ => True
           end
       end).
Proof.
  unfold getSettings, localStorage_getItem, gets. rewrite bind_run.
  destruct (localStorage b !! SETTINGS_KEY) as [d|] eqn:Hd.
  2:{ exists DEFAULT_SETTINGS. repeat split; auto. }
  destruct (is_empty d) eqn:He.
  { exists DEFAULT_SETTINGS. rewrite (JSON_parse_empty _ He). repeat split; auto. }
  unfold try_catch, parse. rewrite bind_run.
  destruct (JSON_parse d) as [parsed|] eqn:Hparse.
  2:{ exists DEFAULT_SETTINGS. repeat split; auto. }
  exists (own_props parsed ∪ DEFAULT_SETTINGS). split; [done|]. split; [|split].
  - intros k [v Hk]. rewrite lookup_union.
    destruct (own_props parsed !! k); rewrite Hk; eauto.
  - intros k v Hk. apply lookup_union_Some_raw in Hk as [Hk|[_ Hk]]; eauto 10.
  - destruct parsed as [| | | | |m]; simpl; try done; try by rewrite (left_id_L ∅ (∪)).
    intros k v Hk. by apply lookup_union_Some_l.
Qed.

Lemma deleteTransaction_at b ts i :
  getTransactions b = (Ok ts, b) →
  deleteTransaction i b
  = (Ok (List.filter (id_differs i) ts), stored (List.filter (id_differs i) ts) b).
Proof. intros Hget. unfold deleteTransaction. by rewrite bind_run, Hget. Qed.

Lemma saveTransaction_at b ts tx :
  getTransactions b = (Ok ts, b) →
  saveTransaction tx b = (Ok (tx :: ts), stored (tx :: ts) b).
Proof. intros Hget. unfold saveTransaction. by rewrite bind_run, Hget. Qed.

Lemma filter_persistable (f : Transaction → bool) ts :
  Forall persistable ts → Forall persistable (List.filter f ts).
Proof.
  rewrite !Forall_forall. intros Hts t Ht. apply Hts.
  apply list_elem_of_In. apply list_elem_of_In, List.filter_In in Ht. tauto.
Qed.

Lemma filter_id_differs_absent i ts :
  Forall (λ t, tx_id t ≠ JStr i) ts → List.filter (id_differs i) ts = ts.
Proof.
  induction 1 as [|t ts Ht Hts IH]; [done|]. cbn. rewrite IH.
  unfold id_differs. destruct (tx_id t) as [| | |s| |]; try done. cbn.
  rewrite bool_decide_eq_false_2; [done|]. congruence.
Qed.


Lemma stored_stored ts ts' b : stored ts (stored ts' b) = stored ts b.
Proof. unfold stored. cbn. by rewrite insert_insert_eq. Qed.


(** X8.  When storage holds a list of transactions as the service writes
    it, each of them kept by a write and a read, and the browser accepts
    the writes: saving a transaction of that kind and then deleting by
    its identifier returns and stores the earlier list without every
    older transaction that had the same identifier; when no older
    transaction has it, the earlier list is returned, stored and read
    back exactly. *)
Theorem save_then_delete b ts tx i :
  persistable tx →
  tx_id tx = JStr i →
  Forall persistable ts →
  localStorage b !! STORAGE_KEY = Some (stringify_transactions ts) →
  deleteTransaction i (saveTransaction tx b).2
  = (Ok (List.filter (id_differs i) ts), stored (List.filter (id_differs i) ts) b)
  ∧ (Forall (λ t, tx_id t ≠ JStr i) ts →
     deleteTransaction i (saveTransaction tx b).2 = (Ok ts, stored ts b)
     ∧ getTransactions (stored ts b) = (Ok ts, stored ts b)).
Proof.
  intros Htx Hid Hts Hb. pose proof (getTransactions_holding b ts Hts Hb) as Hget.
  rewrite (saveTransaction_at b ts tx Hget). cbn [snd].
  rewrite (deleteTransaction_at _ (tx :: ts)).
  2:{ apply getTransactions_stored. by constructor. }
  assert (List.filter (id_differs i) (tx :: ts) = List.filter (id_differs i) ts) as ->.
  { cbn. unfold id_differs at 1. rewrite Hid. cbn. by rewrite bool_decide_eq_true_2. }
  rewrite stored_stored. split; [done|].
  intros Habsent. rewrite filter_id_differs_absent by done.
  split; [done|]. by apply getTransactions_stored.
Qed.
End with_runtime.

(** *** On the example runtime *)

Lemma overrideTransactions_then_getTransactions_witness :
  let b' := (overrideTransactions [Examples.OfStorage.lunch]
               (Examples.OfStorage.browser ∅)).2 in
  getTransactions b' = (Ok [Examples.OfStorage.lunch], b').
Proof.
  intros b'.
  refine (proj1 (proj2 (overrideTransactions_then_getTransactions
                          [Examples.OfStorage.lunch] (Examples.OfStorage.browser ∅) _))).
  constructor; [exact lunch_persistable|constructor].
Defined.

Lemma entry_without_id_survives_delete_witness :
  (let b := Examples.OfStorage.browser {[STORAGE_KEY := Examples.OfStorage.two_entries]} in
   ∃ ts1 b1 u t1,
     getTransactions b = (Ok ts1, b1)
     ∧ ts1 !! 1%nat = Some t1 ∧ tx_id t1 = JStr u
     ∧ ∃ ts2 b2 t2,
         deleteTransaction u b1 = (Ok ts2, b2)
         ∧ t2 ∈ ts2
         ∧ tx_id t2 ≠ JStr u)
  ∧ (let b := Examples.OfStorage.old_browser
                {[STORAGE_KEY := Examples.OfStorage.two_entries]} in
     ∃ b2, deleteTransaction "a1" b = (Ok [], b2)
           ∧ localStorage b2 !! STORAGE_KEY = Some (stringify_transactions [])).
Proof.
  split; intros b.
  - destruct (entry_without_id_survives_delete b Examples.OfStorage.two_entries
                [Examples.OfStorage.salary_entry; JObj ∅] 1 (JObj ∅))
      as (ts1 & b1 & u & t1 & Hget & Ht1 & Hu & ts2 & b2 & t2 & Hdel & Hin & _ & Hne).
    + reflexivity.
    + reflexivity.
    + repeat constructor; discriminate.
    + simpl. apply _.
    + reflexivity.
    + reflexivity.
    + exists ts1, b1, u, t1. split; [exact Hget|]. split; [exact Ht1|]. split; [exact Hu|].
      exists ts2, b2, t2. split; [exact Hdel|]. split; [exact Hin|exact Hne].
  - assert (Forall (λ e, unreadable true e = false)
              [Examples.OfStorage.salary_entry; JObj ∅]) as Hl
      by (repeat constructor; discriminate).
    assert (Inj (=) (=) (random_uuids b)) as Hinj by (simpl; apply _).
    exact (entry_without_id_survives_delete b Examples.OfStorage.two_entries
             [Examples.OfStorage.salary_entry; JObj ∅] 1 (JObj ∅)
             eq_refl eq_refl Hl Hinj eq_refl eq_refl "a1").
Defined.

Lemma null_entry_then_save_witness :
  let b := Examples.OfStorage.browser {[STORAGE_KEY := Examples.OfStorage.entry_and_null]} in
  ∃ b',
    saveTransaction Examples.OfStorage.lunch b = (Ok [Examples.OfStorage.lunch], b')
    ∧ localStorage b' !! STORAGE_KEY
      = Some (stringify_transactions [Examples.OfStorage.lunch]).
Proof.
  intros b.
  refine (null_entry_then_save b Examples.OfStorage.entry_and_null
            [Examples.OfStorage.salary_entry; JNull] Examples.OfStorage.lunch _ _ _).
  - reflexivity.
  - reflexivity.
  - apply list_elem_of_further, list_elem_of_here.
Defined.


Lemma save_then_delete_witness :
  let b := stored [Examples.OfStorage.lunch; Examples.OfStorage.salary]
             (Examples.OfStorage.browser ∅) in
  deleteTransaction "7c9e6679" (saveTransaction Examples.OfStorage.lunch b).2
  = (Ok [Examples.OfStorage.salary], stored [Examples.OfStorage.salary] b).
Proof.
  intros b.
  refine (proj1 (save_then_delete b [Examples.OfStorage.lunch; Examples.OfStorage.salary]
                   Examples.OfStorage.lunch "7c9e6679" _ _ _ _)).
  - exact lunch_persistable.
  - reflexivity.
  - constructor; [exact lunch_persistable|].
    constructor; [exact salary_persistable|constructor].
  - reflexivity.
Defined.
End MoreStorage.

(** ** The handlers of App.tsx *)

Module HandlersProofs.
Import JS Storage Handlers EffProofs StorageProofs MoreStorage.

Lemma toString16_digit v :
  (0 ≤ v < 16)%Z → toString16 v = String (hex_char v) EmptyString ∧ is_hex (hex_char v) = true.
Proof.
  intros Hv.
  assert (v ∈ seqZ 0 16) as Hin by (apply elem_of_seqZ; lia).
  vm_compute seqZ in Hin.
  repeat (apply elem_of_cons in Hin as [->|Hin]; [by vm_compute|]).
  by apply elem_of_nil in Hin.
Qed.

Lemma toString16_variant r :
  ∃ c, toString16 (Z.lor (Z.land r 3) 8) = String c EmptyString
       ∧ c ∈ String.list_ascii_of_string "89ab".
Proof.
  assert (0 ≤ Z.land r 3 < 4)%Z as Hland.
  { split; [apply Z.land_nonneg; lia|].
    change 3%Z with (Z.ones 2). rewrite Z.land_ones by lia. apply Z.mod_pos_bound. lia. }
  assert (Z.land r 3 ∈ seqZ 0 4) as Hin by (apply elem_of_seqZ; lia).
  vm_compute seqZ in Hin.
  repeat (apply elem_of_cons in Hin as [->|Hin];
          [eexists; split; [by vm_compute|]; vm_compute;
           by repeat first [apply list_elem_of_here | apply list_elem_of_further]|]).
  by apply elem_of_nil in Hin.
Qed.

Lemma replace_xy_layout (rnd : nat → Z) (template : string) (n : nat) :
  (∀ k, (0 ≤ rnd k < 16)%Z) →
  Forall2 generated_from (String.list_ascii_of_string template)
    (String.list_ascii_of_string (replace_xy rnd n template).1).
Proof.
  intros Hrnd. revert n. induction template as [|c rest IH]; intros n; [constructor|].
  cbn [replace_xy].
  destruct (bool_decide (c = "x"%char)) eqn:Hx; cbn [orb].
  - specialize (IH (S n)). destruct (replace_xy rnd (S n) rest) as [s n'].
    destruct (toString16_digit (rnd n) (Hrnd n)) as [-> Hhex].
    cbn. constructor; [|done]. unfold generated_from. by rewrite Hx.
  - destruct (bool_decide (c = "y"%char)) eqn:Hy.
    + specialize (IH (S n)). destruct (replace_xy rnd (S n) rest) as [s n'].
      destruct (toString16_variant (rnd n)) as (cv & -> & Hcv).
      cbn. constructor; [|done]. unfold generated_from. by rewrite Hx, Hy.
    + specialize (IH n). destruct (replace_xy rnd n rest) as [s n'].
      cbn. constructor; [|done]. unfold generated_from. by rewrite Hx, Hy.
Qed.

Lemma string_length_chars s : String.length s = length (String.list_ascii_of_string s).
Proof. induction s as [|c s IH]; simpl; congruence. Qed.

Lemma string_get_chars s n : String.get n s = String.list_ascii_of_string s !! n.
Proof.
  revert n. induction s as [|c s IH]; intros [|n]; simpl; done.
Qed.

Lemma replace_xy_length (rnd : nat → Z) (template : string) (n : nat) :
  (∀ k, (0 ≤ rnd k < 16)%Z) →
  String.length (replace_xy rnd n template).1 = String.length template.
Proof.
  intros Hrnd. pose proof (replace_xy_layout rnd template n Hrnd) as Hlay.
  apply Forall2_length in Hlay. by rewrite !string_length_chars, <- Hlay.
Qed.

Lemma replace_xy_calls (rnd : nat → Z) (template : string) (n : nat) :
  (replace_xy rnd n template).2
  = (n + length (List.filter (λ c, bool_decide (c = "x"%char) || bool_decide (c = "y"%char))
                   (String.list_ascii_of_string template)))%nat.
Proof.
  revert n. induction template as [|c rest IH]; intros n; cbn [replace_xy]; [cbn; lia|].
  cbn [String.list_ascii_of_string List.filter].
  destruct (bool_decide (c = "x"%char) || bool_decide (c = "y"%char)).
  - specialize (IH (S n)). destruct (replace_xy rnd (S n) rest) as [s n'].
    cbn in *. lia.
  - specialize (IH n). by destruct (replace_xy rnd n rest) as [s n'].
Qed.

Section with_runtime.
Context {text : Type} `{!Runtime text}.
Implicit Types (b : Browser text) (p : Page text) (ts : list Transaction).

Lemma read_holds b ts :
  Forall persistable ts → holds b ts → getTransactions b = (Ok ts, b).
Proof.
  intros Hts [Hb|[Hb ->]]; rewrite getTransactions_run, Hb; [|done].
  unfold stringify_transactions.
  rewrite JSON_stringify_nonempty, JSON_parse_stringify. simpl.
  by rewrite mapM_sanitize_stored.
Qed.

Lemma holds_stored ts b : holds (stored ts b) ts.
Proof. left. unfold stored. simpl. apply lookup_insert_eq. Qed.

Lemma has_cons i ids v : has (i :: ids) v = is_str v i || has ids v.
Proof.
  destruct v as [| | |s| |]; try done. simpl.
  rewrite <- bool_decide_or. apply bool_decide_ext. by rewrite elem_of_cons.
Qed.

Lemma filter_filter_has i ids ts :
  List.filter (λ t, negb (has ids (tx_id t))) (List.filter (id_differs i) ts)
  = List.filter (λ t, negb (has (i :: ids) (tx_id t))) ts.
Proof.
  induction ts as [|t ts IH]; [done|]. simpl. rewrite has_cons. unfold id_differs at 1.
  destruct (is_str (tx_id t) i); simpl; [done|].
  rewrite IH. by destruct (has ids (tx_id t)).
Qed.

Lemma filter_has_nil ts : List.filter (λ t, negb (has [] (tx_id t))) ts = ts.
Proof.
  induction ts as [|t ts IH]; [done|]. simpl.
  assert (has [] (tx_id t) = false) as ->.
  { by destruct (tx_id t). }
  simpl. by rewrite IH.
Qed.

(** The loop of the bulk branch, on a list the service wrote. *)
Lemma delete_each_holds ids b ts :
  Forall persistable ts → holds b ts →
  ∃ b', delete_each ids b = (Ok tt, b')
        ∧ holds b' (List.filter (λ t, negb (has ids (tx_id t))) ts)
        ∧ (∀ k, k ≠ STORAGE_KEY → localStorage b' !! k = localStorage b !! k)
        ∧ random_uuids b' = random_uuids b.
Proof.
  revert b ts. induction ids as [|i ids IH]; intros b ts Hts Hb.
  - exists b. by rewrite filter_has_nil.
  - cbn [delete_each]. rewrite bind_run. unfold deleteTransaction.
    rewrite bind_run, (read_holds b ts Hts Hb). cbv beta iota zeta.
    rewrite bind_run. unfold localStorage_setItem at 1, modify. cbv beta iota.
    rewrite ret_run. cbv beta iota.
    fold (stored (List.filter (id_differs i) ts) b).
    destruct (IH (stored (List.filter (id_differs i) ts) b) (List.filter (id_differs i) ts))
      as (b' & Hrun & Hholds & Hother & Huuids).
    { by apply filter_persistable. }
    { apply holds_stored. }
    exists b'. split; [done|]. split; [by rewrite <- filter_filter_has|].
    split; [|by rewrite Huuids].
    intros k Hk. rewrite Hother by done. unfold stored. simpl.
    by rewrite lookup_insert_ne.
Qed.

Lemma in_browser_run {A} (m : Eff (Browser text) A) p :
  in_browser m p = ((m (browser p)).1, set_browser (m (browser p)).2 p).
Proof. reflexivity. Qed.

Lemma delete_each_total ids b : ∃ b', delete_each ids b = (Ok tt, b').
Proof.
  revert b. induction ids as [|i ids IH]; intros b; [by exists b|].
  cbn [delete_each]. rewrite bind_run. unfold deleteTransaction. rewrite bind_run.
  destruct (getTransactions_total b) as (ts & b1 & -> & _). cbv beta iota zeta.
  rewrite bind_run. unfold localStorage_setItem at 1, modify. cbv beta iota.
  rewrite ret_run. cbv beta iota. apply IH.
Qed.

Lemma bulk_delete_run p ids :
  confirm_type (confirmState p) = Some bulk →
  confirm_ids (confirmState p) = Some ids →
  let remaining := List.filter (λ t, negb (has ids (tx_id t))) (transactions p) in
  ∃ p',
    handleConfirmAction p = (Ok tt, p')
    ∧ transactions p' = remaining
    ∧ localStorage (browser p') !! STORAGE_KEY = Some (stringify_transactions remaining)
    ∧ confirmState p' = closed
    ∧ (in_sync p →
       in_sync p'
       ∧ ∃ b', delete_each ids (browser p) = (Ok tt, b') ∧ holds b' remaining).
Proof.
  intros Htype Hids remaining.
  destruct (delete_each_total ids (browser p)) as [b' Hloop].
  unfold handleConfirmAction, confirmed_action. rewrite Htype, Hids.
  destruct (confirm_id (confirmState p)) as [i|].
  all: rewrite !bind_run, in_browser_run, Hloop; cbv beta iota zeta; cbn [fst snd];
    rewrite !bind_run, in_browser_run; cbn [fst snd overrideTransactions];
    eexists; (split; [reflexivity|]); cbn;
    (split; [done|]); (split; [by rewrite lookup_insert_eq|]); (split; [done|]);
    intros [Hts Hholds];
    destruct (delete_each_holds ids (browser p) (transactions p) Hts Hholds)
      as (b'' & Hloop' & Hholds' & _ & _);
    rewrite Hloop in Hloop'; injection Hloop' as <-;
    (split; [|by exists b']);
    (split; [by apply filter_persistable|]);
    left; cbn; by rewrite lookup_insert_eq.
Qed.

(** X9.  Once the browser has accepted its writes, a confirmed bulk
    deletion shows the displayed list without the transactions whose
    identifier is among the chosen ones, has overridden the stored list
    with exactly that list, and has closed the dialog.  When the displayed
    list was the stored one, the page stays in sync, and the calls of
    [deleteTransaction] in the loop had already left that same list in
    storage. *)
Theorem bulk_delete_overrides p ids :
  confirm_type (confirmState p) = Some bulk →
  confirm_ids (confirmState p) = Some ids →
  let remaining := List.filter (λ t, negb (has ids (tx_id t))) (transactions p) in
  let p' := (handleConfirmAction p).2 in
  transactions p' = remaining
  ∧ localStorage (browser p') !! STORAGE_KEY = Some (stringify_transactions remaining)
  ∧ confirmState p' = closed
  ∧ (in_sync p →
     in_sync p' ∧ holds (delete_each ids (browser p)).2 remaining).
Proof.
  intros Htype Hids remaining.
  destruct (bulk_delete_run p ids Htype Hids) as (p' & -> & Hts & Hls & Hclosed & Hsync).
  cbn [snd]. split; [done|]. split; [done|]. split; [done|].
  intros Hp. destruct (Hsync Hp) as (Hp' & b' & -> & Hholds). by split.
Qed.

(** X10.  Without [crypto.randomUUID], [generateUUID] returns a string of
    36 characters laid out as the template: a hexadecimal digit for each
    [x], one of 8, 9, a, b for the [y], hyphens and the version digit 4
    (at index 14) where the template has them.  It draws 31 random numbers
    and touches neither the browser nor the list. *)
Theorem generateUUID_polyfill_layout p :
  has_randomUUID p = false →
  (∀ k, (0 ≤ random16 p k < 16)%Z) →
  ∃ s p',
    generateUUID p = (Ok (JStr s), p')
    ∧ Forall2 generated_from (String.list_ascii_of_string UUID_TEMPLATE)
        (String.list_ascii_of_string s)
    ∧ String.length s = 36%nat
    ∧ String.get 14 s = Some "4"%char
    ∧ random_calls p' = (random_calls p + 31)%nat
    ∧ browser p' = browser p
    ∧ transactions p' = transactions p.
Proof.
  intros Hno Hrnd. unfold generateUUID, uuid_polyfill. rewrite Hno.
  pose proof (replace_xy_layout (random16 p) UUID_TEMPLATE (random_calls p) Hrnd) as Hlay.
  pose proof (replace_xy_length (random16 p) UUID_TEMPLATE (random_calls p) Hrnd) as Hlen.
  pose proof (replace_xy_calls (random16 p) UUID_TEMPLATE (random_calls p)) as Hcalls.
  destruct (replace_xy (random16 p) (random_calls p) UUID_TEMPLATE) as [s n].
  cbn [fst snd] in *. eexists s, _. split; [reflexivity|]. cbn.
  split; [done|]. split; [done|]. split; [|done].
  pose proof (Forall2_lookup_l _ _ _ 14 "4"%char Hlay eq_refl) as (c & Hc & Hgen).
  unfold generated_from in Hgen. simpl in Hgen. subst c.
  by rewrite string_get_chars.
Qed.

Lemma generateUUID_run p :
  sound_generators p →
  ∃ u p',
    generateUUID p = (Ok (JStr u), p') ∧ u ≠ ""
    ∧ localStorage (browser p') = localStorage (browser p)
    ∧ transactions p' = transactions p
    ∧ sound_generators p'.
Proof.
  intros [Huuid Hrnd]. unfold generateUUID. destruct (has_randomUUID p) eqn:Hcrypto.
  - rewrite in_browser_run. unfold crypto_randomUUID. unfold has_randomUUID in Hcrypto.
    rewrite Hcrypto. eexists _, _. split; [reflexivity|]. done.
  - unfold uuid_polyfill.
    pose proof (replace_xy_length (random16 p) UUID_TEMPLATE (random_calls p) Hrnd) as Hlen.
    destruct (replace_xy (random16 p) (random_calls p) UUID_TEMPLATE) as [u n].
    eexists _, _. split; [reflexivity|]. split; [|done].
    intros ->. cbn in Hlen. discriminate.
Qed.

Lemma holds_same_storage b b' ts :
  localStorage b' = localStorage b → holds b ts → holds b' ts.
Proof. unfold holds. by intros ->. Qed.

Lemma perform_keeps_in_sync (a : action) p :
  acceptable_action a → sound_generators p → in_sync p →
  (perform a p).1 = Ok tt
  ∧ in_sync (perform a p).2
  ∧ sound_generators (perform a p).2.
Proof.
  intros Ha Hgen [Hts Hholds]. destruct a as [newTx|i|ids| | |]; cbn [perform]; try done.
  - (* Add *)
    destruct Ha as [Ham Hde Hca Hda Hcu].
    destruct (generateUUID_run p Hgen) as (u & p1 & Hu & Hne & Hls & Htx & Hgen1).
    unfold handleAddTransaction. rewrite bind_run, Hu. cbv beta iota.
    rewrite bind_run, in_browser_run. unfold saveTransaction. rewrite bind_run.
    rewrite (read_holds (browser p1) (transactions p)) by
      (done || (eapply holds_same_storage; done)).
    cbv beta iota zeta. rewrite bind_run.
    unfold localStorage_setItem at 1 2, modify. cbv beta iota. cbn [fst snd].
    split; [done|]. split; [|done]. split; cbn.
    + constructor; [|done]. split; cbn; try done.
      split; [|done]. cbn. by rewrite bool_decide_eq_false_2.
    + left. rewrite !bind_run. cbn. by rewrite lookup_insert_eq.
  - (* Confirm *)
    unfold handleConfirmAction, confirmed_action.
    destruct (confirm_type (confirmState p)) as [[| |]|] eqn:Hty.
    + destruct (confirm_id (confirmState p)) as [i|]; [|done].
      destruct (bool_decide (i = "")); [done|].
      rewrite !bind_run, in_browser_run. unfold deleteTransaction. rewrite bind_run.
      rewrite (read_holds _ _ Hts Hholds). cbv beta iota zeta.
      split; [done|]. split; [|done]. split; cbn.
      * by apply filter_persistable.
      * left. rewrite ?bind_run. cbn. by rewrite lookup_insert_eq.
    + destruct (confirm_ids (confirmState p)) as [ids|] eqn:Hids.
      2:{ by destruct (confirm_id (confirmState p)). }
      destruct (delete_each_holds ids (browser p) (transactions p) Hts Hholds)
        as (b' & Hloop & _ & _ & Huuids).
      destruct Hgen as [Hgen Hrnd].
      destruct (confirm_id (confirmState p)) as [i|].
      all: rewrite !bind_run, in_browser_run, Hloop; cbv beta iota zeta; cbn [fst snd];
        rewrite !bind_run, in_browser_run; cbn [fst snd overrideTransactions];
        (split; [done|]); (split; [|split; cbn; [by rewrite Huuids|done]]); split; cbn;
        [by apply filter_persistable|left; cbn; by rewrite lookup_insert_eq].
    + destruct (confirm_id (confirmState p)) as [i|].
      all: rewrite !bind_run, in_browser_run; cbn [fst snd clearAllTransactions];
        (split; [done|]); (split; [|exact Hgen]); split; cbn;
        [constructor|left; cbn; by rewrite lookup_insert_eq].
    + by destruct (confirm_id (confirmState p)).
Qed.

Lemma perform_all_in_sync (l : list action) p :
  Forall acceptable_action l → sound_generators p → in_sync p →
  in_sync (perform_all l p) ∧ sound_generators (perform_all l p).
Proof.
  intros Hl. revert p. induction Hl as [|a l Ha Hl IH]; intros p Hgen Hsync; [done|].
  cbn [perform_all].
  destruct (perform_keeps_in_sync a p Ha Hgen Hsync) as (_ & Hsync' & Hgen').
  by apply IH.
Qed.

Lemma getSettings_total b : ∃ s, getSettings b = (Ok s, b).
Proof.
  unfold getSettings, localStorage_getItem, gets. rewrite bind_run.
  destruct (localStorage b !! SETTINGS_KEY) as [d|]; [|by eauto].
  destruct (is_empty d); [by eauto|].
  unfold try_catch, parse. rewrite bind_run.
  destruct (JSON_parse d); by eauto.
Qed.

Lemma getSettings_settings_stored b (s : gmap string jsval) :
  map_Forall (λ _ v, json_norm v = v) s →
  getSettings (settings_stored s b) = (Ok (s ∪ DEFAULT_SETTINGS), settings_stored s b).
Proof.
  intros Hs. unfold getSettings, localStorage_getItem, gets. rewrite bind_run.
  unfold settings_stored at 1. simpl. rewrite lookup_insert_eq.
  rewrite JSON_stringify_nonempty.
  unfold try_catch, parse. rewrite bind_run, JSON_parse_stringify.
  simpl. replace (json_norm <$> s) with s; [done|].
  apply map_eq. intros k. rewrite lookup_fmap.
  destruct (s !! k) as [v|] eqn:Hk; [|done].
  simpl. by rewrite (Hs k v Hk).
Qed.

Lemma load_initial_data_run p ts b1 s :
  getTransactions (browser p) = (Ok ts, b1) →
  getSettings b1 = (Ok s, b1) →
  load_initial_data p
  = (Ok tt,
     {| browser := b1; random16 := random16 p;
        random_calls := random_calls p; transactions := ts; settings := s;
        isModalOpen := isModalOpen p; confirmState := confirmState p;
        light_mode := is_str_opt (s !! "theme") "light" |}).
Proof.
  intros Hts Hs. unfold load_initial_data.
  rewrite bind_run, in_browser_run, Hts. cbv beta iota. cbn [fst snd].
  rewrite bind_run. cbn [setTransactions modify fst snd]. cbv beta iota.
  rewrite bind_run, in_browser_run. cbn [browser set_browser]. rewrite Hs.
  cbv beta iota. cbn [fst snd]. rewrite bind_run. reflexivity.
Qed.

(** X11.  The mount effect never fails and never writes to
    [localStorage], whatever is stored.  The page then shows what
    [getTransactions] and [getSettings] return for the browser, the settings
    have every default key, the light theme is on exactly when the
    settings' theme is [light], and the dialog and the modal are as they
    were. *)
Theorem load_initial_data_total p :
  ∃ p',
    load_initial_data p = (Ok tt, p')
    ∧ localStorage (browser p') = localStorage (browser p)
    ∧ (getTransactions (browser p)).1 = Ok (transactions p')
    ∧ (getSettings (browser p)).1 = Ok (settings p')
    ∧ (∀ k, is_Some (DEFAULT_SETTINGS !! k) → is_Some (settings p' !! k))
    ∧ light_mode p' = is_str_opt (settings p' !! "theme") "light"
    ∧ confirmState p' = confirmState p ∧ isModalOpen p' = isModalOpen p.
Proof.
  destruct (getTransactions_total (browser p)) as (ts & b1 & Hts & Hls).
  destruct (getSettings_total b1) as [s Hs].
  eexists. split; [by apply load_initial_data_run with (b1 := b1) (s := s)|].
  cbn. rewrite Hts. split; [done|]. split; [done|].
  assert ((getSettings (browser p)).1 = Ok s) as Hs'.
  { revert Hs. unfold getSettings, localStorage_getItem, gets. rewrite !bind_run, Hls.
    destruct (localStorage (browser p) !! SETTINGS_KEY) as [d|]; [|by intros [= <-]].
    destruct (is_empty d); [by intros [= <-]|].
    unfold try_catch, parse. rewrite !bind_run.
    destruct (JSON_parse d); by intros [= <-]. }
  split; [done|]. split; [|done].
  intros k [v Hk]. revert Hs. unfold getSettings, localStorage_getItem, gets.
  rewrite !bind_run.
  destruct (localStorage b1 !! SETTINGS_KEY) as [d|]; [|intros [= <-]; by eauto].
  destruct (is_empty d); [intros [= <-]; by eauto|].
  unfold try_catch, parse. rewrite !bind_run.
  destruct (JSON_parse d) as [parsed|]; intros [= <-]; [|by eauto].
  rewrite lookup_union. destruct (own_props parsed !! k); rewrite Hk; eauto.
Qed.

(** X12.  Settings given to [updateSettingsLogic] are there after a
    reload: the mount effect run afterwards sets the settings to the saved
    ones over the defaults and applies the same theme, and the displayed
    list is the same before, between and after, the page staying in sync
    (for settings that survive serialisation, on a page in sync). *)
Theorem settings_survive_reload p (s : gmap string jsval) :
  map_Forall (λ _ v, json_norm v = v) s →
  in_sync p →
  let p1 := (updateSettingsLogic s p).2 in
  let p2 := (load_initial_data p1).2 in
  (updateSettingsLogic s p).1 = Ok tt
  ∧ (load_initial_data p1).1 = Ok tt
  ∧ settings p1 = s
  ∧ settings p2 = s ∪ DEFAULT_SETTINGS
  ∧ light_mode p2 = light_mode p1
  ∧ transactions p1 = transactions p
  ∧ transactions p2 = transactions p
  ∧ in_sync p2.
Proof.
  intros Hs [Hts Hholds]. cbv zeta.
  assert (updateSettingsLogic s p
          = (Ok tt,
             {| browser := settings_stored s (browser p);
                random16 := random16 p;
                random_calls := random_calls p; transactions := transactions p;
                settings := s; isModalOpen := isModalOpen p;
                confirmState := confirmState p;
                light_mode := is_str_opt (s !! "theme") "light" |})) as Hupd.
  { unfold updateSettingsLogic. rewrite bind_run. cbn [setSettings modify fst snd].
    cbv beta iota. rewrite bind_run, in_browser_run. reflexivity. }
  rewrite Hupd. cbn [fst snd].
  assert (holds (settings_stored s (browser p)) (transactions p)) as Hholds'.
  { unfold holds, settings_stored. simpl. by rewrite lookup_insert_ne. }
  rewrite (load_initial_data_run _ (transactions p) (settings_stored s (browser p))
             (s ∪ DEFAULT_SETTINGS)).
  2:{ by apply read_holds. }
  2:{ by apply getSettings_settings_stored. }
  cbn. repeat (split; [done|]). split; [|done].
  rewrite lookup_union. destruct (s !! "theme") as [v|]; [|done].
  by destruct v.
Qed.

(** X13.  Along any sequence of user actions (adding what the form
    hands over, asking for a deletion of one, of several or of all
    transactions, confirming, cancelling) whose writes the browser
    accepts, on a page in sync whose generators give non-empty identifiers,
    the displayed list stays the stored one: the mount effect run at the
    end shows the same list and leaves the browser as it is. *)
Theorem session_survives_reload (l : list action) p :
  Forall acceptable_action l → sound_generators p → in_sync p →
  let p' := perform_all l p in
  in_sync p'
  ∧ (load_initial_data p').1 = Ok tt
  ∧ transactions (load_initial_data p').2 = transactions p'
  ∧ browser (load_initial_data p').2 = browser p'.
Proof.
  intros Hl Hgen Hsync. cbv zeta. split.
  - by apply perform_all_in_sync.
  - destruct (perform_all_in_sync l p Hl Hgen Hsync) as [[Hts Hholds] _].
    destruct (getSettings_total (browser (perform_all l p))) as [s Hs].
    by rewrite (load_initial_data_run _ _ _ s (read_holds _ _ Hts Hholds) Hs).
Qed.

(** X14.  A confirmation with nothing to act on (no type; a single
    deletion without an identifier or with the empty one; a bulk deletion
    without identifiers) only closes the dialog: browser and list are
    unchanged. *)
Theorem confirm_without_target p :
  confirm_type (confirmState p) = None
  ∨ (confirm_type (confirmState p) = Some single
     ∧ (confirm_id (confirmState p) = None ∨ confirm_id (confirmState p) = Some ""))
  ∨ (confirm_type (confirmState p) = Some bulk ∧ confirm_ids (confirmState p) = None) →
  ∃ p',
    handleConfirmAction p = (Ok tt, p')
    ∧ browser p' = browser p
    ∧ transactions p' = transactions p
    ∧ confirmState p' = closed.
Proof.
  intros Hcase. eexists. unfold handleConfirmAction, confirmed_action.
  destruct Hcase as [->|[[-> [-> | ->]]|[-> ->]]].
  - split; [by destruct (confirm_id (confirmState p))|].
    by destruct (confirm_id (confirmState p)).
  - by destruct (confirm_ids (confirmState p)).
  - done.
  - split; [by destruct (confirm_id (confirmState p))|].
    by destruct (confirm_id (confirmState p)).
Qed.

Lemma single_delete_run p i :
  confirm_type (confirmState p) = Some single →
  confirm_id (confirmState p) = Some i →
  i ≠ "" →
  ∃ stored_list b1 p',
    getTransactions (browser p) = (Ok stored_list, b1)
    ∧ handleConfirmAction p = (Ok tt, p')
    ∧ transactions p' = List.filter (id_differs i) stored_list
    ∧ localStorage (browser p') !! STORAGE_KEY
      = Some (stringify_transactions (List.filter (id_differs i) stored_list))
    ∧ confirmState p' = closed
    ∧ (in_sync p →
       stored_list = transactions p ∧ in_sync p').
Proof.
  intros Hty Hid Hne.
  destruct (getTransactions_total (browser p)) as (ts & b1 & Hget & Hls).
  exists ts, b1. eexists. split; [done|].
  unfold handleConfirmAction, confirmed_action. rewrite Hty, Hid.
  rewrite (bool_decide_eq_false_2 _ Hne).
  rewrite !bind_run, in_browser_run. unfold deleteTransaction. rewrite bind_run, Hget.
  cbv beta iota zeta. rewrite bind_run. cbn [localStorage_setItem modify fst snd].
  cbv beta iota. rewrite ret_run. cbn [fst snd].
  split; [reflexivity|]. cbn. split; [done|]. split; [by rewrite lookup_insert_eq|].
  split; [done|].
  intros [Hts Hholds]. rewrite (read_holds _ _ Hts Hholds) in Hget.
  injection Hget as <- <-. split; [done|]. split; cbn.
  - by apply filter_persistable.
  - left. cbn. by rewrite lookup_insert_eq.
Qed.

(** X15.  Once the browser has accepted its write, a confirmed deletion
    of one transaction shows the stored list (not the displayed one)
    without the transactions of that identifier, which is also what it
    has stored, and the dialog is closed.  On a page in sync the stored
    list is the displayed one and the page stays in sync. *)
Theorem confirm_single_delete p i :
  confirm_type (confirmState p) = Some single →
  confirm_id (confirmState p) = Some i →
  i ≠ "" →
  let p' := (handleConfirmAction p).2 in
  ∃ stored_list b1,
    getTransactions (browser p) = (Ok stored_list, b1)
    ∧ transactions p' = List.filter (id_differs i) stored_list
    ∧ localStorage (browser p') !! STORAGE_KEY
      = Some (stringify_transactions (List.filter (id_differs i) stored_list))
    ∧ confirmState p' = closed
    ∧ (in_sync p →
       stored_list = transactions p ∧ in_sync p').
Proof.
  intros Hty Hid Hne.
  destruct (single_delete_run p i Hty Hid Hne)
    as (ts & b1 & p' & Hget & -> & Hts & Hls & Hclosed & Hsync).
  cbn [snd]. by exists ts, b1.
Qed.

Lemma handleAddTransaction_run (newTx : NewTransaction) p :
  has_randomUUID p = true →
  in_sync p →
  let u := random_uuids (browser p) (uuid_calls (browser p)) in
  ∃ p',
    handleAddTransaction newTx p = (Ok tt, p')
    ∧ transactions p' = with_id newTx (JStr u) :: transactions p
    ∧ localStorage (browser p') !! STORAGE_KEY
      = Some (stringify_transactions (transactions p'))
    ∧ isModalOpen p' = false
    ∧ confirmState p' = confirmState p
    ∧ uuid_calls (browser p') = S (uuid_calls (browser p))
    ∧ random_uuids (browser p') = random_uuids (browser p)
    ∧ (acceptable newTx → u ≠ "" → in_sync p').
Proof.
  intros Hcrypto [Hts Hholds] u. eexists.
  unfold handleAddTransaction, generateUUID.
  rewrite bind_run, Hcrypto, in_browser_run. unfold crypto_randomUUID.
  unfold has_randomUUID in Hcrypto. rewrite Hcrypto. cbn [fst snd].
  cbv beta iota. rewrite bind_run, in_browser_run. unfold saveTransaction.
  rewrite bind_run. cbn [browser set_browser].
  rewrite (read_holds _ (transactions p)); [|done|by apply (holds_same_storage (browser p))].
  cbv beta iota zeta. rewrite bind_run.
  unfold localStorage_setItem at 1 2, modify. cbv beta iota. cbn [fst snd].
  rewrite ?bind_run. cbn.
  split; [reflexivity|]. cbn. split; [done|]. split; [by rewrite lookup_insert_eq|].
  split; [done|]. split; [done|]. split; [done|]. split; [done|].
  intros [Ham Hde Hca Hda Hcu] Hne. split; cbn.
  - constructor; [|done]. split; cbn; try done.
    split; [|done]. cbn. by rewrite bool_decide_eq_false_2.
  - left. cbn. by rewrite lookup_insert_eq.
Qed.

(** X28.  With [crypto.randomUUID], on a page in sync, once the browser
    has accepted the write, [handleAddTransaction] has given the new
    transaction the next identifier of the browser, shows and has stored it
    in front of the list, and has closed the modal; the browser's next
    identifier is the one after.  Nothing is validated: the page stays in
    sync when the transaction is one the form hands over and the
    identifier is not empty. *)
Theorem handleAddTransaction_prepends (newTx : NewTransaction) p :
  has_randomUUID p = true →
  in_sync p →
  let u := random_uuids (browser p) (uuid_calls (browser p)) in
  let p' := (handleAddTransaction newTx p).2 in
  transactions p' = with_id newTx (JStr u) :: transactions p
  ∧ localStorage (browser p') !! STORAGE_KEY
    = Some (stringify_transactions (transactions p'))
  ∧ isModalOpen p' = false
  ∧ confirmState p' = confirmState p
  ∧ uuid_calls (browser p') = S (uuid_calls (browser p))
  ∧ random_uuids (browser p') = random_uuids (browser p)
  ∧ (acceptable newTx → u ≠ "" → in_sync p').
Proof.
  intros Hcrypto Hsync u.
  destruct (handleAddTransaction_run newTx p Hcrypto Hsync) as (p' & -> & Hrest).
  exact Hrest.
Qed.
End with_runtime.

(** *** On the example runtime *)

Lemma example_page_in_sync ts c :
  Forall persistable ts → in_sync (MoreExamples.OfHandlers.page_showing ts c).
Proof.
  intros Hts. split; [exact Hts|]. left. apply lookup_insert_eq.
Defined.

Lemma examples_persistable :
  Forall persistable [Examples.OfStorage.lunch; Examples.OfStorage.salary].
Proof.
  constructor; [exact lunch_persistable|].
  constructor; [exact salary_persistable|constructor].
Defined.

Lemma lunch_alone_persistable : Forall persistable [Examples.OfStorage.lunch].
Proof. constructor; [exact lunch_persistable|constructor]. Defined.

Lemma example_page_sound_generators ts c :
  sound_generators (MoreExamples.OfHandlers.page_showing ts c).
Proof.
  split.
  - intros n. simpl. discriminate.
  - intros n. simpl. apply Z.mod_pos_bound. lia.
Defined.

Lemma coffee_acceptable : acceptable MoreExamples.OfHandlers.coffee.
Proof.
  split; try (split; reflexivity).
  split; [reflexivity|]. intros Hz. vm_compute in Hz. discriminate.
Defined.

Lemma bulk_delete_overrides_witness :
  let p := MoreExamples.OfHandlers.page_showing
             [Examples.OfStorage.lunch; Examples.OfStorage.salary]
             (MoreExamples.OfHandlers.asking_bulk ["7c9e6679"]) in
  let p' := (handleConfirmAction p).2 in
  transactions p' = [Examples.OfStorage.salary]
  ∧ localStorage (browser p') !! STORAGE_KEY
    = Some (stringify_transactions [Examples.OfStorage.salary])
  ∧ confirmState p' = closed.
Proof.
  intros p p'.
  destruct (bulk_delete_overrides p ["7c9e6679"] eq_refl eq_refl)
    as (Hts & Hls & Hclosed & _).
  split; [exact Hts|]. split; [exact Hls|exact Hclosed].
Defined.

Lemma generateUUID_polyfill_layout_witness :
  let p := MoreExamples.OfHandlers.old_browser_page [] in
  ∃ s p',
    generateUUID p = (Ok (JStr s), p')
    ∧ String.length s = 36%nat
    ∧ String.get 14 s = Some "4"%char
    ∧ random_calls p' = 31%nat.
Proof.
  intros p.
  destruct (generateUUID_polyfill_layout p) as (s & p' & Hrun & _ & Hlen & Hv & Hcalls & _).
  - reflexivity.
  - intros k. simpl. apply Z.mod_pos_bound. lia.
  - exists s, p'. split; [exact Hrun|]. split; [exact Hlen|]. split; [exact Hv|exact Hcalls].
Defined.

Lemma settings_survive_reload_witness :
  let p := MoreExamples.OfHandlers.page_showing [Examples.OfStorage.lunch] closed in
  let p1 := (updateSettingsLogic Examples.OfStorage.light_theme p).2 in
  let p2 := (load_initial_data p1).2 in
  settings p2 = Examples.OfStorage.light_theme ∪ DEFAULT_SETTINGS
  ∧ light_mode p2 = light_mode p1
  ∧ transactions p2 = transactions p.
Proof.
  intros p p1 p2.
  destruct (settings_survive_reload p Examples.OfStorage.light_theme)
    as (_ & _ & _ & Hs & Hl & _ & Hts & _).
  - intros k v Hk. unfold Examples.OfStorage.light_theme in Hk.
    apply lookup_singleton_Some in Hk as [_ <-]. reflexivity.
  - apply example_page_in_sync, lunch_alone_persistable.
  - split; [exact Hs|]. split; [exact Hl|exact Hts].
Defined.

Lemma session_survives_reload_witness :
  let p := MoreExamples.OfHandlers.page_showing [Examples.OfStorage.lunch] closed in
  let p' := perform_all [Add MoreExamples.OfHandlers.coffee; AskDelete "7c9e6679"; Confirm] p in
  in_sync p'
  ∧ (load_initial_data p').1 = Ok tt
  ∧ transactions (load_initial_data p').2 = transactions p'
  ∧ browser (load_initial_data p').2 = browser p'.
Proof.
  intros p p'.
  refine (session_survives_reload
            [Add MoreExamples.OfHandlers.coffee; AskDelete "7c9e6679"; Confirm]
            p _ _ _).
  - constructor; [exact coffee_acceptable|]. repeat (constructor; [exact I|]). constructor.
  - apply example_page_sound_generators.
  - apply example_page_in_sync, lunch_alone_persistable.
Defined.

Lemma confirm_without_target_witness :
  let p := MoreExamples.OfHandlers.page_showing [Examples.OfStorage.lunch]
             (MoreExamples.OfHandlers.asking_single "") in
  ∃ p',
    handleConfirmAction p = (Ok tt, p')
    ∧ browser p' = browser p
    ∧ transactions p' = transactions p
    ∧ confirmState p' = closed.
Proof.
  intros p. refine (confirm_without_target p _).
  right. left. split; [reflexivity|]. right. reflexivity.
Defined.

Lemma confirm_single_delete_witness :
  let p := MoreExamples.OfHandlers.page_showing
             [Examples.OfStorage.lunch; Examples.OfStorage.salary]
             (MoreExamples.OfHandlers.asking_single "7c9e6679") in
  let p' := (handleConfirmAction p).2 in
  transactions p' = [Examples.OfStorage.salary]
  ∧ localStorage (browser p') !! STORAGE_KEY
    = Some (stringify_transactions [Examples.OfStorage.salary])
  ∧ confirmState p' = closed.
Proof.
  intros p p'.
  destruct (confirm_single_delete p "7c9e6679")
    as (ts & b1 & Hget & Hts & Hls & Hclosed & Hsync).
  - reflexivity.
  - reflexivity.
  - discriminate.
  - destruct (Hsync (example_page_in_sync _ _ examples_persistable)) as [-> _].
    split; [exact Hts|]. split; [exact Hls|exact Hclosed].
Defined.

Lemma handleAddTransaction_prepends_witness :
  let p := MoreExamples.OfHandlers.page_showing [Examples.OfStorage.lunch] closed in
  let p' := (handleAddTransaction MoreExamples.OfHandlers.coffee p).2 in
  transactions p'
  = [with_id MoreExamples.OfHandlers.coffee (JStr "id-0"); Examples.OfStorage.lunch]
  ∧ isModalOpen p' = false.
Proof.
  intros p p'.
  destruct (handleAddTransaction_prepends MoreExamples.OfHandlers.coffee p)
    as (Hts & _ & Hmodal & _).
  - reflexivity.
  - apply example_page_in_sync, lunch_alone_persistable.
  - split; [exact Hts|exact Hmodal].
Defined.
End HandlersProofs.

(** ** More of public/sw.js *)

Module WorkerProofs.
Import ServiceWorker.

Implicit Types (c : CacheStorage) (w : Worker) (r : Response).

Lemma cache_of_nil name : cache_of name [] = ∅.
Proof. done. Qed.

Lemma cache_of_cons name n (e : gmap string Response) c :
  cache_of name ((n, e) :: c) = if decide (n = name) then e else cache_of name c.
Proof.
  unfold cache_of. cbn. destruct (decide (n = name)); [done|].
  by destruct (list_find (λ e, e.1 = name) c) as [[? [? ?]]|].
Qed.

Lemma cache_of_app_absent name c c' :
  name ∉ c.*1 → cache_of name (c ++ c') = cache_of name c'.
Proof.
  induction c as [|[n e] c IH]; [done|]. cbn. intros Hn.
  rewrite cache_of_cons. apply not_elem_of_cons in Hn as [Hne Hn].
  destruct (decide (n = name)); [congruence|]. by apply IH.
Qed.

Lemma cache_of_app_present name c c' :
  name ∈ c.*1 → cache_of name (c ++ c') = cache_of name c.
Proof.
  induction c as [|[n e] c IH]; cbn; [by intros ?%elem_of_nil|].
  intros Hn. rewrite !cache_of_cons. destruct (decide (n = name)); [done|].
  apply elem_of_cons in Hn as [Hn|Hn]; [congruence|]. by apply IH.
Qed.

Lemma cache_of_absent name c : name ∉ c.*1 → cache_of name c = ∅.
Proof.
  intros Hn. rewrite <- (app_nil_r c). by rewrite cache_of_app_absent.
Qed.

Lemma caches_open_spec name c :
  caches_open name c = if decide (name ∈ c.*1) then c else c ++ [(name, ∅)].
Proof.
  unfold caches_open.
  destruct (list_find (λ e, e.1 = name) c) as [[i e]|] eqn:Hfind.
  - apply list_find_Some in Hfind as (Hi & He & _).
    rewrite decide_True; [done|]. apply list_elem_of_fmap. exists e. split; [done|].
    by eapply list_elem_of_lookup_2.
  - apply list_find_None in Hfind. rewrite Forall_forall in Hfind.
    rewrite decide_False; [done|]. intros (e & He & Hin)%list_elem_of_fmap.
    by apply (Hfind e Hin).
Qed.

Lemma caches_open_names name c : name ∈ (caches_open name c).*1.
Proof.
  rewrite caches_open_spec. destruct (decide (name ∈ c.*1)); [done|].
  rewrite fmap_app. apply elem_of_app. right. cbn. apply list_elem_of_singleton. done.
Qed.

Lemma cache_of_open name' name c :
  cache_of name' (caches_open name c) = cache_of name' c.
Proof.
  rewrite caches_open_spec. destruct (decide (name ∈ c.*1)) as [Hin|Hnin]; [done|].
  destruct (decide (name' ∈ c.*1)) as [Hin'|Hnin'].
  - by apply cache_of_app_present.
  - rewrite cache_of_app_absent, (cache_of_absent name' c) by done.
    rewrite cache_of_cons. destruct (decide (name = name')); [done|apply cache_of_nil].
Qed.

Lemma cache_put_names name key r c : (cache_put name key r c).*1 = c.*1.
Proof.
  unfold cache_put. rewrite <- list_fmap_compose. apply list_fmap_ext.
  intros i [n e] _. cbn. by destruct (bool_decide (n = name)).
Qed.

Lemma cache_of_put name' name key r c :
  cache_of name' (cache_put name key r c)
  = if decide (name' = name ∧ name ∈ c.*1) then <[key := r]> (cache_of name c)
    else cache_of name' c.
Proof.
  induction c as [|[n e] c IH].
  { cbn. rewrite decide_False; [done|]. by intros [_ ?%elem_of_nil]. }
  change (cache_put name key r ((n, e) :: c))
    with ((if bool_decide (n = name) then (n, <[key := r]> e) else (n, e))
          :: cache_put name key r c).
  destruct (decide (n = name)) as [->|Hne].
  - rewrite bool_decide_eq_true_2 by done. rewrite !cache_of_cons.
    destruct (decide (name = name')) as [<-|Hne'].
    + rewrite decide_True; [by rewrite decide_True|].
      split; [done|]. cbn. by left.
    + rewrite IH. rewrite decide_False by (intros [? _]; congruence).
      rewrite decide_False by (intros [? _]; congruence). done.
  - rewrite bool_decide_eq_false_2 by done. rewrite !cache_of_cons, IH.
    destruct (decide (n = name')) as [->|Hne'].
    + rewrite decide_False by (intros [? _]; congruence). done.
    + rewrite (decide_False (P := n = name)) by done.
      cbn. destruct (decide (name' = name ∧ name ∈ c.*1)) as [[-> Hin]|Hno].
      * rewrite decide_True; [done|]. split; [done|]. by right.
      * rewrite decide_False; [done|]. intros [-> [?|?]%elem_of_cons]; [congruence|].
        by apply Hno.
Qed.

(** [put] after [open], read through [cache_of]. *)
Lemma cache_of_put_open name' name key r c :
  cache_of name' (cache_put name key r (caches_open name c))
  = if decide (name' = name) then <[key := r]> (cache_of name c) else cache_of name' c.
Proof.
  rewrite cache_of_put, !cache_of_open.
  destruct (decide (name' = name)) as [->|Hne].
  - rewrite decide_True; [done|]. split; [done|]. apply caches_open_names.
  - rewrite decide_False; [done|]. by intros [? _].
Qed.

Lemma cache_of_filter (keep : string → bool) name c :
  keep name = true →
  cache_of name (List.filter (λ e, keep e.1) c) = cache_of name c.
Proof.
  intros Hkeep. induction c as [|[n e] c IH]; [done|]. cbn.
  destruct (keep n) eqn:Hn.
  - rewrite !cache_of_cons. by destruct (decide (n = name)).
  - rewrite cache_of_cons, IH. destruct (decide (n = name)); [congruence|done].
Qed.

Lemma cache_of_filter_out (keep : string → bool) name c :
  keep name = false →
  cache_of name (List.filter (λ e, keep e.1) c) = ∅.
Proof.
  intros Hkeep. induction c as [|[n e] c IH]; [done|]. cbn.
  destruct (keep n) eqn:Hn; [|done].
  rewrite cache_of_cons. destruct (decide (n = name)); [congruence|done].
Qed.

Lemma filter_In_elem_of {A} (f : A → bool) (l : list A) x :
  x ∈ List.filter f l ↔ x ∈ l ∧ f x = true.
Proof. rewrite !list_elem_of_In. apply List.filter_In. Qed.

Lemma filter_idem {A} (f : A → bool) (l : list A) :
  List.filter f (List.filter f l) = List.filter f l.
Proof.
  induction l as [|x l IH]; [done|]. cbn. destruct (f x) eqn:Hx; [|done].
  cbn. by rewrite Hx, IH.
Qed.

(** X16.  Activation keeps exactly the caches named [STATIC_CACHE] or
    [DYNAMIC_CACHE], in their order and with their content, deletes every
    other cache, leaves the network as it is, and doing it twice is doing
    it once. *)
Theorem activate_keeps_current_caches w :
  (∀ e, e ∈ caches (activate w)
        ↔ e ∈ caches w ∧ (e.1 = STATIC_CACHE ∨ e.1 = DYNAMIC_CACHE))
  ∧ caches (activate w) `sublist_of` caches w
  ∧ cache_of STATIC_CACHE (caches (activate w)) = cache_of STATIC_CACHE (caches w)
  ∧ cache_of DYNAMIC_CACHE (caches (activate w)) = cache_of DYNAMIC_CACHE (caches w)
  ∧ (∀ name, name ≠ STATIC_CACHE → name ≠ DYNAMIC_CACHE →
       cache_of name (caches (activate w)) = ∅)
  ∧ activate (activate w) = activate w
  ∧ network (activate w) = network w.
Proof.
  pose (keep := λ n : string,
          negb (negb (bool_decide (n = STATIC_CACHE))
                && negb (bool_decide (n = DYNAMIC_CACHE)))).
  assert (∀ n, keep n = true ↔ n = STATIC_CACHE ∨ n = DYNAMIC_CACHE) as Hkeep.
  { intros n. unfold keep. rewrite negb_true_iff, andb_false_iff, !negb_false_iff,
      !bool_decide_eq_true. done. }
  change (caches (activate w)) with (List.filter (λ e, keep e.1) (caches w)).
  split; [|split; [|split; [|split; [|split; [|split]]]]].
  - intros e. rewrite filter_In_elem_of. by rewrite Hkeep.
  - induction (caches w) as [|e c IH]; [done|]. cbn.
    destruct (keep e.1); [by apply sublist_skip|by apply sublist_cons].
  - apply cache_of_filter. apply Hkeep. by left.
  - apply cache_of_filter. apply Hkeep. by right.
  - intros name Hs Hd. apply cache_of_filter_out.
    destruct (keep name) eqn:Hn; [|done]. apply Hkeep in Hn as [?|?]; congruence.
  - unfold activate, with_caches. cbn. f_equal. apply filter_idem.
  - done.
Qed.

Lemma cache_of_foldl_put_other name' name (rs : list (string * Response)) c :
  name' ≠ name →
  cache_of name' (foldl (λ c kr, cache_put name kr.1 kr.2 c) c rs) = cache_of name' c.
Proof.
  intros Hne. revert c. induction rs as [|kr rs IH]; intros c; [done|]. cbn.
  rewrite IH, cache_of_put. rewrite decide_False; [done|]. by intros [? _].
Qed.

Lemma cache_of_foldl_put name (net : string → option Response)
    (rs : list (string * Response)) c key :
  name ∈ c.*1 →
  Forall (λ kr, net kr.1 = Some kr.2) rs →
  cache_of name (foldl (λ c kr, cache_put name kr.1 kr.2 c) c rs) !! key
  = if decide (key ∈ rs.*1) then net key else cache_of name c !! key.
Proof.
  intros Hin Hrs. revert c Hin.
  induction Hrs as [|[k r] rs Hkr Hrs IH]; intros c Hin.
  { cbn. rewrite decide_False; [done|]. apply not_elem_of_nil. }
  cbn [foldl fst snd]. rewrite IH by by rewrite cache_put_names.
  rewrite cache_of_put. rewrite (decide_True (P := name = name ∧ name ∈ c.*1)) by done.
  cbn in Hkr. cbn [fmap list_fmap fst].
  destruct (decide (key ∈ rs.*1)) as [Hk|Hk].
  - rewrite decide_True; [done|]. by right.
  - destruct (decide (key = k)) as [->|Hne].
    + rewrite lookup_insert_eq, decide_True; [done|]. by left.
    + rewrite lookup_insert_ne by done. rewrite decide_False; [done|].
      intros [?|?]%elem_of_cons; congruence.
Qed.

(** X17.  Installation succeeds exactly when the network answers every
    static asset with an ok response.  Then the static cache holds, for every
    asset, the response the network gave, its other entries and all other
    caches are as before; otherwise some asset was unreachable or answered
    with a response that is not ok. *)
Theorem install_all_or_nothing w :
  match install w with
  | Some w' =>
      (∀ p, p ∈ STATIC_ASSETS →
         ∃ r, network w (href (resolve w p)) = Some r ∧ ok r = true
              ∧ cache_match STATIC_CACHE (href (resolve w p)) (caches w') = Some r)
      ∧ (∀ key, key ∉ (λ p, href (resolve w p)) <$> STATIC_ASSETS →
           cache_match STATIC_CACHE key (caches w')
           = cache_match STATIC_CACHE key (caches w))
      ∧ (∀ name, name ≠ STATIC_CACHE →
           cache_of name (caches w') = cache_of name (caches w))
      ∧ network w' = network w
  | None =>
      ∃ p, p ∈ STATIC_ASSETS
           ∧ match network w (href (resolve w p)) with
             | Some r => ok r = false
             | None => True
             end
  end.
Proof.
  unfold install. cbv zeta.
  destruct (mapM _ ((λ p, href (resolve w p)) <$> STATIC_ASSETS)) as [rs|] eqn:Hrs; cbn.
  - apply mapM_Some in Hrs.
    assert (rs.*1 = (λ p, href (resolve w p)) <$> STATIC_ASSETS) as Hkeys.
    { clear -Hrs. induction Hrs as [|k [k' r] ks rs Hk _ IH]; [done|]. cbn.
      rewrite IH. f_equal. destruct (network w k) as [r'|]; [|done]. cbn in Hk.
      destruct (ok r'); by simplify_eq. }
    assert (Forall (λ kr, network w kr.1 = Some kr.2 ∧ ok kr.2 = true) rs) as Hall.
    { clear -Hrs. induction Hrs as [|k [k' r] ks rs Hk _ IH]; constructor; [|done].
      destruct (network w k) as [r'|] eqn:Hnet; [|done]. cbn in Hk.
      destruct (ok r') eqn:Hok; simplify_eq. by split. }
    assert (∀ key,
      cache_match STATIC_CACHE key
        (foldl (λ c kr, cache_put STATIC_CACHE kr.1 kr.2 c)
           (caches_open STATIC_CACHE (caches w)) rs)
      = if decide (key ∈ rs.*1) then network w key
        else cache_match STATIC_CACHE key (caches w)) as Hlook.
    { intros key. unfold cache_match.
      rewrite (cache_of_foldl_put STATIC_CACHE (network w)).
      - by rewrite cache_of_open.
      - apply caches_open_names.
      - eapply Forall_impl; [exact Hall|]. by intros kr [? _]. }
    split; [|split; [|split]].
    + intros p Hp.
      assert (href (resolve w p) ∈ rs.*1) as Hkey.
      { rewrite Hkeys. apply list_elem_of_fmap. by exists p. }
      pose proof Hkey as ([k r] & Hk & Hin)%list_elem_of_fmap. cbn in Hk. subst k.
      rewrite Forall_forall in Hall. destruct (Hall _ Hin) as [Hnet Hok]. cbn in *.
      exists r. split; [done|]. split; [done|]. by rewrite Hlook, decide_True.
    + intros key Hkey. rewrite Hlook, decide_False; [done|]. by rewrite Hkeys.
    + intros name Hne. by rewrite cache_of_foldl_put_other, cache_of_open.
    + done.
  - assert (¬ Forall (λ k, is_Some (r ← network w k; if ok r then Some (k, r) else None))
              ((λ p, href (resolve w p)) <$> STATIC_ASSETS)) as Hnot.
    { intros Hall%mapM_is_Some. rewrite Hrs in Hall. by apply is_Some_None in Hall. }
    apply (not_Forall_Exists _) in Hnot.
    apply Exists_exists in Hnot as (k & (p & -> & Hp)%list_elem_of_fmap & Hk).
    exists p. split; [done|]. unfold compose in Hk.
    destruct (network w (href (resolve w p))) as [r|]; [|done].
    cbn in Hk. destruct (ok r); [|done]. destruct Hk. by eexists.
Qed.

Lemma on_fetch_shapes (request : Request) w :
  (on_fetch request w).2 = w
  ∨ (on_fetch request w).2 = with_caches w (caches_open DYNAMIC_CACHE (caches w))
  ∨ ∃ r, network w (href (url request)) = Some r
         ∧ (on_fetch request w).2
           = with_caches w (cache_put DYNAMIC_CACHE (href (url request)) r
                              (caches_open DYNAMIC_CACHE (caches w))).
Proof.
  unfold on_fetch, api_strategy, navigate_strategy, static_strategy.
  repeat case_match; cbn; eauto.
Qed.

Lemma open_keeps_names name n c : n ∈ c.*1 → n ∈ (caches_open name c).*1.
Proof.
  rewrite caches_open_spec. destruct (decide (name ∈ c.*1)); [done|].
  rewrite fmap_app, elem_of_app. by left.
Qed.

(** X18.  Whatever the request, the fetch handler leaves every cache
    other than the dynamic one untouched, deletes no cache, and changes at
    most one entry of the dynamic cache, the one of the requested URL, which
    then holds what the network answered.  Requests that are not GET and
    [chrome-extension:] requests are passed through with the worker
    unchanged. *)
Theorem on_fetch_writes_dynamic_cache_only (request : Request) w :
  let w' := (on_fetch request w).2 in
  let key := href (url request) in
  (∀ name, name ≠ DYNAMIC_CACHE → cache_of name (caches w') = cache_of name (caches w))
  ∧ (∀ name, name ∈ (caches w).*1 → name ∈ (caches w').*1)
  ∧ (∀ k, k ≠ key →
       cache_match DYNAMIC_CACHE k (caches w') = cache_match DYNAMIC_CACHE k (caches w))
  ∧ (cache_match DYNAMIC_CACHE key (caches w') = cache_match DYNAMIC_CACHE key (caches w)
     ∨ (is_Some (network w key)
        ∧ cache_match DYNAMIC_CACHE key (caches w') = network w key))
  ∧ network w' = network w
  ∧ origin_protocol w' = origin_protocol w
  ∧ origin_hostname w' = origin_hostname w
  ∧ (method request ≠ "GET" ∨ protocol (url request) = "chrome-extension:" →
     on_fetch request w = (PassThrough, w)).
Proof.
  cbv zeta. unfold cache_match.
  assert (method request ≠ "GET" ∨ protocol (url request) = "chrome-extension:" →
          on_fetch request w = (PassThrough, w)) as Hskip.
  { unfold on_fetch. intros [Hm|Hp].
    - by rewrite (bool_decide_eq_false_2 _ Hm).
    - rewrite (bool_decide_eq_true_2 _ Hp). by destruct (bool_decide (method request = "GET")). }
  destruct (on_fetch_shapes request w) as [->|[->|(r & Hnet & ->)]].
  - repeat split; auto.
  - cbn. rewrite !cache_of_open.
    repeat split; auto using open_keeps_names. intros name _. by rewrite cache_of_open.
  - cbn. repeat split; auto.
    + intros name Hne. rewrite cache_of_put_open. by rewrite decide_False.
    + intros name Hin. rewrite cache_put_names. by apply open_keeps_names.
    + intros k Hk. rewrite cache_of_put_open, decide_True by done.
      by rewrite lookup_insert_ne.
    + right. rewrite Hnet. split; [by eexists|].
      rewrite cache_of_put_open, decide_True by done. by rewrite lookup_insert_eq.
Qed.

Lemma on_fetch_navigate (request : Request) w :
  method request = "GET" →
  protocol (url request) ≠ "chrome-extension:" →
  is_api_host (hostname (url request)) = false →
  mode request = "navigate" →
  on_fetch request w = navigate_strategy (href (url request)) w.
Proof.
  intros Hm Hp Hapi Hmode. unfold on_fetch.
  by rewrite (bool_decide_eq_true_2 _ Hm), (bool_decide_eq_false_2 _ Hp), Hapi,
    (bool_decide_eq_true_2 _ Hmode).
Qed.

(** X19.  A navigation answered by the network is answered with the same
    response when the network is gone afterwards, whether or not the
    response was ok: the navigation branch caches every response. *)
Theorem visited_page_served_offline (request : Request) w r :
  method request = "GET" →
  protocol (url request) ≠ "chrome-extension:" →
  is_api_host (hostname (url request)) = false →
  mode request = "navigate" →
  network w (href (url request)) = Some r →
  let w1 := (on_fetch request w).2 in
  (on_fetch request w).1 = RespondWith (Some r)
  ∧ cache_match DYNAMIC_CACHE (href (url request)) (caches w1) = Some r
  ∧ (on_fetch request (go_offline w1)).1 = RespondWith (Some r)
  ∧ caches (on_fetch request (go_offline w1)).2 = caches w1.
Proof.
  intros Hm Hp Hapi Hmode Hnet. cbv zeta.
  rewrite !on_fetch_navigate by done.
  unfold navigate_strategy at 1 2 4 6. rewrite Hnet. cbn [fst snd].
  assert (cache_match DYNAMIC_CACHE (href (url request))
            (cache_put DYNAMIC_CACHE (href (url request)) r
               (caches_open DYNAMIC_CACHE (caches w))) = Some r) as Hput.
  { unfold cache_match. rewrite cache_of_put_open, decide_True by done.
    by rewrite lookup_insert_eq. }
  split; [done|]. split; [done|].
  unfold navigate_strategy. cbn.
  assert (caches_open DYNAMIC_CACHE
            (cache_put DYNAMIC_CACHE (href (url request)) r
               (caches_open DYNAMIC_CACHE (caches w)))
          = cache_put DYNAMIC_CACHE (href (url request)) r
              (caches_open DYNAMIC_CACHE (caches w))) as ->.
  { rewrite (caches_open_spec _ (cache_put _ _ _ _)).
    rewrite decide_True; [done|]. rewrite cache_put_names. apply caches_open_names. }
  by rewrite Hput, Hnet.
Qed.

Lemma caches_match_None key c :
  caches_match key c = None ↔ Forall (λ e, e.2 !! key = None) c.
Proof.
  induction c as [|[n e] c IH]; cbn; [by split|].
  rewrite Forall_cons, <- IH. cbn. destruct (e !! key); [|tauto].
  split; [done|]. by intros [? _].
Qed.

Lemma caches_match_open key name c :
  caches_match key (caches_open name c) = caches_match key c.
Proof.
  rewrite caches_open_spec. destruct (decide (name ∈ c.*1)) as [|Hnew]; [done|].
  induction c as [|[n' e] c IH]; [done|]. cbn. destruct (e !! key); [done|].
  apply IH. intros Hin. apply Hnew. cbn. by right.
Qed.

(** The first response stored under a key no cache holds is the one
    [caches.match] finds from then on. *)
Lemma caches_match_put_fresh key name r c :
  caches_match key c = None → name ∈ c.*1 →
  caches_match key (cache_put name key r c) = Some r.
Proof.
  induction c as [|[n e] c IH]; cbn; [by intros _ ?%elem_of_nil|].
  destruct (e !! key) eqn:He; [done|]. intros Hc Hin.
  destruct (bool_decide (n = name)) eqn:Hn; cbn.
  - by rewrite lookup_insert_eq.
  - rewrite He. apply IH; [done|]. apply bool_decide_eq_false in Hn.
    apply elem_of_cons in Hin as [?|?]; [congruence|done].
Qed.

Lemma on_fetch_static (request : Request) w :
  method request = "GET" →
  protocol (url request) ≠ "chrome-extension:" →
  is_api_host (hostname (url request)) = false →
  mode request ≠ "navigate" →
  on_fetch request w = static_strategy (href (url request)) w.
Proof.
  intros Hm Hp Hapi Hmode. unfold on_fetch.
  by rewrite (bool_decide_eq_true_2 _ Hm), (bool_decide_eq_false_2 _ Hp), Hapi,
    (bool_decide_eq_false_2 _ Hmode).
Qed.

Lemma on_fetch_api (request : Request) w :
  method request = "GET" →
  protocol (url request) ≠ "chrome-extension:" →
  is_api_host (hostname (url request)) = true →
  on_fetch request w = api_strategy (href (url request)) w.
Proof.
  intros Hm Hp Hapi. unfold on_fetch.
  by rewrite (bool_decide_eq_true_2 _ Hm), (bool_decide_eq_false_2 _ Hp), Hapi.
Qed.

(** X20.  A request for a sub-resource no cache holds is answered by the
    network.  When the response is ok, every later request for it is
    answered with that response from the cache, whatever the network then
    does, and without changing the worker; when it is not ok, nothing is
    cached and the same request offline gets no response. *)
Theorem asset_fetched_once (request : Request) w r :
  method request = "GET" →
  protocol (url request) ≠ "chrome-extension:" →
  is_api_host (hostname (url request)) = false →
  mode request ≠ "navigate" →
  caches_match (href (url request)) (caches w) = None →
  network w (href (url request)) = Some r →
  let w1 := (on_fetch request w).2 in
  (on_fetch request w).1 = RespondWith (Some r)
  ∧ (if ok r
     then ∀ w2, caches w2 = caches w1 → on_fetch request w2 = (RespondWith (Some r), w2)
     else w1 = w ∧ on_fetch request (go_offline w1) = (RespondWith None, go_offline w1)).
Proof.
  intros Hm Hp Hapi Hmode Hmiss Hnet. cbv zeta.
  rewrite (on_fetch_static request w) by done.
  assert (static_strategy (href (url request)) w
          = (RespondWith (Some r),
             if ok r
             then with_caches w (cache_put DYNAMIC_CACHE (href (url request)) r
                                   (caches_open DYNAMIC_CACHE (caches w)))
             else w)) as ->.
  { unfold static_strategy. rewrite Hmiss, Hnet. by destruct (ok r). }
  cbn [fst snd]. split; [done|]. destruct (ok r) eqn:Hok.
  - intros w2 Hw2. rewrite on_fetch_static by done.
    unfold static_strategy. rewrite Hw2. cbn [caches with_caches].
    rewrite caches_match_put_fresh; [done| |apply caches_open_names].
    by rewrite caches_match_open.
  - split; [done|]. rewrite on_fetch_static by done.
    unfold static_strategy. cbn. by rewrite Hmiss.
Qed.

(** X21.  A request to an API host that no cache holds is answered by
    the network; offline afterwards, the same request gets that response
    when it was ok and no response at all when it was not, a response that
    is not ok leaving the worker unchanged. *)
Theorem api_response_cached_when_ok (request : Request) w r :
  method request = "GET" →
  protocol (url request) ≠ "chrome-extension:" →
  is_api_host (hostname (url request)) = true →
  caches_match (href (url request)) (caches w) = None →
  network w (href (url request)) = Some r →
  let w1 := (on_fetch request w).2 in
  (on_fetch request w).1 = RespondWith (Some r)
  ∧ (on_fetch request (go_offline w1)).1
    = RespondWith (if ok r then Some r else None)
  ∧ (on_fetch request (go_offline w1)).2 = go_offline w1
  ∧ (ok r = false → w1 = w).
Proof.
  intros Hm Hp Hapi Hmiss Hnet. cbv zeta.
  rewrite !on_fetch_api by done.
  assert (api_strategy (href (url request)) w
          = (RespondWith (Some r),
             if ok r
             then with_caches w (cache_put DYNAMIC_CACHE (href (url request)) r
                                   (caches_open DYNAMIC_CACHE (caches w)))
             else w)) as ->.
  { unfold api_strategy. rewrite Hnet. by destruct (ok r). }
  cbn [fst snd]. split; [done|]. unfold api_strategy. destruct (ok r) eqn:Hok; cbn.
  - rewrite caches_match_put_fresh; [done| |apply caches_open_names].
    by rewrite caches_match_open.
  - by rewrite Hmiss.
Qed.

Lemma caches_match_agree key r c :
  Forall (λ e, e.2 !! key = None ∨ e.2 !! key = Some r) c →
  Exists (λ e, e.2 !! key = Some r) c →
  caches_match key c = Some r.
Proof.
  induction 1 as [|[n e] c He Hc IH]; intros Hex; [by apply Exists_nil in Hex|].
  cbn in *. destruct He as [He|He]; rewrite He; [|done].
  apply Exists_cons in Hex as [Hex|Hex]; [cbn in Hex; congruence|by apply IH].
Qed.

Lemma foldl_put_fmap name (rs : list (string * Response)) c :
  foldl (λ c kr, cache_put name kr.1 kr.2 c) c rs
  = (λ e : string * gmap string Response,
       if bool_decide (e.1 = name)
       then (e.1, foldl (λ m kr, <[kr.1 := kr.2]> m) e.2 rs) else e) <$> c.
Proof.
  revert c. induction rs as [|[k r] rs IH]; intros c; cbn.
  { rewrite <- (list_fmap_id c) at 1. apply list_fmap_ext. intros i [n e] _. cbn.
    by destruct (bool_decide (n = name)). }
  rewrite IH. unfold cache_put. rewrite <- list_fmap_compose. apply list_fmap_ext.
  intros i [n e] _. cbn. destruct (bool_decide (n = name)) eqn:Hn; cbn; by rewrite Hn.
Qed.

Lemma foldl_insert_lookup (net : string → option Response)
    (rs : list (string * Response)) (m : gmap string Response) key :
  Forall (λ kr, net kr.1 = Some kr.2) rs →
  foldl (λ m kr, <[kr.1 := kr.2]> m) m rs !! key
  = if decide (key ∈ rs.*1) then net key else m !! key.
Proof.
  intros Hrs. revert m. induction Hrs as [|[k r] rs Hkr Hrs IH]; intros m.
  { cbn. rewrite decide_False; [done|]. apply not_elem_of_nil. }
  cbn [foldl fst snd]. rewrite IH. cbn in Hkr. cbn [fmap list_fmap fst].
  destruct (decide (key ∈ rs.*1)) as [Hk|Hk].
  - rewrite decide_True; [done|]. by right.
  - destruct (decide (key = k)) as [->|Hne].
    + rewrite lookup_insert_eq, decide_True; [done|]. by left.
    + rewrite lookup_insert_ne by done. rewrite decide_False; [done|].
      intros [?|?]%elem_of_cons; congruence.
Qed.

Lemma install_Some w w' :
  install w = Some w' →
  ∃ rs, w' = with_caches w
               (foldl (λ c kr, cache_put STATIC_CACHE kr.1 kr.2 c)
                  (caches_open STATIC_CACHE (caches w)) rs)
        ∧ rs.*1 = (λ p, href (resolve w p)) <$> STATIC_ASSETS
        ∧ Forall (λ kr, network w kr.1 = Some kr.2 ∧ ok kr.2 = true) rs.
Proof.
  unfold install. cbv zeta.
  generalize ((λ p, href (resolve w p)) <$> STATIC_ASSETS). intros keys.
  destruct (mapM _ keys) as [rs|] eqn:Hrs; cbn; [|done].
  intros [= <-]. exists rs. split; [done|]. apply mapM_Some in Hrs. split.
  - clear -Hrs. induction Hrs as [|k [k' r] ks rs Hk _ IH]; [done|]. cbn.
    rewrite IH. f_equal. destruct (network w k) as [r'|]; [|done]. cbn in Hk.
    destruct (ok r'); by simplify_eq.
  - clear -Hrs. induction Hrs as [|k [k' r] ks rs Hk _ IH]; constructor; [|done].
    destruct (network w k) as [r'|] eqn:Hnet; [|done]. cbn in Hk.
    destruct (ok r') eqn:Hok; simplify_eq. by split.
Qed.

(** X22.  After a successful installation and the activation, with the
    network gone, a request for a static asset that no cache held before is
    answered from the static cache with the installed response in every
    mode but [navigate]; a navigation to it gets no response when the
    dynamic cache was empty, although the static cache holds the asset. *)
Theorem installed_assets_offline w w' p (m : string) :
  install w = Some w' →
  p ∈ STATIC_ASSETS →
  origin_protocol w ≠ "chrome-extension:" →
  is_api_host (origin_hostname w) = false →
  caches_match (href (resolve w p)) (caches w) = None →
  let request := {| method := "GET"; url := resolve w p; mode := m |} in
  let offline := go_offline (activate w') in
  ∃ r, network w (href (resolve w p)) = Some r ∧ ok r = true
       ∧ cache_match STATIC_CACHE (href (resolve w p)) (caches offline) = Some r
       ∧ (m ≠ "navigate" → on_fetch request offline = (RespondWith (Some r), offline))
       ∧ (m = "navigate" →
          cache_of DYNAMIC_CACHE (caches w) = ∅ →
          (on_fetch request offline).1 = RespondWith None).
Proof.
  intros (rs & -> & Hkeys & Hall)%install_Some Hp Hproto Hapi Hmiss. cbv zeta.
  set (key := href (resolve w p)) in *.
  assert (key ∈ rs.*1) as Hkey.
  { rewrite Hkeys. apply list_elem_of_fmap. by exists p. }
  pose proof Hkey as ([k r] & Hk & Hin)%list_elem_of_fmap. cbn in Hk. subst k.
  pose proof Hall as Hall'. rewrite Forall_forall in Hall'.
  destruct (Hall' _ Hin) as [Hnet Hok]. cbn in Hnet, Hok.
  assert (Forall (λ kr : string * Response, network w kr.1 = Some kr.2) rs) as Hnets.
  { eapply Forall_impl; [exact Hall|]. by intros kr [? _]. }
  pose (keep := λ n : string,
          negb (negb (bool_decide (n = STATIC_CACHE))
                && negb (bool_decide (n = DYNAMIC_CACHE)))).
  set (c1 := foldl (λ c kr, cache_put STATIC_CACHE kr.1 kr.2 c)
               (caches_open STATIC_CACHE (caches w)) rs).
  assert (caches (go_offline (activate (with_caches w c1)))
          = List.filter (λ e, keep e.1) c1) as Hcaches by done.
  assert (cache_of STATIC_CACHE (List.filter (λ e, keep e.1) c1) !! key = Some r) as Hstatic.
  { rewrite cache_of_filter by done. unfold c1.
    rewrite (cache_of_foldl_put STATIC_CACHE (network w)); [|apply caches_open_names|done].
    by rewrite decide_True. }
  assert (caches_match key (List.filter (λ e, keep e.1) c1) = Some r) as Hmatch.
  { apply caches_match_agree.
    - apply Forall_forall. intros [n e] [He _]%filter_In_elem_of.
      unfold c1 in He. rewrite foldl_put_fmap in He.
      apply list_elem_of_fmap in He as ([n0 e0] & Heq & He0). cbn in Heq.
      destruct (bool_decide (n0 = STATIC_CACHE)); simplify_eq; cbn.
      + right. rewrite (foldl_insert_lookup (network w)) by done.
        by rewrite decide_True.
      + left. rewrite caches_open_spec in He0.
        apply caches_match_None in Hmiss. rewrite Forall_forall in Hmiss.
        destruct (decide (STATIC_CACHE ∈ (caches w).*1)).
        * by apply (Hmiss _ He0).
        * apply elem_of_app in He0 as [He0|He0]; [by apply (Hmiss _ He0)|].
          apply list_elem_of_singleton in He0. by simplify_eq.
    - apply Exists_exists.
      pose proof (caches_open_names STATIC_CACHE (caches w)) as Hopen.
      apply list_elem_of_fmap in Hopen as ([n0 e0] & Hn0 & He0). cbn in Hn0. subst n0.
      exists (STATIC_CACHE, foldl (λ m kr, <[kr.1 := kr.2]> m) e0 rs). split.
      + apply filter_In_elem_of. split; [|done].
        unfold c1. rewrite foldl_put_fmap. apply list_elem_of_fmap.
        exists (STATIC_CACHE, e0). split; [|done]. cbn.
        by rewrite bool_decide_eq_true_2.
      + cbn. rewrite (foldl_insert_lookup (network w)) by done.
        by rewrite decide_True. }
  exists r. split; [done|]. split; [done|]. split; [|split].
  - unfold cache_match. by rewrite Hcaches.
  - intros Hm. rewrite on_fetch_static by done. cbn [url]. fold key.
    unfold static_strategy. by rewrite Hcaches, Hmatch.
  - intros -> Hdyn. rewrite on_fetch_navigate by done. cbn [url]. fold key.
    unfold navigate_strategy. cbn [network go_offline fst]. unfold cache_match.
    rewrite cache_of_open, Hcaches, cache_of_filter by done.
    unfold c1. rewrite cache_of_foldl_put_other, cache_of_open by done.
    by rewrite Hdyn.
Qed.


(** *** On the example runtime *)

Lemma visited_page_served_offline_witness :
  let w := fresh_worker (λ _, Some MoreExamples.OfWorker.not_found) in
  let w1 := (on_fetch root_navigation w).2 in
  (on_fetch root_navigation w).1 = RespondWith (Some MoreExamples.OfWorker.not_found)
  ∧ (on_fetch root_navigation (go_offline w1)).1
    = RespondWith (Some MoreExamples.OfWorker.not_found).
Proof.
  intros w w1.
  destruct (visited_page_served_offline root_navigation w MoreExamples.OfWorker.not_found)
    as (Hon & _ & Hoff & _).
  - reflexivity.
  - discriminate.
  - reflexivity.
  - reflexivity.
  - reflexivity.
  - split; [exact Hon|exact Hoff].
Defined.

Lemma asset_fetched_once_witness :
  let w := fresh_worker (λ _, Some MoreExamples.OfWorker.logo) in
  let w1 := (on_fetch MoreExamples.OfWorker.logo_request w).2 in
  (on_fetch MoreExamples.OfWorker.logo_request w).1
  = RespondWith (Some MoreExamples.OfWorker.logo)
  ∧ on_fetch MoreExamples.OfWorker.logo_request (go_offline w1)
    = (RespondWith (Some MoreExamples.OfWorker.logo), go_offline w1).
Proof.
  intros w w1.
  destruct (asset_fetched_once MoreExamples.OfWorker.logo_request w
              MoreExamples.OfWorker.logo) as [Hon Hlater].
  - reflexivity.
  - discriminate.
  - reflexivity.
  - discriminate.
  - reflexivity.
  - reflexivity.
  - split; [exact Hon|]. exact (Hlater (go_offline w1) eq_refl).
Defined.

Lemma api_response_cached_when_ok_witness :
  let w := fresh_worker (λ _, Some MoreExamples.OfWorker.not_found) in
  let w1 := (on_fetch MoreExamples.OfWorker.api_request w).2 in
  (on_fetch MoreExamples.OfWorker.api_request w).1
  = RespondWith (Some MoreExamples.OfWorker.not_found)
  ∧ (on_fetch MoreExamples.OfWorker.api_request (go_offline w1)).1 = RespondWith None.
Proof.
  intros w w1.
  destruct (api_response_cached_when_ok MoreExamples.OfWorker.api_request w
              MoreExamples.OfWorker.not_found) as (Hon & Hoff & _).
  - reflexivity.
  - discriminate.
  - reflexivity.
  - reflexivity.
  - reflexivity.
  - split; [exact Hon|exact Hoff].
Defined.

Lemma installed_assets_offline_witness :
  let w := fresh_worker (λ _, Some shell) in
  ∃ w', install w = Some w'
        ∧ on_fetch {| method := "GET"; url := resolve w "/"; mode := "no-cors" |}
            (go_offline (activate w'))
          = (RespondWith (Some shell), go_offline (activate w'))
        ∧ (on_fetch {| method := "GET"; url := resolve w "/"; mode := "navigate" |}
             (go_offline (activate w'))).1 = RespondWith None.
Proof.
  intros w. destruct (install w) as [w'|] eqn:Hinstall; [|vm_compute in Hinstall; discriminate].
  exists w'. split; [reflexivity|].
  destruct (installed_assets_offline w w' "/" "no-cors" Hinstall)
    as (r & Hnet & _ & _ & Hsub & _).
  - apply list_elem_of_here.
  - discriminate.
  - reflexivity.
  - reflexivity.
  - injection Hnet as <-. split; [apply Hsub; discriminate|].
    destruct (installed_assets_offline w w' "/" "navigate" Hinstall)
      as (r' & _ & _ & _ & _ & Hnav).
    + apply list_elem_of_here.
    + discriminate.
    + reflexivity.
    + reflexivity.
    + exact (Hnav eq_refl eq_refl).
Defined.
End WorkerProofs.

(** ** More of services/currency.ts, and the rates effect of App.tsx *)

Module MoreCurrency.
Import JS Currency App RatesEffect EffProofs CurrencyProofs AppProofs.

Section with_runtime.
Context {text : Type} `{!Runtime text}.
Implicit Types (w : World text) (base : string).

(** A call writes to the cache key of its own base only. *)
Lemma getLatestRates_other_keys base w k :
  k ≠ cacheKey base →
  sessionStorage (getLatestRates base w).2 !! k = sessionStorage w !! k.
Proof.
  intros Hk.
  assert (∀ wa, sessionStorage wa = sessionStorage w →
          sessionStorage
            (match fetch_rates base wa with
             | (Ok r, w'') => (Ok r, w'')
             | (Throw _, w'') =>
                 (Ok (Some (JObj (relativeFallbackRates base))),
                  logged "Using fallback exchange rates"
                    (logged "Error fetching exchange rates:" w''))
             end).2 !! k = sessionStorage w !! k) as Hfetch.
  { intros wa Hwa. destruct (fetch_rates base wa) as [[res|e] w''] eqn:Hf.
    - destruct (fetch_rates_Ok _ _ _ _ Hf) as [r Hr].
      rewrite (fetch_rates_succeeds _ _ _ Hr) in Hf. injection Hf as _ <-.
      cbn. rewrite lookup_insert_ne by done. by rewrite Hwa.
    - rewrite (fetch_rates_Throw _ _ _ _ Hf). cbn. by rewrite Hwa. }
  rewrite getLatestRates_run, cache_lookup_run.
  destruct (sessionStorage w !! cacheKey base) as [d|]; [|by apply Hfetch].
  destruct (is_empty d); [by apply Hfetch|].
  destruct (JSON_parse d) as [parsed|]; [|done].
  destruct (decide (parsed = JNull)) as [->|Hnn]; [done|].
  rewrite match_not_null by done.
  destruct (_ <? _)%float; [done|by apply Hfetch].
Qed.

Lemma getLatestRates_corrupted base w d :
  sessionStorage w !! cacheKey base = Some d →
  is_empty d = false →
  JSON_parse d = None ∨ JSON_parse d = Some JNull →
  getLatestRates base w
  = (Throw (if JSON_parse d is Some _ then TypeError else SyntaxError), w).
Proof.
  intros Hd He Hparse. rewrite getLatestRates_run, cache_lookup_run, Hd, He.
  by destruct Hparse as [-> | ->].
Qed.

(** X23.  When the cache entry of a base is not JSON text, or is the text
    [null], [getLatestRates] for that base rejects (the read is outside
    the [try]) and leaves the session as it was; and no sequence of calls
    for any bases repairs the entry: the call rejects afterwards as well. *)
Theorem corrupted_cache_keeps_rejecting base w d (bases : list string) :
  sessionStorage w !! cacheKey base = Some d →
  is_empty d = false →
  JSON_parse d = None ∨ JSON_parse d = Some JNull →
  let w' := after_calls bases w in
  sessionStorage w' !! cacheKey base = Some d
  ∧ getLatestRates base w'
    = (Throw (if JSON_parse d is Some _ then TypeError else SyntaxError), w').
Proof.
  intros Hd He Hparse. cbv zeta. revert w Hd.
  induction bases as [|base' bases IH]; intros w Hd; cbn [after_calls].
  { split; [done|]. by apply getLatestRates_corrupted. }
  apply IH. destruct (decide (base' = base)) as [->|Hne].
  - by rewrite (getLatestRates_corrupted base w d).
  - rewrite getLatestRates_other_keys; [done|]. intros Heq. by apply cacheKey_inj in Heq.
Qed.


Lemma fallback_lookup c r :
  FALLBACK_RATES !! c = Some r →
  (c, r) ∈ [("USD", 1); ("EUR", 1.07); ("JPY", 0.0063); ("GBP", 1.27); ("AUD", 0.66);
            ("CAD", 0.73); ("CHF", 1.11); ("CNY", 0.14); ("IDR", 0.000062)]%float.
Proof. intros Hc%elem_of_map_to_list. by rewrite <- fallback_entries. Qed.

Lemma fallback_baseRate_cases base :
  fallback_baseRate base = 1%float
  ∨ FALLBACK_RATES !! base = Some (fallback_baseRate base)
  ∨ (FALLBACK_RATES !! base = None ∧ inherited base = true
     ∧ fallback_baseRate base = nan).
Proof.
  unfold fallback_baseRate. destruct (FALLBACK_RATES !! base) as [r|] eqn:Hr.
  - destruct (fallback_rate_self _ _ Hr) as [-> _]. right. by left.
  - destruct (inherited base); [right; by right|by left].
Qed.

(** Every entry of the fallback table of a base that is a currency of the
    table, or no name at all of [Object.prototype], is a number other than
    0 and NaN. *)
Lemma relativeFallbackRates_truthy base c r :
  is_Some (FALLBACK_RATES !! base) ∨ inherited base = false →
  FALLBACK_RATES !! c = Some r →
  truthy (JNum (r / fallback_baseRate base)) = true.
Proof.
  intros Hbase Hc%fallback_lookup.
  destruct (fallback_baseRate_cases base) as [->|[Hb%fallback_lookup|(Hnone & Hin & _)]].
  - repeat (apply elem_of_cons in Hc as [[= -> ->]|Hc]; [by vm_compute|]).
    by apply elem_of_nil in Hc.
  - revert Hb. generalize (fallback_baseRate base). intros rb Hb.
    repeat (apply elem_of_cons in Hb as [[= _ ->]|Hb];
            [repeat (apply elem_of_cons in Hc as [[= -> ->]|Hc]; [by vm_compute|]);
             by apply elem_of_nil in Hc|]).
    by apply elem_of_nil in Hb.
  - destruct Hbase as [[? Hsome]|Hno]; congruence.
Qed.

Lemma unscaled_fallback c r : FALLBACK_RATES !! c = Some r → (r / 1)%float = r.
Proof.
  intros Hc%fallback_lookup.
  repeat (apply elem_of_cons in Hc as [[= -> ->]|Hc]; [by vm_compute|]).
  by apply elem_of_nil in Hc.
Qed.

Lemma nan_fallback c r : FALLBACK_RATES !! c = Some r → (r / nan)%float = nan.
Proof.
  intros Hc%fallback_lookup.
  repeat (apply elem_of_cons in Hc as [[= -> ->]|Hc]; [by vm_compute|]).
  by apply elem_of_nil in Hc.
Qed.

(** The fallback table of a base that is no currency of the table. *)
Lemma relativeFallbackRates_unknown base :
  FALLBACK_RATES !! base = None →
  relativeFallbackRates base
  = if inherited base then (λ _, JNum nan) <$> FALLBACK_RATES
    else JNum <$> FALLBACK_RATES.
Proof.
  intros Hbase. unfold relativeFallbackRates, fallback_baseRate. rewrite Hbase.
  apply map_eq. intros c. destruct (inherited base); rewrite !lookup_fmap;
    (destruct (FALLBACK_RATES !! c) as [r|] eqn:Hc; [|done]); cbn.
  - by rewrite (nan_fallback c r).
  - by rewrite (unscaled_fallback c r).
Qed.

(** X25.  For a base the fallback table does not have, a failed fetch
    resolves to a table with no entry for the base: the table's own rates,
    unscaled, or, when the base names a member of [Object.prototype]
    ([toString], [constructor], ...), NaN for every currency.  With that
    table a conversion from or to the base is answered with the original
    amount and a warning (when the base names such a member: for every
    other currency of the table, and for every name that is not
    inherited). *)
Theorem fallback_for_unknown_base base w :
  FALLBACK_RATES !! base = None →
  (cache_lookup base w).1 = Ok None →
  fetch_fails w base →
  ∃ w',
    getLatestRates base w = (Ok (Some (JObj (relativeFallbackRates base))), w')
    ∧ relativeFallbackRates base !! base = None
    ∧ relativeFallbackRates base
      = (if inherited base then (λ _, JNum nan) <$> FALLBACK_RATES
         else JNum <$> FALLBACK_RATES)
    ∧ ∀ st A c,
        exchangeRates st = Some (relativeFallbackRates base) →
        isLoadingRates st = false →
        c ≠ base →
        inherited base = false ∨ is_Some (FALLBACK_RATES !! c) ∨ inherited c = false →
        convertAmount st A c base = (A, [warning c base false])
        ∧ convertAmount st A base c = (A, [warning base c false]).
Proof.
  intros Hbase Hmiss Hfail.
  destruct (cache_lookup base w) as [res wa] eqn:Hlook. simpl in Hmiss. subst res.
  pose proof (cache_lookup_miss _ _ _ Hlook) as Hsame.
  destruct (fetch_rates_fails base wa (fetch_fails_same _ _ _ Hsame Hfail)) as [e He].
  assert (relativeFallbackRates base !! base = None) as Hnone.
  { unfold relativeFallbackRates. by rewrite lookup_fmap, Hbase. }
  eexists. split; [by rewrite getLatestRates_run, Hlook, He|]. split; [done|].
  split; [by apply relativeFallbackRates_unknown|].
  intros st A c Hst Hload Hc Hcase.
  rewrite !(convertAmount_available st (relativeFallbackRates base)) by done.
  assert (truthy_member (get_member (relativeFallbackRates base) c)
          && truthy_member (get_member (relativeFallbackRates base) base) = false) as Hand.
  { unfold get_member at 2. rewrite Hnone.
    destruct (inherited base) eqn:Hin; [|by rewrite andb_false_r].
    rewrite andb_true_r. apply truthy_member_false.
    rewrite relativeFallbackRates_unknown, Hin, lookup_fmap by done.
    destruct Hcase as [?|[[r Hr]|Hcin]]; [done| |].
    - by rewrite Hr.
    - destruct (FALLBACK_RATES !! c); [done|]. exact Hcin. }
  rewrite Hand. rewrite andb_comm in Hand. by rewrite Hand.
Qed.

Lemma in_world_run {A} (m : Eff (World text) A) (p : RatesPage text) :
  in_world m p = ((m (world p)).1, {| rates := rates p; world := (m (world p)).2 |}).
Proof. done. Qed.


(** X27.  When there is no fresh cache entry and the fetch fails, the
    rates effect ends with the fallback table of the display currency in
    place and the loading flag cleared, without having written to the
    cache.  When the display currency is a currency of the table, or at
    least no name of a member of [Object.prototype], every conversion
    between two different currencies of the table is then computed by
    the formula, with the fallback rates relative to the display
    currency, and without a warning.  When it names such a member
    ([toString], [constructor], ...) every rate of the table is NaN, and
    a conversion from or to a currency of the table returns the original
    amount with a warning. *)
Theorem fetchRates_offline_then_convert currency (p : RatesPage text) :
  currency ≠ "" →
  (cache_lookup currency (world p)).1 = Ok None →
  fetch_fails (world p) currency →
  ∃ p',
    fetchRates currency p = (Ok tt, p')
    ∧ rates p' = {| exchangeRates := Some (relativeFallbackRates currency);
                    isLoadingRates := false |}
    ∧ sessionStorage (world p') = sessionStorage (world p)
    ∧ (is_Some (FALLBACK_RATES !! currency) ∨ inherited currency = false →
       ∀ A X Y rx ry,
         X ≠ Y →
         FALLBACK_RATES !! X = Some rx →
         FALLBACK_RATES !! Y = Some ry →
         convertAmount (rates p') A X Y
         = (A / (rx / fallback_baseRate currency) * (ry / fallback_baseRate currency),
            [])%float)
    ∧ (FALLBACK_RATES !! currency = None → inherited currency = true →
       ∀ A X Y,
         X ≠ Y →
         is_Some (FALLBACK_RATES !! X) ∨ is_Some (FALLBACK_RATES !! Y) →
         convertAmount (rates p') A X Y = (A, [warning X Y false])).
Proof.
  intros Hne Hmiss Hfail.
  destruct (cache_lookup currency (world p)) as [res wa] eqn:Hlook.
  simpl in Hmiss. subst res.
  pose proof (cache_lookup_miss _ _ _ Hlook) as Hsame.
  destruct (fetch_rates_fails currency wa (fetch_fails_same _ _ _ Hsame Hfail)) as [e He].
  eexists. split; [|split; [|split; [|split]]].
  - unfold fetchRates. rewrite (bool_decide_eq_false_2 _ Hne).
    rewrite bind_run. cbn [setIsLoadingRates modify fst snd]. cbv beta iota.
    rewrite bind_run, in_world_run. cbn [world rates].
    rewrite getLatestRates_run, Hlook, He. cbn [fst snd]. cbv beta iota.
    rewrite bind_run. reflexivity.
  - reflexivity.
  - cbn. by destruct Hsame as [-> _].
  - intros Hbase A X Y rx ry HXY HX HY. cbn [rates].
    rewrite (convertAmount_available _ (relativeFallbackRates currency)) by done.
    unfold get_member, relativeFallbackRates. rewrite !lookup_fmap, HX, HY.
    cbn [fmap option_fmap option_map truthy_member ToNumber_member ToNumber].
    by rewrite (relativeFallbackRates_truthy currency X rx Hbase HX),
      (relativeFallbackRates_truthy currency Y ry Hbase HY).
  - intros Hnone Hin A X Y HXY Hsome. cbn [rates].
    rewrite (convertAmount_available _ (relativeFallbackRates currency)) by done.
    rewrite relativeFallbackRates_unknown, Hin by done.
    unfold get_member. rewrite !lookup_fmap.
    destruct Hsome as [[r Hr]|[r Hr]]; rewrite Hr; cbn; [done|].
    by rewrite andb_false_r.
Qed.
End with_runtime.

(** *** On the example runtime *)

Lemma corrupted_cache_keeps_rejecting_witness :
  let w' := after_calls ["EUR"; "USD"] MoreExamples.OfRates.corrupted in
  getLatestRates "USD" w' = (Throw SyntaxError, w').
Proof.
  intros w'.
  refine (proj2 (corrupted_cache_keeps_rejecting "USD" MoreExamples.OfRates.corrupted
                   (Malformed "{") ["EUR"; "USD"] _ _ _)).
  - reflexivity.
  - reflexivity.
  - left. reflexivity.
Defined.

Lemma fallback_for_unknown_base_witness :
  let w := Examples.OfCurrency.session Examples.OfCurrency.offline in
  (∃ w',
     getLatestRates "XAU" w = (Ok (Some (JObj (relativeFallbackRates "XAU"))), w')
     ∧ relativeFallbackRates "XAU" = JNum <$> FALLBACK_RATES)
  ∧ (∃ w',
       getLatestRates "toString" w
       = (Ok (Some (JObj (relativeFallbackRates "toString"))), w')
       ∧ relativeFallbackRates "toString" = (λ _, JNum nan) <$> FALLBACK_RATES).
Proof.
  intros w. split.
  - destruct (fallback_for_unknown_base "XAU" w) as (w' & Hcall & _ & Htable & _).
    + reflexivity.
    + reflexivity.
    + exact I.
    + exists w'. split; [exact Hcall|exact Htable].
  - destruct (fallback_for_unknown_base "toString" w) as (w' & Hcall & _ & Htable & _).
    + reflexivity.
    + reflexivity.
    + exact I.
    + exists w'. split; [exact Hcall|exact Htable].
Defined.


Lemma fetchRates_offline_then_convert_witness :
  let p := MoreExamples.OfRates.first_render
             (Examples.OfCurrency.session Examples.OfCurrency.offline) in
  (∃ p',
     fetchRates "IDR" p = (Ok tt, p')
     ∧ convertAmount (rates p') 100 "USD" "IDR"
       = (100 / (1 / 0.000062) * (0.000062 / 0.000062), [])%float)
  ∧ (∃ p',
       fetchRates "constructor" p = (Ok tt, p')
       ∧ convertAmount (rates p') 100 "USD" "IDR" = (100%float, [warning "USD" "IDR" false])).
Proof.
  intros p. split.
  - destruct (fetchRates_offline_then_convert "IDR" p) as (p' & Hrun & _ & _ & Hconv & _).
    + discriminate.
    + reflexivity.
    + exact I.
    + exists p'. split; [exact Hrun|].
      refine (Hconv _ 100%float "USD" "IDR" 1%float 0.000062%float _ eq_refl eq_refl).
      * left. eexists. reflexivity.
      * discriminate.
  - destruct (fetchRates_offline_then_convert "constructor" p)
      as (p' & Hrun & _ & _ & _ & Hwarn).
    + discriminate.
    + reflexivity.
    + exact I.
    + exists p'. split; [exact Hrun|].
      refine (Hwarn eq_refl eq_refl 100%float "USD" "IDR" _ _).
      * discriminate.
      * left. eexists. reflexivity.
Defined.
End MoreCurrency.
